(** * A shallow embedding of the reactive engine of [src/index.ts]

    The engine keeps three pieces of process-wide mutable state: the
    [runningEffects] stack, the [Updates] flush queue and the graph of
    signals and effects.  Signals and effects are JS objects linked to each
    other; here they live in two arenas ([signals], [effects]) and refer to
    each other by index.  JS [Set]s keep insertion order; they are lists
    without duplicates, with [set_add] / [set_delete] as [Set.add] /
    [Set.delete].

    User code (effect bodies, memo bodies, the body given to [batch] and the
    top-level script) is arbitrary JS that calls back into the engine.  It
    is given as a small command tree [cmd] whose constructors are the calls
    it may make; [exec] runs such a tree against the engine.  All engine
    functions are mutually recursive and may not terminate (an effect that
    writes a signal it reads re-schedules itself forever), so they take a
    fuel argument and return [OutOfFuel] when it runs out.  A JS exception
    is the [Raised] outcome, which carries the state as it was when the
    exception left the function: JS does not roll back mutations. *)

From Stdlib Require Import String List Arith Bool ZArith Lia.
Import ListNotations.

(** ** Values and user code *)

(** Signal values are opaque to the engine; [None] is JS [undefined]. *)
Definition value := option Z.

(** The calls user code can make.  Continuations receive what the call
    returns: [Read] the signal's current value, [NewSignal] / [NewMemo] the
    (index of the) signal whose reader was returned. *)
Inductive cmd : Type :=
| Ret (v : value)                        (** return [v] *)
| Read (s : nat) (k : value -> cmd)      (** call the reader of signal [s] *)
| Write (s : nat) (v : value) (k : cmd)  (** call the setter of signal [s] *)
| NewSignal (init : value) (k : nat -> cmd)  (** [createSignal(init)] *)
| NewEffect (body : cmd) (k : cmd)       (** [createEffect(body)] *)
| NewMemo (body : cmd) (k : nat -> cmd)  (** [createMemo(body)] *)
| Batch (body : cmd) (k : cmd)           (** [batch(body)] *)
| Tick (c : nat) (k : cmd)               (** [counter_c++] in user code *)
| Throw.                                 (** [throw ...] in user code *)

(** Sequencing of user code: run [c], pass its result to [f]. *)
Fixpoint bind (c : cmd) (f : value -> cmd) : cmd :=
  match c with
  | Ret v => f v
  | Read s k => Read s (fun x => bind (k x) f)
  | Write s v k => Write s v (bind k f)
  | NewSignal i k => NewSignal i (fun x => bind (k x) f)
  | NewEffect b k => NewEffect b (bind k f)
  | NewMemo b k => NewMemo b (fun x => bind (k x) f)
  | Batch b k => Batch b (bind k f)
  | Tick c k => Tick c (bind k f)
  | Throw => Throw
  end.

(** ** The data model of [src/types.ts] *)

(** [interface SignalNode { current; observers: Set<Effect> }] *)
Record SignalNode := mkSignal {
  current : value;
  observers : list nat
}.

(** [interface Effect extends Owner { run; fn; dependencies; state? }].
    [state] is ['pending'] ([true]) or absent ([false]).  The [run] field
    ([() => runEffect(effect)]) is never called by the engine and is left
    out. *)
Record Effect := mkEffect {
  fn : cmd;
  dependencies : list nat;
  owner : option nat;
  owned : option (list nat);
  state : bool
}.

(** The module-level state of [index.ts], plus three observation-only
    fields the engine never reads: [counters] holds the counters user code
    increments with [Tick]; [drained] logs, in order, every queue entry
    [flushUpdates] hands to [runEffect]; [enqueued] logs, in order, every
    [Updates.push].
    [runningEffects] is a JS array used as a stack; here its top is the
    head of the list. *)
Record World := mkWorld {
  signals : list SignalNode;
  effects : list Effect;
  runningEffects : list nat;
  Updates : option (list nat);
  counters : nat -> nat;
  drained : list nat;
  enqueued : list nat
}.

Definition init_world : World :=
  mkWorld [] [] [] None (fun _ => 0) [] [].

(** ** Helpers: JS [Set] on lists, arena access and update *)

Definition set_has (x : nat) (l : list nat) : bool := existsb (Nat.eqb x) l.

(** [Set.prototype.add]: no-op when present, else append. *)
Definition set_add (x : nat) (l : list nat) : list nat :=
  if set_has x l then l else l ++ [x].

(** [Set.prototype.delete]. *)
Definition set_delete (x : nat) (l : list nat) : list nat :=
  filter (fun y => negb (Nat.eqb y x)) l.

Fixpoint upd {A} (l : list A) (i : nat) (f : A -> A) : list A :=
  match l, i with
  | [], _ => []
  | x :: l, O => f x :: l
  | x :: l, S i => x :: upd l i f
  end.

Definition dummy_signal : SignalNode := mkSignal None [].
Definition dummy_effect : Effect := mkEffect (Ret None) [] None None false.

Definition sig (w : World) (s : nat) : SignalNode := nth s (signals w) dummy_signal.
Definition eff (w : World) (e : nat) : Effect := nth e (effects w) dummy_effect.

Definition with_signals (w : World) (f : list SignalNode -> list SignalNode) : World :=
  mkWorld (f (signals w)) (effects w) (runningEffects w) (Updates w) (counters w) (drained w) (enqueued w).
Definition with_effects (w : World) (f : list Effect -> list Effect) : World :=
  mkWorld (signals w) (f (effects w)) (runningEffects w) (Updates w) (counters w) (drained w) (enqueued w).
Definition with_running (w : World) (r : list nat) : World :=
  mkWorld (signals w) (effects w) r (Updates w) (counters w) (drained w) (enqueued w).
Definition with_updates (w : World) (u : option (list nat)) : World :=
  mkWorld (signals w) (effects w) (runningEffects w) u (counters w) (drained w) (enqueued w).

Definition upd_signal (w : World) (s : nat) (f : SignalNode -> SignalNode) : World :=
  with_signals w (fun l => upd l s f).
Definition upd_effect (w : World) (e : nat) (f : Effect -> Effect) : World :=
  with_effects w (fun l => upd l e f).

Definition set_current (v : value) (n : SignalNode) : SignalNode :=
  mkSignal v (observers n).
Definition map_observers (f : list nat -> list nat) (n : SignalNode) : SignalNode :=
  mkSignal (current n) (f (observers n)).
Definition map_deps (f : list nat -> list nat) (x : Effect) : Effect :=
  mkEffect (fn x) (f (dependencies x)) (owner x) (owned x) (state x).
Definition set_owned (o : option (list nat)) (x : Effect) : Effect :=
  mkEffect (fn x) (dependencies x) (owner x) o (state x).
Definition set_state (b : bool) (x : Effect) : Effect :=
  mkEffect (fn x) (dependencies x) (owner x) (owned x) b.

Definition tick (c : nat) (w : World) : World :=
  mkWorld (signals w) (effects w) (runningEffects w) (Updates w)
    (fun i => if Nat.eqb i c then S (counters w i) else counters w i) (drained w)
    (enqueued w).

Definition log_drained (e : nat) (w : World) : World :=
  mkWorld (signals w) (effects w) (runningEffects w) (Updates w) (counters w)
    (drained w ++ [e]) (enqueued w).

(** [Updates.push(o)] on the queue [q], logged in [enqueued]. *)
Definition push_update (o : nat) (q : list nat) (w : World) : World :=
  mkWorld (signals w) (effects w) (runningEffects w) (Some (q ++ [o])) (counters w)
    (drained w) (enqueued w ++ [o]).

(** ** Outcomes *)

Inductive Res (A : Type) : Type :=
| Done (w : World) (a : A)
| Raised (w : World)
| OutOfFuel.
Arguments Done {A} w a.
Arguments Raised {A} w.
Arguments OutOfFuel {A}.

(** Continue with [k] after a normal completion; exceptions propagate. *)
Definition and_then {A B} (r : Res A) (k : World -> A -> Res B) : Res B :=
  match r with
  | Done w a => k w a
  | Raised w => Raised w
  | OutOfFuel => OutOfFuel
  end.

Notation "'let!' w ',' x ':=' r 'in' k" := (and_then r (fun w x => k))
  (at level 200, w name, x name, r at level 100, k at level 200).

(** ** The engine of [src/index.ts] *)

(** [getRunningEffect()]: the top of the stack, [undefined] if empty. *)
Definition getRunningEffect (w : World) : option nat := hd_error (runningEffects w).

(** [trackEffectDependency(effect, signal)] *)
Definition trackEffectDependency (e s : nat) (w : World) : World :=
  let w1 := upd_signal w s (map_observers (set_add e)) in
  upd_effect w1 e (map_deps (set_add s)).

(** [read()] of signal [s] *)
Definition read (s : nat) (w : World) : World * value :=
  let w1 := match getRunningEffect w with
            | Some e => trackEffectDependency e s w
            | None => w
            end in
  (w1, current (sig w1 s)).

(** The callback [write] hands to [runUpdates]:
    [for (const observer of [...signal.observers])
       if (!observer.state) { observer.state = 'pending'; Updates.push(observer) }].
    [Updates.push] on [undefined] would throw; [write] only calls this
    inside [runUpdates], where [Updates] is set. *)
Fixpoint schedule_observers (obs : list nat) (w : World) : Res unit :=
  match obs with
  | [] => Done w tt
  | o :: obs =>
      if state (eff w o) then schedule_observers obs w
      else match Updates w with
           | None => Raised w
           | Some q =>
               schedule_observers obs (push_update o q (upd_effect w o (set_state true)))
           end
  end.

(** [runUpdates(fn)], given [flushUpdates] and [fn].  An array, even an
    empty one, is truthy, so [if (Updates)] tests for [undefined] only.
    The value [fn] returns is dropped by every caller. *)
Definition runUpdates {A} (flushUpdates : World -> Res unit)
  (f : World -> Res A) (w : World) : Res unit :=
  match Updates w with
  | Some _ => let! w1, _x := f w in Done w1 tt
  | None =>
      let! w1, _x := f (with_updates w (Some [])) in
      flushUpdates w1
  end.

(** [write(nextValue)] of signal [s] *)
Definition write (flushUpdates : World -> Res unit) (s : nat) (v : value)
  (w : World) : Res unit :=
  let w1 := upd_signal w s (set_current v) in
  match observers (sig w1 s) with
  | [] => Done w1 tt
  | obs => runUpdates flushUpdates (schedule_observers obs) w1
  end.

(** [createSignal(value)]: returns the new signal's index. *)
Definition createSignal (v : value) (w : World) : World * nat :=
  (with_signals w (fun l => l ++ [mkSignal v []]), length (signals w)).

(** The first half of [createEffect(fn)]: allocate the effect and attach
    it to its owner ([owner.owned ||= []; owner.owned.push(effect)]). *)
Definition allocEffect (body : cmd) (w : World) : World * nat :=
  let o := getRunningEffect w in
  let id := length (effects w) in
  let w1 := with_effects w (fun l => l ++ [mkEffect body [] o None false]) in
  match o with
  | Some p =>
      (upd_effect w1 p (fun x => set_owned (Some (match owned x with
                                                   | Some l => l ++ [id]
                                                   | None => [id]
                                                   end)) x), id)
  | None => (w1, id)
  end.

(** The memo's backing effect: [() => set(fn())]. *)
Definition memoBody (body : cmd) (sid : nat) : cmd :=
  bind body (fun v => Write sid v (Ret None)).

(** [array.forEach(f)] for a callback that may throw. *)
Fixpoint forEach (f : nat -> World -> Res unit) (l : list nat) (w : World) : Res unit :=
  match l with
  | [] => Done w tt
  | c :: l => let! w1, _x := f c w in forEach f l w1
  end.

(** [cleanup(effect)] *)
Fixpoint cleanup (n : nat) (e : nat) (w : World) {struct n} : Res unit :=
  match n with
  | O => OutOfFuel
  | S n =>
      let w1 := fold_left (fun w d => upd_signal w d (map_observers (set_delete e)))
                  (dependencies (eff w e)) w in
      let! w2, _x :=
        match owned (eff w1 e) with
        | Some l =>
            let! w2, _y := forEach (cleanup n) l w1 in
            Done (upd_effect w2 e (set_owned (Some []))) tt
        | None => Done w1 tt
        end in
      Done (upd_effect w2 e (fun x => map_deps (fun _ => []) (set_state false x))) tt
  end.

Fixpoint exec (n : nat) (c : cmd) (w : World) {struct n} : Res value :=
  match n with
  | O => OutOfFuel
  | S n =>
      match c with
      | Ret v => Done w v
      | Read s k => let (w1, v) := read s w in exec n (k v) w1
      | Write s v k =>
          let! w1, _x := write (flushUpdates n) s v w in exec n k w1
      | NewSignal i k => let (w1, s) := createSignal i w in exec n (k s) w1
      | NewEffect b k =>
          let (w1, id) := allocEffect b w in
          let! w2, _x := runEffect n id w1 in exec n k w2
      | NewMemo b k =>
          let (w1, sid) := createSignal None w in
          let (w2, id) := allocEffect (memoBody b sid) w1 in
          let! w3, _x := runEffect n id w2 in exec n (k sid) w3
      | Batch b k =>
          let! w1, _x := runUpdates (flushUpdates n) (exec n b) w in exec n k w1
      | Tick i k => exec n k (tick i w)
      | Throw => Raised w
      end
  end

(** [runEffect(effect)] *)
with runEffect (n : nat) (e : nat) (w : World) {struct n} : Res unit :=
  match n with
  | O => OutOfFuel
  | S n =>
      let! w1, _x := cleanup n e w in
      let w2 := with_running w1 (e :: runningEffects w1) in
      match runUpdates (flushUpdates n) (exec n (fn (eff w2 e))) w2 with
      | Done w3 _ => Done (with_running w3 (tl (runningEffects w3))) tt
      | Raised w3 => Raised (with_running w3 (tl (runningEffects w3)))
      | OutOfFuel => OutOfFuel
      end
  end

(** [flushUpdates()] from cursor [i] ([flushedIndex]).  [Updates.length]
    on [undefined] throws a TypeError.  Queue entries are effect objects,
    always truthy, so the [if (effect)] test always passes for an index
    below the length. *)
with flushUpdates (n : nat) (w : World) {struct n} : Res unit :=
  match n with
  | O => OutOfFuel
  | S n => flushFrom n 0 w
  end

with flushFrom (n : nat) (i : nat) (w : World) {struct n} : Res unit :=
  match n with
  | O => OutOfFuel
  | S n =>
      match Updates w with
      | None => Raised w
      | Some q =>
          if (Nat.eqb (length q) 0 || Nat.eqb i (length q))%bool
          then Done (with_updates w None) tt
          else match nth_error q i with
               | Some e =>
                   let! w1, _x := runEffect n e (log_drained e w) in
                   flushFrom n (S i) w1
               | None => flushFrom n i w
               end
      end
  end.

(** ** Scenarios of the test file *)

Definition run_script (n : nat) (c : cmd) : Res value := exec n c init_world.

Definition count_after (r : Res value) (c : nat) : option nat :=
  match r with Done w _ => Some (counters w c) | _ => None end.

(** [testEffectsScenarios.basic] *)
Definition effects_basic : cmd :=
  NewSignal (Some 0%Z) (fun count =>
  NewSignal (Some 0%Z) (fun second =>
  NewEffect (Read count (fun _ => Read second (fun _ => Tick 0 (Ret None))))
  (Write count (Some 5%Z) (Write second (Some 10%Z) (Ret None))))).


(** [testEffectsScenarios.nested] *)
Definition effects_nested : cmd :=
  NewSignal (Some 0%Z) (fun count =>
  NewSignal (Some 0%Z) (fun second =>
  NewEffect (Read count (fun _ =>
               NewEffect (Read second (fun _ => Tick 1 (Ret None)))
               (Tick 0 (Ret None))))
  (Write count (Some 1%Z) (Write second (Some 2%Z) (Ret None))))).


Definition effects_dynamic : cmd :=
  NewSignal (Some 0%Z) (fun count =>
  NewSignal (Some 1%Z) (fun other =>
  NewEffect (Read count (fun c =>
     (if match c with Some z => Z.ltb 5 z | None => false end
      then Read other (fun _ => Tick 0 (Ret None)) else Tick 0 (Ret None))))
  (Write other (Some 2%Z) (Write count (Some 20%Z) (Write other (Some 3%Z)
  (Tick 9 (Write count (Some 0%Z) (Write other (Some 4%Z) (Ret None))))))))).


Definition memo_scenario : cmd :=
  NewSignal (Some 1%Z) (fun firstName =>
  NewSignal (Some 2%Z) (fun lastName =>
  NewSignal (Some 1%Z) (fun showFull =>
  NewMemo (Tick 0 (Read showFull (fun b => if match b with Some 0%Z => true | _ => false end
                  then Read firstName Ret
                  else Read firstName (fun f => Read lastName (fun l => Ret l)))))
  (fun displayName =>
  Read displayName (fun _ => Read displayName (fun _ => Read displayName (fun _ =>
  NewEffect (Read displayName (fun _ => Tick 1 (Ret None)))
  (Write showFull (Some 0%Z)
  (Write lastName (Some 7%Z)
  (Write showFull (Some 1%Z)
  (Write lastName (Some 7%Z) (Ret None)))))))))))).


Definition batch_scenario : cmd :=
  NewSignal (Some 0%Z) (fun count =>
  NewSignal (Some 0%Z) (fun other =>
  NewMemo (Tick 0 (Read count (fun a => Read other (fun b => Ret a))))
  (fun memoed =>
  NewEffect (Read memoed (fun _ => Read count (fun _ => Read other (fun _ => Tick 1 (Ret None)))))
  (Batch (Write count (Some 1%Z) (Write other (Some 2%Z) (Ret None))) (Ret None))))).


(** ** Observations on outcomes and worlds *)

(** [P] holds of the final state of every outcome that has one. *)
Definition holds {A} (P : World -> Prop) (r : Res A) : Prop :=
  match r with
  | Done w _ => P w
  | Raised w => P w
  | OutOfFuel => True
  end.

(** What [cleanup] leaves alone: the scheduler state, the bodies of the
    effects and the values of the signals. *)
Definition sched (w : World) :=
  (runningEffects w, Updates w, counters w, drained w, enqueued w).
Definition fns (w : World) : list cmd := map fn (effects w).
Definition currents (w : World) : list value := map current (signals w).

Definition cleanup_post (w : World) (w' : World) : Prop :=
  sched w' = sched w /\ fns w' = fns w /\ currents w' = currents w.

Definition same_running (w : World) (w' : World) : Prop :=
  runningEffects w' = runningEffects w.

(** [w'] is [w] with the items [r] pushed onto the open queue, logged in
    [enqueued], and nothing drained. *)
Definition grows (w : World) (w' : World) : Prop :=
  exists q r, Updates w = Some q /\ Updates w' = Some (q ++ r) /\
    enqueued w' = enqueued w ++ r /\ drained w' = drained w.

(** ** Side conditions of the counting results *)

(** User code that reads only signals allowed by [Rd] and writes only
    signals allowed by [Wr].  It may create signals, effects and memos: the
    continuation after a creation need only be well-behaved for the
    signals [Wr] allows (a fresh signal is one of them wherever the results
    below use [tame]), and the bodies of the effects and memos it creates,
    whose reads are their own, must write only signals allowed by [Wr]. *)
Inductive tame (Wr Rd : nat -> Prop) : cmd -> Prop :=
| tame_Ret v : tame Wr Rd (Ret v)
| tame_Read s k : Rd s -> (forall v, tame Wr Rd (k v)) -> tame Wr Rd (Read s k)
| tame_Write s v k : Wr s -> tame Wr Rd k -> tame Wr Rd (Write s v k)
| tame_NewSignal i k : (forall s, Wr s -> tame Wr Rd (k s)) -> tame Wr Rd (NewSignal i k)
| tame_NewEffect b k : tame Wr (fun _ => True) b -> tame Wr Rd k -> tame Wr Rd (NewEffect b k)
| tame_NewMemo b k : tame Wr (fun _ => True) b -> (forall s, Wr s -> tame Wr Rd (k s)) ->
    tame Wr Rd (NewMemo b k)
| tame_Batch b k : tame Wr Rd b -> tame Wr Rd k -> tame Wr Rd (Batch b k)
| tame_Tick c k : tame Wr Rd k -> tame Wr Rd (Tick c k)
| tame_Throw : tame Wr Rd Throw.

(** No body, in any of its branches, writes a signal of [R]; the body of
    [E] reads only signals of [R]. *)
Definition tame_world (E : nat) (R : list nat) (w : World) : Prop :=
  forall x, tame (fun s => ~ In s R) (fun s => x = E -> In s R) (fn (eff w x)).

(** Every signal of [R] is allocated. *)
Definition allocated (R : list nat) (w : World) : Prop :=
  forall s, In s R -> s < length (signals w).

(** [E] observes only signals of [R]. *)
Definition observes_within (E : nat) (R : list nat) (w : World) : Prop :=
  forall s, In E (observers (sig w s)) -> In s R.

(** The invariant a flush keeps for [E]: the bodies allowed by
    [tame_world], the observer edges of [E] within [R], [R] and [E]
    allocated. *)
Definition quiet_inv (E : nat) (R : list nat) (w : World) : Prop :=
  tame_world E R w /\ observes_within E R w /\ allocated R w /\ E < length (effects w).

(** Every observer edge of [E] has its dependency edge back. *)
Definition edges_back (E : nat) (w : World) : Prop :=
  forall s, In E (observers (sig w s)) -> In s (dependencies (eff w E)).

(** Boolean versions of the two, checked over the allocated signals. *)
Definition observes_within_b (E : nat) (R : list nat) (w : World) : bool :=
  forallb (fun s => negb (set_has E (observers (sig w s))) || set_has s R)%bool
    (seq 0 (length (signals w))).

Definition edges_back_b (E : nat) (w : World) : bool :=
  forallb (fun s => negb (set_has E (observers (sig w s))) ||
                    set_has s (dependencies (eff w E)))%bool
    (seq 0 (length (signals w))).

(** What running creation-free user code under an open queue may do to the
    world: keep the bodies, the signal arena's size and the stack; only add
    observer edges, and only from the running effect to signals allowed by
    [Rd]; push onto the queue only observers of signals allowed by [Wr];
    set pending markers only by pushing, and never clear them. *)
Definition calm (Wr Rd : nat -> Prop) (w w' : World) : Prop :=
  fns w' = fns w /\ length (signals w') = length (signals w) /\
  runningEffects w' = runningEffects w /\
  (forall x s, In x (observers (sig w s)) -> In x (observers (sig w' s))) /\
  (forall x s, In x (observers (sig w' s)) ->
     In x (observers (sig w s)) \/ (getRunningEffect w = Some x /\ Rd s)) /\
  exists q r, Updates w = Some q /\ Updates w' = Some (q ++ r) /\
    enqueued w' = enqueued w ++ r /\ drained w' = drained w /\
    (forall x, In x r -> exists s, Wr s /\ In x (observers (sig w' s))) /\
    (forall x, state (eff w x) = true -> state (eff w' x) = true) /\
    (forall x, state (eff w' x) = true -> state (eff w x) = true \/ In x r).

(** [w'] has no observer edge that [w] lacks. *)
Definition obs_shrink (w w' : World) : Prop :=
  forall x s, In x (observers (sig w' s)) -> In x (observers (sig w s)).

(** What running user code under an open queue may do to the world, the
    effects it creates and runs included: keep the stack; keep every
    observer edge, and add new ones only from the running effect to
    signals allowed by [Rd], or from effects numbered [L] or above; keep
    the bodies of the existing effects, and give the new ones bodies that
    write only signals allowed by [Wr]; grow the arenas; push onto the
    queue only observers of signals allowed by [Wr] that were not pending
    (when numbered below [L]), set pending markers only by pushing, and
    never clear the marker of an effect numbered below [L]. *)
Definition steady (Wr Rd : nat -> Prop) (L : nat) (w w' : World) : Prop :=
  runningEffects w' = runningEffects w /\
  (forall x s, In x (observers (sig w s)) -> In x (observers (sig w' s))) /\
  (forall x s, In x (observers (sig w' s)) ->
     In x (observers (sig w s)) \/ (getRunningEffect w = Some x /\ Rd s) \/ L <= x) /\
  length (effects w) <= length (effects w') /\
  (forall x, x < length (effects w) -> fn (eff w' x) = fn (eff w x)) /\
  (forall x, length (effects w) <= x -> tame Wr (fun _ => True) (fn (eff w' x))) /\
  length (signals w) <= length (signals w') /\
  exists q r, Updates w = Some q /\ Updates w' = Some (q ++ r) /\
    enqueued w' = enqueued w ++ r /\ drained w' = drained w /\
    (forall x, In x r -> exists s, Wr s /\ In x (observers (sig w' s))) /\
    (forall x, In x r -> x < L -> state (eff w x) = false) /\
    (forall x, x < L -> state (eff w x) = true -> state (eff w' x) = true) /\
    (forall x, state (eff w' x) = true -> state (eff w x) = true \/ In x r).

(** [C] is pending, or no signal lists it: no write can push it. *)
Definition marked_or_cut (w : World) (C : nat) : Prop :=
  state (eff w C) = true \/ forall s, ~ In C (observers (sig w s)).

(** No effect carries the pending marker. *)
Definition no_pending (w : World) : Prop := forall x, state (eff w x) = false.

(** Under an open queue, [w'] extends [w]'s queue by [r], and every effect
    pending in [w'] was pending in [w] or was pushed. *)
Definition pushes_pending (w w' : World) : Prop :=
  exists q r, Updates w = Some q /\ Updates w' = Some (q ++ r) /\
    forall x, state (eff w' x) = true -> state (eff w x) = true \/ In x r.

(** The same for a run of effect [e], whose own marker [cleanup] clears. *)
Definition pushes_run (e : nat) (w w' : World) : Prop :=
  exists q r, Updates w = Some q /\ Updates w' = Some (q ++ r) /\
    forall x, state (eff w' x) = true -> (state (eff w x) = true /\ x <> e) \/ In x r.

(** The graph of signals and effects is consistent: every observer edge
    has its dependency edge back, and no [Set] holds an element twice. *)
Definition graph_ok (w : World) : Prop :=
  (forall s x, In x (observers (sig w s)) -> In s (dependencies (eff w x))) /\
  (forall s, NoDup (observers (sig w s))) /\
  (forall x, NoDup (dependencies (eff w x))).

(** The running effect, if any, is an allocated one. *)
Definition top_ok (w : World) : Prop :=
  forall e, getRunningEffect w = Some e -> e < length (effects w).

(** [w'] has a consistent graph and at least the effects of [w]. *)
Definition graph_grows (w w' : World) : Prop :=
  graph_ok w' /\ length (effects w) <= length (effects w').

(** Effect [x] is cut off from the graph: no signal lists it, it lists no
    signal, and it is not pending. *)
Definition detached (w : World) (x : nat) : Prop :=
  (forall s, ~ In x (observers (sig w s))) /\ dependencies (eff w x) = [] /\
  state (eff w x) = false.

(** The effects [e] owns, [[]] when its list is absent. *)
Definition children (w : World) (e : nat) : list nat :=
  match owned (eff w e) with Some l => l | None => [] end.

(** [x] is [e] or lies in the tree of effects [e] owns. *)
Inductive reaches (w : World) : nat -> nat -> Prop :=
| reaches_refl e : reaches w e e
| reaches_step e c x : In c (children w e) -> reaches w c x -> reaches w e x.

(** From [w] to [w'], the record of [x] and its observer edges survive. *)
Definition spared (x : nat) (w w' : World) : Prop :=
  eff w' x = eff w x /\ forall s, In x (observers (sig w s)) -> In x (observers (sig w' s)).

(** Boolean versions of [graph_ok] and [top_ok], checked over the
    allocated signals and effects. *)
Fixpoint nodup_b (l : list nat) : bool :=
  match l with
  | [] => true
  | a :: t => negb (set_has a t) && nodup_b t
  end.

Definition graph_ok_b (w : World) : bool :=
  forallb (fun s => nodup_b (observers (sig w s)) &&
                    forallb (fun x => set_has s (dependencies (eff w x))) (observers (sig w s)))
    (seq 0 (length (signals w))) &&
  forallb (fun x => nodup_b (dependencies (eff w x))) (seq 0 (length (effects w))).

Definition top_ok_b (w : World) : bool :=
  match getRunningEffect w with
  | Some e => Nat.ltb e (length (effects w))
  | None => true
  end.

(** [k] calls of a reader, then [c]. *)
Fixpoint read_n (s : nat) (k : nat) (c : cmd) : cmd :=
  match k with
  | O => c
  | S k => Read s (fun _ => read_n s k c)
  end.

(** An effect body that reads [s2] only when [b] holds of [s1]'s value:
    [() => { if (b(s1())) s2(); k }]. *)
Definition gated (s1 s2 : nat) (b : value -> bool) (k : cmd) : cmd :=
  Read s1 (fun v => if b v then Read s2 (fun _ => k) else k).

(** The final state of an outcome. *)
Definition world_of {A} (r : Res A) : World :=
  match r with
  | Done w _ => w
  | Raised w => w
  | OutOfFuel => init_world
  end.

(** The names [src/index.ts] exports. *)
Definition index_exports : list string :=
  ["createSignal"; "cleanup"; "createEffect"; "createMemo"; "batch"]%string.

(** ** Further scenarios *)

(** An effect whose body throws, created at top level. *)
Definition throwing_effect : cmd := NewEffect Throw (Ret None).

(** A signal observed by one counting effect, then written once. *)
Definition write_once : cmd :=
  NewSignal (Some 0%Z) (fun s =>
  NewEffect (Read s (fun _ => Tick 0 (Ret None)))
  (Write s (Some 1%Z) (Ret None))).

(** [const [c,setC]=signal(0); let n=0; effect(()=>{c(); n++;}); setC(5); setC(5);] *)
Definition same_value_writes : cmd :=
  NewSignal (Some 0%Z) (fun c =>
  NewEffect (Read c (fun _ => Tick 0 (Ret None)))
  (Write c (Some 5%Z) (Write c (Some 5%Z) (Ret None)))).

(** [v] is a value other than 0. *)
Definition nonzero (v : value) : bool :=
  match v with Some z => negb (Z.eqb z 0) | None => false end.

(** Effect [C] (index 0) reads [S] and [T]; effect [D] (index 1) reads [S]
    and, while [S] is not 0, writes [T]. *)
Definition two_paths_setup : cmd :=
  NewSignal (Some 0%Z) (fun s =>
  NewSignal (Some 0%Z) (fun t =>
  NewEffect (Read s (fun _ => Read t (fun _ => Tick 0 (Ret None))))
  (NewEffect (Read s (fun v => if nonzero v then Write t (Some 1%Z) (Ret None) else Ret None))
  (Ret None)))).

(** Effect [E] (index 0) reads [S1] and [S2]; effect [F] (index 1) reads
    [S1] and, while [S1] is not 0, writes [S2]. *)
Definition writer_setup : cmd :=
  NewSignal (Some 0%Z) (fun s1 =>
  NewSignal (Some 0%Z) (fun s2 =>
  NewEffect (Read s1 (fun _ => Read s2 (fun _ => Tick 0 (Ret None))))
  (NewEffect (Read s1 (fun v => if nonzero v then Write s2 (Some 7%Z) (Ret None) else Ret None))
  (Ret None)))).

(** A batch writing signals 0 and 1. *)
Definition batch_both : cmd :=
  Batch (Write 0 (Some 1%Z) (Write 1 (Some 2%Z) (Ret None))) (Ret None).

(** Effect [E] (index 0) reads signals 0 and 1, nothing else exists. *)
Definition lone_effect_setup : cmd :=
  NewSignal (Some 0%Z) (fun s1 =>
  NewSignal (Some 0%Z) (fun s2 =>
  NewEffect (Read s1 (fun _ => Read s2 (fun _ => Tick 0 (Ret None))))
  (Ret None))).

(** A memo over [S1] (signal 0) and [S2] (signal 1), backed by signal 2;
    effect [F] reads [S1] and, while [S1] is not 0, writes [S2]. *)
Definition memo_writer_setup : cmd :=
  NewSignal (Some 0%Z) (fun s1 =>
  NewSignal (Some 0%Z) (fun s2 =>
  NewMemo (Tick 0 (Read s1 (fun a => Read s2 (fun _ => Ret a))))
  (fun _ =>
  NewEffect (Read s1 (fun v => if nonzero v then Write s2 (Some 7%Z) (Ret None) else Ret None))
  (Ret None)))).

(** A memo read three times after its creation. *)
Definition memo_reads : cmd :=
  NewSignal (Some 0%Z) (fun s =>
  NewMemo (Tick 0 (Read s Ret)) (fun m => read_n m 3 (Ret None))).

(** A lone memo over signal 0 (memo effect 0, backing signal 1). *)
Definition lone_memo_setup : cmd :=
  NewSignal (Some 0%Z) (fun s =>
  NewMemo (Tick 0 (Read s Ret)) (fun _ => Ret None)).

(** The gated effect of [testEffectsScenarios.dynamicTracking] (index 0):
    it reads signal 1 only while signal 0 is above 5. *)
Definition above5 (v : value) : bool :=
  match v with Some z => Z.ltb 5 z | None => false end.

Definition gated_setup : cmd :=
  NewSignal (Some 0%Z) (fun s1 =>
  NewSignal (Some 0%Z) (fun s2 =>
  NewEffect (gated s1 s2 above5 (Tick 0 (Ret None)))
  (Ret None))).

(** The gated effect plus effect [F] (index 1) that reads signal 1 and
    writes 0 to signal 0. *)
Definition gated_writer_setup : cmd :=
  NewSignal (Some 0%Z) (fun s1 =>
  NewSignal (Some 0%Z) (fun s2 =>
  NewEffect (gated s1 s2 above5 (Tick 0 (Ret None)))
  (NewEffect (Read s2 (fun _ => Write s1 (Some 0%Z) (Ret None)))
  (Ret None)))).

(** A memo that always returns 0 (memo effect 0, backing signal 1) over
    signal 0, and an effect (index 1) that reads the memo. *)
Definition const_memo_setup : cmd :=
  NewSignal (Some 0%Z) (fun s =>
  NewMemo (Read s (fun _ => Ret (Some 0%Z))) (fun m =>
  NewEffect (Read m (fun _ => Tick 0 (Ret None)))
  (Ret None))).

(** A memo over signal 0 whose body creates an effect that reads the
    memo's own signal (1, given by its index) and counts its runs in
    counter 0. *)
Definition memo_child_setup : cmd :=
  NewSignal (Some 0%Z) (fun s =>
  NewMemo (Read s (fun v => NewEffect (Read 1 (fun _ => Tick 0 (Ret None))) (Ret v)))
    (fun _ => Ret None)).

Definition const_memo_writes : cmd :=
  Write 0 (Some 1%Z) (Write 0 (Some 2%Z) (Ret None)).

(** Worlds reached by the scenarios above. *)
Definition thrown_world : World := world_of (run_script 50 throwing_effect).
Definition running_world : World := with_running (world_of (run_script 100 write_once)) [0].
Definition same_value_world : World := world_of (run_script 100 same_value_writes).
Definition two_paths_world : World := world_of (run_script 200 two_paths_setup).
Definition writer_world : World := world_of (run_script 200 writer_setup).
Definition lone_world : World := world_of (run_script 200 lone_effect_setup).
Definition memo_writer_world : World := world_of (run_script 200 memo_writer_setup).
Definition lone_memo_world : World := world_of (run_script 200 lone_memo_setup).
Definition gated_world : World := world_of (run_script 200 gated_setup).
Definition gated_writer_world : World := world_of (run_script 200 gated_writer_setup).
Definition const_memo_world : World := world_of (run_script 200 const_memo_setup).
Definition memo_child_world : World := world_of (run_script 200 memo_child_setup).
Definition nested_world : World := world_of (run_script 200 effects_nested).
(** [two_paths_world] inside a cycle opened by a write to signal 0:
    effects 0 and 1 are pending and queued. *)
Definition two_paths_queued : World :=
  world_of (write (flushUpdates 10) 0 (Some 2%Z) (with_updates two_paths_world (Some []))).

(** ** General lemmas *)


Lemma holds_and_then {A B} (P Q : World -> Prop) (r : Res A) (k : World -> A -> Res B) :
  holds Q r -> (forall w, Q w -> P w) ->
  (forall w a, Q w -> holds P (k w a)) ->
  holds P (and_then r k).
Proof. destruct r; simpl; auto. Qed.

Lemma holds_runUpdates {A} (P Q : World -> Prop) fl (f : World -> Res A) w :
  (forall q, Updates w = Some q -> holds P (f w)) ->
  (Updates w = None ->
     holds Q (f (with_updates w (Some []))) /\ (forall w1, Q w1 -> P w1) /\
     (forall w1, Q w1 -> holds P (fl w1))) ->
  holds P (runUpdates fl f w).
Proof.
  intros HS HN. unfold runUpdates. destruct (Updates w) eqn:E.
  - apply holds_and_then with (Q := P); [eapply HS; eauto | auto | intros; exact H].
  - destruct (HN eq_refl) as (H1 & H2 & H3).
    apply holds_and_then with (Q := Q); auto.
Qed.


Lemma map_upd {A B} (g : A -> B) (f : A -> A) l i :
  (forall x, g (f x) = g x) -> map g (upd l i f) = map g l.
Proof.
  intros H. revert i; induction l as [|x l IH]; intros [|i]; simpl; auto.
  - rewrite H; reflexivity.
  - rewrite IH; reflexivity.
Qed.

Lemma length_upd {A} (f : A -> A) l i : length (upd l i f) = length l.
Proof. revert i; induction l; intros [|i]; simpl; auto. Qed.

Lemma nth_upd_eq {A} (f : A -> A) l i d :
  i < length l -> nth i (upd l i f) d = f (nth i l d).
Proof.
  revert i; induction l; intros [|i] H; simpl in *; try lia; auto.
  apply IHl; lia.
Qed.

Lemma nth_upd_neq {A} (f : A -> A) l i j d :
  i <> j -> nth j (upd l i f) d = nth j l d.
Proof.
  revert i j; induction l; intros [|i] [|j] H; simpl; auto; try congruence.
Qed.

Lemma nth_upd_out {A} (f : A -> A) l i j d :
  length l <= i -> nth j (upd l i f) d = nth j l d.
Proof.
  revert i j; induction l; intros [|i] [|j] H; simpl in *; auto; try lia.
  apply IHl; lia.
Qed.

Lemma fold_delete_frame e ds w :
  let w' := fold_left (fun w d => upd_signal w d (map_observers (set_delete e))) ds w in
  sched w' = sched w /\ effects w' = effects w /\ currents w' = currents w.
Proof.
  revert w; induction ds as [|d ds IH]; intros w; simpl; auto.
  destruct (IH (upd_signal w d (map_observers (set_delete e)))) as (H1 & H2 & H3).
  rewrite H1, H2, H3. repeat split.
  unfold currents; simpl. apply map_upd. reflexivity.
Qed.


Lemma cleanup_post_trans w1 w2 w3 :
  cleanup_post w1 w2 -> cleanup_post w2 w3 -> cleanup_post w1 w3.
Proof. unfold cleanup_post; intuition congruence. Qed.

Lemma cleanup_post_upd_effect w e f :
  (forall x, fn (f x) = fn x) -> cleanup_post w (upd_effect w e f).
Proof.
  intros H. unfold cleanup_post, fns, currents; simpl; repeat split.
  apply map_upd; auto.
Qed.

Lemma forEach_post (f : nat -> World -> Res unit) l w :
  (forall c w0, holds (cleanup_post w0) (f c w0) /\ (forall w', f c w0 <> Raised w')) ->
  holds (cleanup_post w) (forEach f l w) /\ (forall w', forEach f l w <> Raised w').
Proof.
  intros Hf. revert w; induction l as [|c l IH]; intros w; simpl.
  - split; [repeat split | discriminate].
  - destruct (Hf c w) as [H1 H2]. unfold and_then.
    destruct (f c w) as [w1 []| w1 |] eqn:E; simpl in *.
    + destruct (IH w1) as [H3 H4]. split; auto.
      destruct (forEach f l w1); simpl in *; eauto using cleanup_post_trans.
    + exfalso; eapply H2; reflexivity.
    + split; [exact I | discriminate].
Qed.

Lemma cleanup_frame n e w :
  holds (cleanup_post w) (cleanup n e w) /\ (forall w', cleanup n e w <> Raised w').
Proof.
  revert e w; induction n as [|n IH]; intros e w; simpl.
  - split; [exact I | discriminate].
  - destruct (fold_delete_frame e (dependencies (eff w e)) w) as (F1 & F2 & F3).
    set (w1 := fold_left _ _ w) in *.
    assert (P1 : cleanup_post w w1) by (unfold cleanup_post, fns; rewrite F1, F2, F3; auto).
    destruct (owned (eff w1 e)) as [l|]; simpl.
    + destruct (forEach_post (cleanup n) l w1 IH) as [G1 G2].
      destruct (forEach (cleanup n) l w1) as [w2 []| w2 |] eqn:E; simpl in *.
      * split; [|discriminate].
        eapply cleanup_post_trans; [exact P1|].
        eapply cleanup_post_trans; [exact G1|].
        eapply cleanup_post_trans; apply cleanup_post_upd_effect; auto.
      * exfalso; eapply G2; reflexivity.
      * split; [exact I | discriminate].
    + split; [|discriminate].
      eapply cleanup_post_trans; [exact P1|]. apply cleanup_post_upd_effect; auto.
Qed.

Arguments read : simpl never.
Arguments allocEffect : simpl never.
Arguments createSignal : simpl never.

(** *** The running stack is restored by every call, also by a raising one *)


Lemma same_running_tr (w w1 : World) {A} (r : Res A) :
  same_running w w1 -> holds (same_running w1) r -> holds (same_running w) r.
Proof. intros H1 H2. destruct r; simpl in *; unfold same_running in *; congruence. Qed.

Lemma schedule_running obs w : holds (same_running w) (schedule_observers obs w).
Proof.
  unfold same_running. revert w; induction obs as [|o obs IH]; intros w; simpl; auto.
  destruct (state (eff w o)); auto.
  destruct (Updates w) as [q|]; simpl; auto.
  pose proof (IH (push_update o q (upd_effect w o (set_state true)))) as H.
  destruct (schedule_observers _ _); simpl in *; auto.
Qed.

Lemma runUpdates_running {A} fl (f : World -> Res A) w :
  (forall w1, holds (same_running w1) (fl w1)) ->
  (forall w0, runningEffects w0 = runningEffects w -> holds (same_running w0) (f w0)) ->
  holds (same_running w) (runUpdates fl f w).
Proof.
  unfold same_running. intros Hfl Hf.
  apply holds_runUpdates with (Q := same_running w); unfold same_running.
  - intros q _. apply Hf; auto.
  - intros _. repeat split.
    + exact (Hf (with_updates w (Some [])) eq_refl).
    + auto.
    + intros w1 H1. specialize (Hfl w1). destruct (fl w1); simpl in *; congruence.
Qed.

Lemma write_running fl s v w :
  (forall w1, holds (same_running w1) (fl w1)) ->
  holds (same_running w) (write fl s v w).
Proof.
  intros Hfl. unfold write.
  destruct (observers (sig (upd_signal w s (set_current v)) s)) as [|o obs] eqn:E.
  - reflexivity.
  - rewrite <- E. eapply same_running_tr with (w1 := upd_signal w s (set_current v));
      [reflexivity|].
    apply runUpdates_running; auto. intros w0 _. apply schedule_running.
Qed.

Lemma read_running s w : runningEffects (fst (read s w)) = runningEffects w.
Proof. unfold read; destruct (getRunningEffect w); reflexivity. Qed.

Lemma allocEffect_running b w : runningEffects (fst (allocEffect b w)) = runningEffects w.
Proof. unfold allocEffect; destruct (getRunningEffect w); reflexivity. Qed.

Ltac chain_running :=
  match goal with
  | |- holds (same_running ?w) (and_then ?r ?k) =>
      apply holds_and_then with (Q := same_running w);
      [ | auto | intros ?w' ?a ?Hw'; unfold same_running in *;
              match goal with
              | |- holds _ ?r2 => idtac
              end ]
  end.

Lemma running_preserved n :
  (forall c w, holds (same_running w) (exec n c w)) /\
  (forall e w, holds (same_running w) (runEffect n e w)) /\
  (forall w, holds (same_running w) (flushUpdates n w)) /\
  (forall i w, holds (same_running w) (flushFrom n i w)).
Proof.
  induction n as [|n IH]; [repeat split; intros; exact I|].
  destruct IH as (IHe & IHr & IHf & IHff).
  pose proof same_running_tr as Tr.
  repeat split.
  - intros c w. destruct c as [v|s k|s v k|i k|body k|body k|body k|i k|]; cbn [exec].
    + reflexivity.
    + destruct (read s w) as [w1 v] eqn:E.
      eapply Tr; [|apply IHe]. unfold same_running.
      pose proof (read_running s w) as Hr; rewrite E in Hr; exact Hr.
    + apply holds_and_then with (Q := same_running w).
      * apply write_running; auto.
      * auto.
      * intros w1 _ H1. eapply Tr; [exact H1 | apply IHe].
    + destruct (createSignal i w) as [w1 s] eqn:Ec.
      eapply Tr; [|apply IHe]. unfold createSignal in Ec; inversion Ec; reflexivity.
    + destruct (allocEffect body w) as [w1 id] eqn:E.
      apply holds_and_then with (Q := same_running w).
      * eapply Tr; [|apply IHr]. unfold same_running.
        pose proof (allocEffect_running body w) as Hr; rewrite E in Hr; exact Hr.
      * auto.
      * intros w2 _ H2. eapply Tr; [exact H2 | apply IHe].
    + destruct (createSignal None w) as [w0 sid] eqn:Ec.
      destruct (allocEffect (memoBody body sid) w0) as [w1 id] eqn:E.
      apply holds_and_then with (Q := same_running w).
      * eapply Tr; [|apply IHr]. unfold same_running.
        pose proof (allocEffect_running (memoBody body sid) w0) as Hr; rewrite E in Hr.
        simpl in Hr. rewrite Hr. unfold createSignal in Ec. inversion Ec. reflexivity.
      * auto.
      * intros w2 _ H2. eapply Tr; [exact H2 | apply IHe].
    + apply holds_and_then with (Q := same_running w).
      * apply runUpdates_running; auto.
      * auto.
      * intros w2 _ H2. eapply Tr; [exact H2 | apply IHe].
    + eapply Tr; [|apply IHe]. reflexivity.
    + reflexivity.
  - intros e w. simpl.
    destruct (cleanup_frame n e w) as [C1 C2].
    destruct (cleanup n e w) as [w1 []| w1 |] eqn:E; simpl in *; auto;
      [|exfalso; eapply C2; reflexivity].
    assert (R1 : runningEffects w1 = runningEffects w) by
      (destruct C1 as [C _]; unfold sched in C; congruence).
    set (w2 := with_running w1 (e :: runningEffects w1)).
    assert (H : holds (same_running w2)
                  (runUpdates (flushUpdates n) (exec n (fn (eff w2 e))) w2)).
    { apply runUpdates_running; auto. }
    destruct (runUpdates _ _ w2) as [w3 u| w3 |]; simpl in H |- *; auto;
      unfold same_running in *; simpl; rewrite H; exact R1.
  - intros w. simpl. apply IHff.
  - intros i w. simpl. destruct (Updates w) as [q|]; simpl; [|reflexivity].
    destruct (_ || _)%bool; [reflexivity|].
    destruct (nth_error q i) as [e|]; [|apply IHff].
    apply holds_and_then with (Q := same_running w).
    + eapply Tr; [|apply IHr]. reflexivity.
    + auto.
    + intros w2 _ H2. eapply Tr; [exact H2 | apply IHff].
Qed.

(** *** While a queue is open, user code only appends to it *)


Lemma grows_refl w q : Updates w = Some q -> grows w w.
Proof. intros H. exists q, []. rewrite !app_nil_r. auto. Qed.

Lemma grows_trans w1 w2 w3 : grows w1 w2 -> grows w2 w3 -> grows w1 w3.
Proof.
  intros (q1 & r1 & A1 & B1 & C1 & D1) (q2 & r2 & A2 & B2 & C2 & D2).
  rewrite B1 in A2. injection A2 as <-.
  exists q1, (r1 ++ r2). rewrite B2, C2, C1, D2, D1, !app_assoc. auto.
Qed.

Lemma grows_same_sched w w' q :
  Updates w = Some q -> Updates w' = Updates w -> enqueued w' = enqueued w ->
  drained w' = drained w -> grows w w'.
Proof. intros H1 H2 H3 H4. exists q, []. rewrite app_nil_r, H2, H3, H4, app_nil_r; auto. Qed.

Lemma holds_grows_tr (w w1 : World) {A} (r : Res A) :
  grows w w1 -> holds (grows w1) r -> holds (grows w) r.
Proof. intros H1 H2. destruct r; simpl in *; eauto using grows_trans. Qed.

Lemma schedule_grows obs w q :
  Updates w = Some q -> holds (grows w) (schedule_observers obs w).
Proof.
  revert w q; induction obs as [|o obs IH]; intros w q Hq; simpl.
  - eapply grows_refl; eauto.
  - destruct (state (eff w o)); [eapply IH; eauto|].
    rewrite Hq.
    eapply holds_grows_tr; [|eapply IH; reflexivity].
    exists q, [o]; simpl; auto.
Qed.

Lemma write_grows fl s v w q :
  Updates w = Some q -> holds (grows w) (write fl s v w).
Proof.
  intros Hq. unfold write.
  destruct (observers (sig (upd_signal w s (set_current v)) s)) as [|o obs] eqn:E.
  - simpl. eapply grows_same_sched; eauto.
  - rewrite <- E. unfold runUpdates. simpl. rewrite Hq.
    pose proof (schedule_grows (observers (sig (upd_signal w s (set_current v)) s))
                  (upd_signal w s (set_current v)) q Hq) as H.
    destruct (schedule_observers _ _); simpl in *; auto.
Qed.

Lemma grows_updates w w' : grows w w' -> exists q, Updates w' = Some q.
Proof. intros (q & r & _ & H & _). eauto. Qed.

Lemma open_queue_grows n :
  (forall c w q, Updates w = Some q -> holds (grows w) (exec n c w)) /\
  (forall e w q, Updates w = Some q -> holds (grows w) (runEffect n e w)).
Proof.
  induction n as [|n [IHe IHr]]; [split; intros; exact I|].
  assert (Ke : forall c w1 w, grows w w1 -> holds (grows w) (exec n c w1)).
  { intros c w1 w H. destruct (grows_updates _ _ H) as [q1 Hq1].
    eapply holds_grows_tr; eauto. }
  split.
  - intros c w q Hq.
    destruct c as [v|s k|s v k|i k|body k|body k|body k|i k|]; cbn [exec].
    + simpl. eapply grows_refl; eauto.
    + destruct (read s w) as [w1 v] eqn:E. apply Ke.
      unfold read in E. injection E as <- _.
      destruct (getRunningEffect w); eapply grows_same_sched; eauto.
    + apply holds_and_then with (Q := grows w); [eapply write_grows; eauto | auto |].
      intros w1 _ H1. apply Ke; auto.
    + destruct (createSignal i w) as [w1 s] eqn:Ec. apply Ke.
      unfold createSignal in Ec; injection Ec as <- _. eapply grows_same_sched; eauto.
    + destruct (allocEffect body w) as [w1 id] eqn:Ea.
      assert (G : grows w w1).
      { unfold allocEffect in Ea. destruct (getRunningEffect w);
          injection Ea as <- _; eapply grows_same_sched; eauto. }
      apply holds_and_then with (Q := grows w).
      * destruct (grows_updates _ _ G) as [q1 Hq1]. eapply holds_grows_tr; eauto.
      * auto.
      * intros w2 _ H2. apply Ke; auto.
    + destruct (createSignal None w) as [w0 sid] eqn:Ec.
      destruct (allocEffect (memoBody body sid) w0) as [w1 id] eqn:Ea.
      assert (G : grows w w1).
      { unfold createSignal in Ec; injection Ec as <- _.
        unfold allocEffect in Ea. destruct (getRunningEffect _);
          injection Ea as <- _; eapply grows_same_sched; eauto. }
      apply holds_and_then with (Q := grows w).
      * destruct (grows_updates _ _ G) as [q1 Hq1]. eapply holds_grows_tr; eauto.
      * auto.
      * intros w2 _ H2. apply Ke; auto.
    + apply holds_and_then with (Q := grows w).
      * unfold runUpdates. rewrite Hq.
        apply holds_and_then with (Q := grows w); [eapply IHe; eauto | auto |].
        intros; simpl; auto.
      * auto.
      * intros w2 _ H2. apply Ke; auto.
    + apply Ke. eapply grows_same_sched; eauto.
    + simpl. eapply grows_refl; eauto.
  - intros e w q Hq. cbn [runEffect].
    destruct (cleanup_frame n e w) as [C1 C2].
    destruct (cleanup n e w) as [w1 []| w1 |] eqn:E; simpl in *; auto;
      [|exfalso; eapply C2; reflexivity].
    destruct C1 as [C _]. unfold sched in C. injection C as Cr Cu Cc Cd Ce.
    set (w2 := with_running w1 (e :: runningEffects w1)).
    assert (G : grows w w2) by (eapply grows_same_sched; eauto).
    assert (H : holds (grows w2) (runUpdates (flushUpdates n) (exec n (fn (eff w2 e))) w2)).
    { unfold runUpdates. simpl. rewrite Cu, Hq.
      apply holds_and_then with (Q := grows w2); [eapply IHe; simpl; rewrite Cu; eauto | auto |].
      intros; simpl; auto. }
    eapply holds_grows_tr in H; [|exact G].
    destruct (runUpdates _ _ w2) as [w3 u| w3 |]; simpl in H |- *; auto;
      destruct H as (q1 & r & H1 & H2 & H3 & H4); exists q1, r; simpl; auto.
Qed.

(** *** The drain runs exactly the pushed items, in push order *)

Lemma flushFrom_drains n i w q w' :
  Updates w = Some q -> i <= length q -> flushFrom n i w = Done w' tt ->
  exists r, Updates w' = None /\ enqueued w' = enqueued w ++ r /\
            drained w' = drained w ++ skipn i q ++ r.
Proof.
  revert i w q w'; induction n as [|n IH]; intros i w q w' Hq Hi Hf; [discriminate|].
  cbn [flushFrom] in Hf. rewrite Hq in Hf.
  destruct (Nat.eqb (length q) 0 || Nat.eqb i (length q))%bool eqn:Ec.
  - injection Hf as <-. exists [].
    assert (Hs : skipn i q = []).
    { apply orb_true_iff in Ec. destruct Ec as [Ec|Ec]; apply Nat.eqb_eq in Ec.
      - destruct q; [|discriminate]. apply skipn_nil.
      - subst i. apply skipn_all. }
    rewrite Hs. simpl. rewrite !app_nil_r. auto.
  - apply orb_false_iff in Ec. destruct Ec as [_ Ec]. apply Nat.eqb_neq in Ec.
    destruct (nth_error q i) as [e|] eqn:En.
    2:{ apply nth_error_None in En. lia. }
    pose proof (proj2 (open_queue_grows n) e (log_drained e w) q Hq) as G.
    destruct (runEffect n e (log_drained e w)) as [w1 []| w1 |]; simpl in Hf; try discriminate.
    simpl in G. destruct G as (q0 & r1 & G1 & G2 & G3 & G4).
    simpl in G1. rewrite Hq in G1. injection G1 as <-.
    destruct (IH (S i) w1 (q ++ r1) w' G2) as (r2 & H1 & H2 & H3);
      [rewrite length_app; lia | exact Hf |].
    exists (r1 ++ r2). split; [exact H1|]. split.
    + rewrite H2, G3. simpl. rewrite app_assoc. reflexivity.
    + rewrite H3, G4. unfold log_drained; cbn [drained].
      rewrite skipn_app. replace (S i - length q) with 0 by lia. simpl.
      assert (Hsk : skipn i q = e :: skipn (S i) q).
      { clear - En. revert i En; induction q as [|x q IHq]; intros [|i] En;
          simpl in *; try discriminate.
        - injection En as ->; reflexivity.
        - apply IHq; exact En. }
      rewrite Hsk. rewrite <- !app_assoc. reflexivity.
Qed.

(** An outermost [runUpdates] (no queue open) returns only after draining
    everything pushed during its cycle, in push order. *)
Lemma runUpdates_top {A} n (f : World -> Res A) w w' :
  Updates w = None ->
  holds (grows (with_updates w (Some []))) (f (with_updates w (Some []))) ->
  runUpdates (flushUpdates n) f w = Done w' tt ->
  exists d, Updates w' = None /\ enqueued w' = enqueued w ++ d /\
            drained w' = drained w ++ d.
Proof.
  intros Hn Hf Hr. unfold runUpdates in Hr. rewrite Hn in Hr.
  destruct (f (with_updates w (Some []))) as [w1 a| w1 |]; simpl in Hr, Hf; try discriminate.
  destruct Hf as (q & r0 & F1 & F2 & F3 & F4). simpl in F1. injection F1 as <-.
  destruct n as [|n]; [discriminate|]. cbn [flushUpdates] in Hr.
  destruct (flushFrom_drains n 0 w1 ([] ++ r0) w' F2 (Nat.le_0_l _) Hr) as (r & H1 & H2 & H3).
  exists (r0 ++ r). rewrite H2, H3, F3, F4. simpl. rewrite !app_assoc. auto.
Qed.

Lemma write_top n s v w w' :
  Updates w = None -> write (flushUpdates n) s v w = Done w' tt ->
  exists d, Updates w' = None /\ enqueued w' = enqueued w ++ d /\
            drained w' = drained w ++ d.
Proof.
  intros Hn Hw. unfold write in Hw.
  destruct (observers (sig (upd_signal w s (set_current v)) s)) as [|o obs] eqn:E.
  - injection Hw as <-. exists []. rewrite !app_nil_r. auto.
  - rewrite <- E in Hw. eapply runUpdates_top in Hw; [exact Hw | exact Hn |].
    eapply schedule_grows. reflexivity.
Qed.

(** *** Reading the arenas after an update *)

Lemma eff_upd_eq w e f : e < length (effects w) -> eff (upd_effect w e f) e = f (eff w e).
Proof. intros H. unfold eff, upd_effect, with_effects; simpl. apply nth_upd_eq; auto. Qed.

Lemma eff_upd_neq w e f x : e <> x -> eff (upd_effect w e f) x = eff w x.
Proof. intros H. unfold eff, upd_effect, with_effects; simpl. apply nth_upd_neq; auto. Qed.

Lemma sig_upd_eq w s f : s < length (signals w) -> sig (upd_signal w s f) s = f (sig w s).
Proof. intros H. unfold sig, upd_signal, with_signals; simpl. apply nth_upd_eq; auto. Qed.

Lemma sig_upd_neq w s f x : s <> x -> sig (upd_signal w s f) x = sig w x.
Proof. intros H. unfold sig, upd_signal, with_signals; simpl. apply nth_upd_neq; auto. Qed.

Lemma length_upd_effect w e f : length (effects (upd_effect w e f)) = length (effects w).
Proof. apply length_upd. Qed.

Lemma length_upd_signal w s f : length (signals (upd_signal w s f)) = length (signals w).
Proof. apply length_upd. Qed.

(** *** What one [write] schedules *)

Lemma schedule_spec obs w q :
  Updates w = Some q -> NoDup obs -> (forall o, In o obs -> o < length (effects w)) ->
  exists w', schedule_observers obs w = Done w' tt /\
    signals w' = signals w /\ length (effects w') = length (effects w) /\
    (forall x, fn (eff w' x) = fn (eff w x)) /\
    Updates w' = Some (q ++ filter (fun o => negb (state (eff w o))) obs) /\
    enqueued w' = enqueued w ++ filter (fun o => negb (state (eff w o))) obs /\
    (forall x, In x obs -> state (eff w' x) = true) /\
    (forall x, ~ In x obs -> state (eff w' x) = state (eff w x)).
Proof.
  revert w q; induction obs as [|o obs IH]; intros w q Hq Hnd Hv; simpl.
  - exists w. rewrite !app_nil_r. repeat split; auto; intros x [].
  - inversion Hnd as [|? ? Hno Hnd']; subst.
    destruct (state (eff w o)) eqn:Eo.
    + destruct (IH w q Hq Hnd' (fun x H => Hv x (or_intror H)))
        as (w' & H1 & H2 & H3 & H4 & H5 & H6 & H7 & H8).
      exists w'. repeat split; auto.
      all: first [ intros x [<-|Hx]; auto; rewrite H8; auto | intros x Hx; apply H8; intuition ].
    + set (w1 := push_update o q (upd_effect w o (set_state true))).
      assert (Vo : o < length (effects w)) by (apply Hv; left; auto).
      assert (S1 : forall x, x <> o -> eff w1 x = eff w x).
      { intros x Hx. change (eff w1 x) with (eff (upd_effect w o (set_state true)) x).
        apply eff_upd_neq. auto. }
      assert (S2 : state (eff w1 o) = true).
      { change (eff w1 o) with (eff (upd_effect w o (set_state true)) o).
        rewrite eff_upd_eq; auto. }
      assert (L1 : length (effects w1) = length (effects w)) by apply length_upd.
      destruct (IH w1 (q ++ [o]) eq_refl Hnd')
        as (w' & H1 & H2 & H3 & H4 & H5 & H6 & H7 & H8);
        [intros x Hx; rewrite L1; apply Hv; right; auto |].
      assert (F : filter (fun o0 => negb (state (eff w1 o0))) obs =
                  filter (fun o0 => negb (state (eff w o0))) obs).
      { apply filter_ext_in. intros x Hx. rewrite S1; auto. intros ->; contradiction. }
      rewrite F in H5, H6.
      rewrite Hq. exists w'. split; [exact H1|]. split; [rewrite H2; reflexivity|].
      split; [rewrite H3; apply length_upd|].
      split.
      { intros x. rewrite H4. destruct (Nat.eq_dec x o) as [->|Hx].
        - change (eff w1 o) with (eff (upd_effect w o (set_state true)) o).
          rewrite eff_upd_eq; auto.
        - rewrite S1; auto. }
      split; [rewrite H5, <- app_assoc; try reflexivity|].
      split; [rewrite H6; unfold w1, push_update; simpl; rewrite <- app_assoc; try reflexivity|].
      split.
      { intros x [<-|Hx]; auto. rewrite H8; auto. }
      { intros x Hx. rewrite H8 by intuition. rewrite S1; auto; intros ->; intuition. }
Qed.

(** *** Set and arena facts *)

Lemma In_set_add x e l : In x (set_add e l) <-> In x l \/ x = e.
Proof.
  unfold set_add, set_has. destruct (existsb (Nat.eqb e) l) eqn:H.
  - split; [auto|]. intros [H1| ->]; auto.
    apply existsb_exists in H. destruct H as (y & Hy & Hq).
    apply Nat.eqb_eq in Hq. subst; auto.
  - rewrite in_app_iff. simpl. intuition.
Qed.

Lemma In_set_delete x e l : In x (set_delete e l) <-> In x l /\ x <> e.
Proof.
  unfold set_delete. rewrite filter_In. rewrite negb_true_iff, Nat.eqb_neq. tauto.
Qed.

Lemma set_has_In x l : set_has x l = true <-> In x l.
Proof.
  unfold set_has. rewrite existsb_exists. split.
  - intros (y & Hy & Hq). apply Nat.eqb_eq in Hq. subst; auto.
  - intros H. exists x. rewrite Nat.eqb_refl. auto.
Qed.

Lemma sig_upd w d f s :
  sig (upd_signal w d f) s =
  if (Nat.eqb s d && Nat.ltb d (length (signals w)))%bool then f (sig w s) else sig w s.
Proof.
  destruct (Nat.eqb_spec s d) as [->|Hn]; simpl.
  - destruct (Nat.ltb_spec d (length (signals w))).
    + apply sig_upd_eq; auto.
    + unfold sig, upd_signal, with_signals; simpl. apply nth_upd_out; auto.
  - apply sig_upd_neq; auto.
Qed.

Lemma eff_upd w d f x :
  eff (upd_effect w d f) x =
  if (Nat.eqb x d && Nat.ltb d (length (effects w)))%bool then f (eff w x) else eff w x.
Proof.
  destruct (Nat.eqb_spec x d) as [->|Hn]; simpl.
  - destruct (Nat.ltb_spec d (length (effects w))).
    + apply eff_upd_eq; auto.
    + unfold eff, upd_effect, with_effects; simpl. apply nth_upd_out; auto.
  - apply eff_upd_neq; auto.
Qed.

Lemma fn_eff_fns w w' x : fns w' = fns w -> fn (eff w' x) = fn (eff w x).
Proof.
  intros H. unfold eff.
  rewrite <- !(map_nth fn). fold (fns w'). fold (fns w). rewrite H. reflexivity.
Qed.

Lemma fns_length w w' : fns w' = fns w -> length (effects w') = length (effects w).
Proof. intros H. unfold fns in H. rewrite <- (length_map fn), H, length_map. reflexivity. Qed.

Lemma obs_set_current w s v x :
  observers (sig (upd_signal w s (set_current v)) x) = observers (sig w x).
Proof. rewrite sig_upd. destruct (_ && _)%bool; reflexivity. Qed.

Lemma fns_upd_effect w e f : (forall y, fn (f y) = fn y) -> fns (upd_effect w e f) = fns w.
Proof. intros H. unfold fns; simpl. apply map_upd; auto. Qed.

(** *** Scheduling under an open queue *)

Lemma schedule_open obs w q :
  Updates w = Some q ->
  exists w' r, schedule_observers obs w = Done w' tt /\
    signals w' = signals w /\ fns w' = fns w /\ runningEffects w' = runningEffects w /\
    Updates w' = Some (q ++ r) /\ enqueued w' = enqueued w ++ r /\
    drained w' = drained w /\ counters w' = counters w /\
    (forall x, In x r -> In x obs) /\
    (forall x, state (eff w x) = true -> state (eff w' x) = true) /\
    (forall x, state (eff w' x) = true -> state (eff w x) = true \/ In x r).
Proof.
  revert w q; induction obs as [|o obs IH]; intros w q Hq; simpl.
  - exists w, []. rewrite !app_nil_r. repeat split; auto; intros x [].
  - destruct (state (eff w o)) eqn:Eo.
    + destruct (IH w q Hq) as (w' & r & H1 & H2 & H3 & H4 & H5 & H6 & H7 & H8 & H9 & H10 & H11).
      exists w', r. repeat split; auto; intros x Hx; right; auto.
    + rewrite Hq.
      set (w1 := push_update o q (upd_effect w o (set_state true))).
      destruct (IH w1 (q ++ [o]) eq_refl)
        as (w' & r & H1 & H2 & H3 & H4 & H5 & H6 & H7 & H8 & H9 & H10 & H11).
      exists w', (o :: r). split; [exact H1|].
      split; [rewrite H2; reflexivity|].
      split; [rewrite H3; apply fns_upd_effect; reflexivity|].
      split; [rewrite H4; reflexivity|].
      split; [rewrite H5, <- app_assoc; reflexivity|].
      split; [rewrite H6; unfold w1, push_update; simpl; rewrite <- app_assoc; reflexivity|].
      split; [rewrite H7; reflexivity|].
      split; [rewrite H8; reflexivity|].
      split; [intros x [<-|Hx]; auto|].
      split.
      * intros x Hx. apply H10. unfold w1.
        change (eff (push_update o q (upd_effect w o (set_state true))) x)
          with (eff (upd_effect w o (set_state true)) x).
        rewrite eff_upd. destruct (_ && _)%bool; auto.
      * intros x Hx. destruct (H11 x Hx) as [Hy|Hy]; [|right; right; auto].
        unfold w1 in Hy.
        change (eff (push_update o q (upd_effect w o (set_state true))) x)
          with (eff (upd_effect w o (set_state true)) x) in Hy.
        rewrite eff_upd in Hy.
        destruct (Nat.eqb_spec x o) as [->|Hn]; [right; left; auto|].
        simpl in Hy. left; auto.
Qed.

(** How often one [write]'s scheduling pushes a given effect [E]. *)
Lemma schedule_E obs w q E :
  Updates w = Some q -> E < length (effects w) ->
  exists w' r, schedule_observers obs w = Done w' tt /\
    signals w' = signals w /\ fns w' = fns w /\ runningEffects w' = runningEffects w /\
    Updates w' = Some (q ++ r) /\ enqueued w' = enqueued w ++ r /\
    drained w' = drained w /\
    count_occ Nat.eq_dec r E =
      (if state (eff w E) then 0 else if set_has E obs then 1 else 0) /\
    state (eff w' E) = (state (eff w E) || set_has E obs)%bool.
Proof.
  revert w q; induction obs as [|o obs IH]; intros w q Hq HE; simpl.
  - exists w, []. rewrite !app_nil_r. destruct (state (eff w E)); repeat split; auto.
  - unfold set_has in *. simpl.
    destruct (state (eff w o)) eqn:Eo.
    + destruct (IH w q Hq HE) as (w' & r & H1 & H2 & H3 & H4 & H5 & H6 & H7 & H8 & H9).
      exists w', r. repeat split; auto.
      * rewrite H8. destruct (Nat.eqb_spec E o) as [->|]; simpl; [rewrite Eo|]; auto.
      * rewrite H9. destruct (Nat.eqb_spec E o) as [->|]; simpl; [rewrite Eo|]; auto.
    + rewrite Hq.
      set (w1 := push_update o q (upd_effect w o (set_state true))).
      assert (L1 : length (effects w1) = length (effects w)) by apply length_upd.
      destruct (IH w1 (q ++ [o]) eq_refl) as (w' & r & H1 & H2 & H3 & H4 & H5 & H6 & H7 & H8 & H9);
        [rewrite L1; auto|].
      assert (Hs : state (eff w1 E) = if Nat.eqb E o then true else state (eff w E)).
      { unfold w1.
        change (eff (push_update o q (upd_effect w o (set_state true))) E)
          with (eff (upd_effect w o (set_state true)) E).
        rewrite eff_upd. destruct (Nat.eqb_spec E o) as [->|]; simpl; auto.
        destruct (Nat.ltb_spec o (length (effects w))); simpl; auto. lia. }
      exists w', (o :: r). split; [exact H1|].
      split; [rewrite H2; reflexivity|].
      split; [rewrite H3; apply fns_upd_effect; reflexivity|].
      split; [rewrite H4; reflexivity|].
      split; [rewrite H5, <- app_assoc; reflexivity|].
      split; [rewrite H6; unfold w1, push_update; simpl; rewrite <- app_assoc; reflexivity|].
      split; [rewrite H7; reflexivity|].
      rewrite Hs in H8, H9. simpl.
      destruct (Nat.eq_dec o E) as [->|Hn].
      * rewrite Nat.eqb_refl in *. rewrite Eo. simpl. rewrite H8. auto.
      * apply not_eq_sym in Hn. apply Nat.eqb_neq in Hn as Hb. rewrite Hb in *. simpl. auto.
Qed.

(** *** Creation-free user code under an open queue *)

Lemma obs_track e s w x :
  observers (sig (trackEffectDependency e s w) x) =
  if (Nat.eqb x s && Nat.ltb s (length (signals w)))%bool
  then set_add e (observers (sig w x)) else observers (sig w x).
Proof.
  unfold trackEffectDependency.
  change (sig (upd_effect (upd_signal w s (map_observers (set_add e))) e (map_deps (set_add s))) x)
    with (sig (upd_signal w s (map_observers (set_add e))) x).
  rewrite sig_upd. destruct (_ && _)%bool; reflexivity.
Qed.

Lemma state_track e s w x : state (eff (trackEffectDependency e s w) x) = state (eff w x).
Proof.
  unfold trackEffectDependency. rewrite eff_upd. destruct (_ && _)%bool; reflexivity.
Qed.

Lemma fns_track e s w : fns (trackEffectDependency e s w) = fns w.
Proof. unfold trackEffectDependency. rewrite fns_upd_effect; reflexivity. Qed.

Lemma current_track e s w x : current (sig (trackEffectDependency e s w) x) = current (sig w x).
Proof.
  unfold trackEffectDependency.
  change (sig (upd_effect (upd_signal w s (map_observers (set_add e))) e (map_deps (set_add s))) x)
    with (sig (upd_signal w s (map_observers (set_add e))) x).
  rewrite sig_upd. destruct (_ && _)%bool; reflexivity.
Qed.

Lemma calm_refl Wr Rd w q : Updates w = Some q -> calm Wr Rd w w.
Proof.
  intros Hq. split; [reflexivity|]. split; [reflexivity|]. split; [reflexivity|].
  split; [auto|]. split; [auto|].
  exists q, []. rewrite app_nil_r. split; [auto|]. split; [auto|].
  split; [rewrite app_nil_r; auto|]. split; [auto|].
  split; [intros x []|]. split; auto.
Qed.

Lemma calm_trans Wr Rd w1 w2 w3 : calm Wr Rd w1 w2 -> calm Wr Rd w2 w3 -> calm Wr Rd w1 w3.
Proof.
  intros (A1 & B1 & C1 & D1 & E1 & q1 & r1 & F1 & G1 & H1 & I1 & J1 & K1 & L1)
         (A2 & B2 & C2 & D2 & E2 & q2 & r2 & F2 & G2 & H2 & I2 & J2 & K2 & L2).
  rewrite G1 in F2. injection F2 as <-.
  split; [congruence|]. split; [congruence|]. split; [congruence|].
  split; [auto|].
  split.
  { intros x s Hx. destruct (E2 x s Hx) as [Hy|[Hy Hz]].
    - auto.
    - right. unfold getRunningEffect in *. rewrite C1 in Hy. auto. }
  exists q1, (r1 ++ r2). rewrite G2, H2, H1, I2, I1, !app_assoc.
  repeat split; auto.
  - intros x Hx. apply in_app_iff in Hx. destruct Hx as [Hx|Hx]; auto.
    destruct (J1 x Hx) as (s & Hs & Ho). eauto.
  - intros x Hx. destruct (L2 x Hx) as [Hy|Hy].
    + destruct (L1 x Hy); auto. right; apply in_app_iff; auto.
    + right; apply in_app_iff; auto.
Qed.

Lemma holds_calm_tr Wr Rd (w w1 : World) {A} (r : Res A) :
  calm Wr Rd w w1 -> holds (calm Wr Rd w1) r -> holds (calm Wr Rd w) r.
Proof. intros H1 H2. destruct r; simpl in *; eauto using calm_trans. Qed.

Lemma calm_updates Wr Rd w w' : calm Wr Rd w w' -> exists q, Updates w' = Some q.
Proof. intros (_ & _ & _ & _ & _ & q & r & _ & H & _). eauto. Qed.

Lemma calm_read Wr Rd s w q :
  Updates w = Some q -> Rd s -> calm Wr Rd w (fst (read s w)).
Proof.
  intros Hq Hs. unfold read. destruct (getRunningEffect w) as [e|] eqn:Ht; simpl;
    [|eapply calm_refl; eauto].
  split; [apply fns_track|].
  split; [apply length_upd|].
  split; [reflexivity|].
  split.
  { intros x s' Hx. rewrite obs_track. destruct (_ && _)%bool; auto.
    apply In_set_add; auto. }
  split.
  { intros x s' Hx. rewrite obs_track in Hx.
    destruct (Nat.eqb s' s) eqn:Eq; destruct (Nat.ltb s _); simpl in Hx; auto.
    apply Nat.eqb_eq in Eq. subst s'.
    apply In_set_add in Hx. destruct Hx as [Hx|Hx]; auto. subst x. auto. }
  exists q, []. rewrite app_nil_r. split; [auto|]. split; [auto|].
  split; [rewrite app_nil_r; auto|]. split; [auto|].
  split; [intros x []|].
  split; intros x; rewrite state_track; auto.
Qed.

Lemma calm_write Wr Rd fl s v w q :
  Updates w = Some q -> Wr s ->
  exists w', write fl s v w = Done w' tt /\ calm Wr Rd w w'.
Proof.
  intros Hq Hs. unfold write.
  set (w1 := upd_signal w s (set_current v)).
  assert (Ho : forall x, observers (sig w1 x) = observers (sig w x)) by apply obs_set_current.
  destruct (observers (sig w1 s)) as [|o obs] eqn:E.
  - exists w1. split; [reflexivity|].
    split; [reflexivity|]. split; [apply length_upd|]. split; [reflexivity|].
    split; [intros x s' Hx; rewrite Ho; auto|].
    split; [intros x s' Hx; rewrite Ho in Hx; auto|].
    exists q, []. rewrite app_nil_r. split; [auto|]. split; [auto|].
    split; [rewrite app_nil_r; auto|]. split; [auto|].
    split; [intros x []|]. split; auto.
  - rewrite <- E. unfold runUpdates. change (Updates w1) with (Updates w). rewrite Hq.
    destruct (schedule_open (observers (sig w1 s)) w1 q Hq)
      as (w' & r & H1 & H2 & H3 & H4 & H5 & H6 & H7 & H8 & H9 & H10 & H11).
    rewrite H1. exists w'. split; [reflexivity|].
    assert (Ho' : forall x, observers (sig w' x) = observers (sig w x)).
    { intros x. unfold sig. rewrite H2. apply Ho. }
    split; [rewrite H3; reflexivity|]. split; [rewrite H2; apply length_upd|].
    split; [rewrite H4; reflexivity|].
    split; [intros x s' Hx; rewrite Ho'; auto|].
    split; [intros x s' Hx; rewrite Ho' in Hx; auto|].
    exists q, r. repeat split; auto.
    intros x Hx. exists s. split; auto. rewrite Ho', <- Ho. auto.
Qed.

Lemma calm_tick Wr Rd c w q : Updates w = Some q -> calm Wr Rd w (tick c w).
Proof. intros Hq. exact (calm_refl Wr Rd w q Hq). Qed.

(** *** Arena growth *)

Lemma eff_alloc w a x :
  eff (with_effects w (fun l => l ++ [a])) x =
  if Nat.ltb x (length (effects w)) then eff w x
  else if Nat.eqb x (length (effects w)) then a else dummy_effect.
Proof.
  unfold eff; simpl. destruct (Nat.ltb_spec x (length (effects w))).
  - apply app_nth1; auto.
  - rewrite app_nth2 by lia. destruct (Nat.eqb_spec x (length (effects w))) as [->|Hn].
    + rewrite Nat.sub_diag. reflexivity.
    + destruct (x - length (effects w)) as [|[|k]] eqn:Ek; [lia|reflexivity|reflexivity].
Qed.

Lemma sig_alloc w a s :
  sig (with_signals w (fun l => l ++ [a])) s =
  if Nat.ltb s (length (signals w)) then sig w s
  else if Nat.eqb s (length (signals w)) then a else dummy_signal.
Proof.
  unfold sig; simpl. destruct (Nat.ltb_spec s (length (signals w))).
  - apply app_nth1; auto.
  - rewrite app_nth2 by lia. destruct (Nat.eqb_spec s (length (signals w))) as [->|Hn].
    + rewrite Nat.sub_diag. reflexivity.
    + destruct (s - length (signals w)) as [|[|k]] eqn:Ek; [lia|reflexivity|reflexivity].
Qed.

Lemma alloc_state b w x : state (eff (fst (allocEffect b w)) x) = state (eff w x).
Proof.
  assert (H : state (eff (with_effects w (fun l => l ++ [mkEffect b [] (getRunningEffect w) None false])) x)
              = state (eff w x)).
  { rewrite eff_alloc. destruct (Nat.ltb_spec x (length (effects w))); auto.
    unfold eff. rewrite nth_overflow by lia.
    destruct (Nat.eqb x _); reflexivity. }
  unfold allocEffect. destruct (getRunningEffect w) as [p|]; simpl; auto.
  rewrite eff_upd. destruct (_ && _)%bool; simpl; auto.
Qed.

Lemma alloc_frame b w :
  Updates (fst (allocEffect b w)) = Updates w /\
  runningEffects (fst (allocEffect b w)) = runningEffects w /\
  signals (fst (allocEffect b w)) = signals w /\
  counters (fst (allocEffect b w)) = counters w /\
  drained (fst (allocEffect b w)) = drained w /\
  enqueued (fst (allocEffect b w)) = enqueued w /\
  length (effects (fst (allocEffect b w))) = S (length (effects w)) /\
  snd (allocEffect b w) = length (effects w).
Proof.
  unfold allocEffect. destruct (getRunningEffect w); simpl;
    rewrite ?length_upd, length_app; simpl; repeat split; lia.
Qed.

Lemma read_state s w x : state (eff (fst (read s w)) x) = state (eff w x).
Proof. unfold read. destruct (getRunningEffect w); simpl; auto. apply state_track. Qed.

(** *** User code under an open queue, creations included *)

Lemma sig_out w s : length (signals w) <= s -> sig w s = dummy_signal.
Proof. intros H. unfold sig. apply nth_overflow; auto. Qed.

Lemma eff_out w x : length (effects w) <= x -> eff w x = dummy_effect.
Proof. intros H. unfold eff. apply nth_overflow; auto. Qed.


Lemma tame_mono Wr Rd Rd' c : tame Wr Rd c -> (forall s, Rd s -> Rd' s) -> tame Wr Rd' c.
Proof.
  intros H. revert Rd'. induction H; intros Rd' Hr; constructor; auto.
Qed.

Lemma tame_any c : tame (fun _ => True) (fun _ => True) c.
Proof. induction c; constructor; auto. Qed.

Lemma tame_bind_intro Wr Rd c f :
  tame Wr Rd c -> (forall v, tame Wr Rd (f v)) -> tame Wr Rd (bind c f).
Proof. intros H. induction H; intros Hf; simpl; try constructor; auto. Qed.

Lemma fn_out w x : length (effects w) <= x -> fn (eff w x) = Ret None.
Proof. intros H. unfold eff. rewrite nth_overflow by exact H. reflexivity. Qed.

Lemma alloc_fn b w x :
  fn (eff (fst (allocEffect b w)) x) =
  if Nat.ltb x (length (effects w)) then fn (eff w x)
  else if Nat.eqb x (length (effects w)) then b else Ret None.
Proof.
  assert (H : forall o, fn (eff (with_effects w (fun l => l ++ [mkEffect b [] o None false])) x) =
    if Nat.ltb x (length (effects w)) then fn (eff w x)
    else if Nat.eqb x (length (effects w)) then b else Ret None).
  { intros o. rewrite eff_alloc. destruct (Nat.ltb x _); [reflexivity|].
    destruct (Nat.eqb x _); reflexivity. }
  unfold allocEffect. destruct (getRunningEffect w) as [p|]; simpl; [|apply H].
  rewrite eff_upd. destruct (_ && _)%bool; simpl; apply H.
Qed.

Lemma alloc_new b w :
  top_ok w ->
  eff (fst (allocEffect b w)) (length (effects w)) =
    mkEffect b [] (getRunningEffect w) None false.
Proof.
  intros Ht. unfold allocEffect. destruct (getRunningEffect w) as [p|] eqn:Hp; simpl.
  - specialize (Ht p Hp). rewrite eff_upd_neq by lia.
    rewrite eff_alloc, Nat.ltb_irrefl, Nat.eqb_refl. reflexivity.
  - rewrite eff_alloc, Nat.ltb_irrefl, Nat.eqb_refl. reflexivity.
Qed.

Lemma cleanup_fresh n e w :
  dependencies (eff w e) = [] -> owned (eff w e) = None ->
  cleanup (S n) e w =
    Done (upd_effect w e (fun x => map_deps (fun _ => []) (set_state false x))) tt.
Proof. intros Hd Ho. cbn [cleanup]. rewrite Hd. cbn [fold_left]. rewrite Ho. reflexivity. Qed.

Lemma schedule_unmarked obs w q :
  Updates w = Some q ->
  exists w' r, schedule_observers obs w = Done w' tt /\ enqueued w' = enqueued w ++ r /\
    forall x, In x r -> state (eff w x) = false.
Proof.
  revert w q; induction obs as [|o obs IH]; intros w q Hq; simpl.
  - exists w, []. rewrite app_nil_r. split; [reflexivity|]. split; [reflexivity|]. intros x [].
  - destruct (state (eff w o)) eqn:Eo.
    + exact (IH w q Hq).
    + rewrite Hq.
      set (w1 := push_update o q (upd_effect w o (set_state true))).
      destruct (IH w1 (q ++ [o]) eq_refl) as (w' & r & H1 & H2 & H3).
      exists w', (o :: r). split; [exact H1|].
      split; [rewrite H2; unfold w1, push_update; simpl; rewrite <- app_assoc; reflexivity|].
      intros x [<-|Hx]; [exact Eo|].
      specialize (H3 x Hx). unfold w1 in H3.
      change (eff (push_update o q (upd_effect w o (set_state true))) x)
        with (eff (upd_effect w o (set_state true)) x) in H3.
      rewrite eff_upd in H3. destruct (_ && _)%bool; [discriminate|exact H3].
Qed.

Lemma steady_refl Wr Rd L w q : Updates w = Some q -> steady Wr Rd L w w.
Proof.
  intros Hq. split; [reflexivity|]. split; [auto|]. split; [auto|].
  split; [lia|]. split; [auto|].
  split; [intros x Hx; rewrite fn_out by exact Hx; constructor|].
  split; [lia|].
  exists q, []. rewrite !app_nil_r.
  split; [exact Hq|]. split; [exact Hq|]. split; [reflexivity|]. split; [reflexivity|].
  split; [intros x []|]. split; [intros x []|]. split; auto.
Qed.

Lemma steady_trans Wr Rd L w1 w2 w3 :
  steady Wr Rd L w1 w2 -> steady Wr Rd L w2 w3 -> steady Wr Rd L w1 w3.
Proof.
  intros (A1 & B1 & C1 & D1 & E1 & F1 & G1 & q1 & r1 & H1 & I1 & J1 & K1 & M1 & N1 & O1 & P1)
         (A2 & B2 & C2 & D2 & E2 & F2 & G2 & q2 & r2 & H2 & I2 & J2 & K2 & M2 & N2 & O2 & P2).
  rewrite I1 in H2. injection H2 as <-.
  split; [congruence|]. split; [auto|].
  split.
  { intros x s Hx. destruct (C2 x s Hx) as [Hy|[[Hy Hz]|Hy]].
    - exact (C1 x s Hy).
    - right; left. unfold getRunningEffect in *. rewrite A1 in Hy. auto.
    - right; right; exact Hy. }
  split; [lia|].
  split; [intros x Hx; rewrite E2 by lia; auto|].
  split.
  { intros x Hx. destruct (Nat.lt_ge_cases x (length (effects w2))) as [Hl|Hl].
    - rewrite E2 by exact Hl. auto.
    - auto. }
  split; [lia|].
  exists q1, (r1 ++ r2). rewrite I2, J2, J1, K2, K1, !app_assoc.
  split; [exact H1|]. split; [reflexivity|]. split; [reflexivity|]. split; [reflexivity|].
  split.
  { intros x Hx. apply in_app_iff in Hx. destruct Hx as [Hx|Hx]; auto.
    destruct (M1 x Hx) as (s & Hs & Ho). exists s. auto. }
  split.
  { intros x Hx HL. apply in_app_iff in Hx. destruct Hx as [Hx|Hx]; auto.
    destruct (state (eff w1 x)) eqn:Es; [|reflexivity].
    pose proof (O1 x HL Es) as Hy. rewrite (N2 x Hx HL) in Hy. discriminate. }
  split; [auto|].
  intros x Hx. destruct (P2 x Hx) as [Hy|Hy].
  - destruct (P1 x Hy); auto. right; apply in_app_iff; auto.
  - right; apply in_app_iff; auto.
Qed.

Lemma holds_steady_tr Wr Rd L (w w1 : World) {A} (r : Res A) :
  steady Wr Rd L w w1 -> holds (steady Wr Rd L w1) r -> holds (steady Wr Rd L w) r.
Proof. intros H1 H2. destruct r; simpl in *; eauto using steady_trans. Qed.

Lemma steady_updates Wr Rd L w w' : steady Wr Rd L w w' -> exists q, Updates w' = Some q.
Proof. intros (_ & _ & _ & _ & _ & _ & _ & q & r & _ & H & _). eauto. Qed.

Lemma steady_mono Wr Rd Rd' L L' w w' :
  steady Wr Rd L w w' -> (forall s, Rd s -> Rd' s) -> L' <= L -> steady Wr Rd' L' w w'.
Proof.
  intros (A & B & C & D & E & F & G & q & r & H & I & J & K & M & N & O & P) Hr HL.
  split; [exact A|]. split; [exact B|].
  split.
  { intros x s Hx. destruct (C x s Hx) as [Hy|[[Hy Hz]|Hy]];
      [left; exact Hy|right; left; auto|right; right; lia]. }
  split; [exact D|]. split; [exact E|]. split; [exact F|]. split; [exact G|].
  exists q, r. split; [exact H|]. split; [exact I|]. split; [exact J|]. split; [exact K|].
  split; [exact M|]. split; [intros x Hx Hl; apply N; [exact Hx|lia]|].
  split; [intros x Hl; apply O; lia|exact P].
Qed.

Lemma steady_read Wr Rd L s w q :
  Updates w = Some q -> Rd s -> steady Wr Rd L w (fst (read s w)).
Proof.
  intros Hq Hs. unfold read. destruct (getRunningEffect w) as [e|] eqn:Ht; cbn [fst];
    [|eapply steady_refl; eauto].
  set (w1 := trackEffectDependency e s w).
  assert (Lf : length (effects w1) = length (effects w)) by apply length_upd.
  assert (Ls : length (signals w1) = length (signals w)) by apply length_upd.
  assert (Fn : forall x, fn (eff w1 x) = fn (eff w x)) by (intros x; apply fn_eff_fns, fns_track).
  split; [reflexivity|].
  split.
  { intros x s' Hx. unfold w1. rewrite obs_track. destruct (_ && _)%bool; auto.
    apply In_set_add; auto. }
  split.
  { intros x s' Hx. unfold w1 in Hx. rewrite obs_track in Hx.
    destruct ((s' =? s) && _)%bool eqn:Eb; [|left; exact Hx].
    apply andb_true_iff in Eb. destruct Eb as [Eb _]. apply Nat.eqb_eq in Eb. subst s'.
    apply In_set_add in Hx. destruct Hx as [Hx| ->]; [left; exact Hx|right; left; auto]. }
  split; [lia|]. split; [intros x _; apply Fn|].
  split; [intros x Hx; rewrite Fn, fn_out by exact Hx; constructor|].
  split; [lia|].
  exists q, []. rewrite !app_nil_r.
  split; [exact Hq|]. split; [exact Hq|]. split; [reflexivity|]. split; [reflexivity|].
  split; [intros x []|]. split; [intros x []|].
  split; intros x; unfold w1; rewrite state_track; auto.
Qed.

Lemma steady_write Wr Rd L fl s v w q :
  Updates w = Some q -> Wr s ->
  exists w', write fl s v w = Done w' tt /\ steady Wr Rd L w w'.
Proof.
  intros Hq Hs. unfold write.
  set (w1 := upd_signal w s (set_current v)).
  assert (Ho : forall x, observers (sig w1 x) = observers (sig w x)) by apply obs_set_current.
  assert (Ls : length (signals w1) = length (signals w)) by apply length_upd.
  destruct (observers (sig w1 s)) as [|o obs] eqn:E.
  - exists w1. split; [reflexivity|].
    pose proof (steady_refl Wr Rd L w1 q Hq) as (A & B & C & D & F & G & _).
    split; [reflexivity|].
    split; [intros x s' Hx; rewrite Ho; auto|].
    split; [intros x s' Hx; rewrite Ho in Hx; auto|].
    split; [exact D|]. split; [exact F|]. split; [exact G|]. split; [lia|].
    exists q, []. rewrite !app_nil_r.
    split; [exact Hq|]. split; [exact Hq|]. split; [reflexivity|]. split; [reflexivity|].
    split; [intros x []|]. split; [intros x []|]. split; auto.
  - rewrite <- E. unfold runUpdates. change (Updates w1) with (Updates w). rewrite Hq.
    destruct (schedule_open (observers (sig w1 s)) w1 q Hq)
      as (w' & r & H1 & H2 & H3 & H4 & H5 & H6 & H7 & H8 & H9 & H10 & H11).
    destruct (schedule_unmarked (observers (sig w1 s)) w1 q Hq) as (w'' & r' & U1 & U2 & U3).
    rewrite H1 in U1. injection U1 as <-. rewrite H6 in U2. apply app_inv_head in U2. subst r'.
    rewrite H1. exists w'. split; [reflexivity|].
    assert (Ho' : forall x, observers (sig w' x) = observers (sig w x)).
    { intros x. unfold sig. rewrite H2. apply Ho. }
    assert (Fn : forall x, fn (eff w' x) = fn (eff w x)).
    { intros x. rewrite (fn_eff_fns w1 w' x H3). reflexivity. }
    assert (Lf : length (effects w') = length (effects w)).
    { rewrite (fns_length w1 w' H3). reflexivity. }
    split; [exact H4|].
    split; [intros x s' Hx; rewrite Ho'; auto|].
    split; [intros x s' Hx; rewrite Ho' in Hx; auto|].
    split; [lia|]. split; [intros x _; apply Fn|].
    split; [intros x Hx; rewrite Fn, fn_out by exact Hx; constructor|].
    split; [rewrite H2; lia|].
    exists q, r. split; [exact Hq|]. split; [exact H5|]. split; [exact H6|]. split; [exact H7|].
    split; [intros x Hx; exists s; split; [exact Hs|]; rewrite Ho', <- Ho; auto|].
    split; [intros x Hx _; exact (U3 x Hx)|].
    split; [intros x _ Hx; apply H10; exact Hx|exact H11].
Qed.

Lemma steady_signal Wr Rd L i w q :
  Updates w = Some q -> steady Wr Rd L w (fst (createSignal i w)).
Proof.
  intros Hq. unfold createSignal. cbn [fst].
  set (w1 := with_signals w (fun l => l ++ [mkSignal i []])).
  assert (Hs : forall x s, In x (observers (sig w1 s)) <-> In x (observers (sig w s))).
  { intros x s. unfold w1. rewrite sig_alloc.
    destruct (Nat.ltb_spec s (length (signals w))) as [Hl|Hl]; [tauto|].
    rewrite (sig_out w s Hl). destruct (Nat.eqb s _); simpl; tauto. }
  split; [reflexivity|]. split; [intros x s Hx; apply Hs; auto|].
  split; [intros x s Hx; left; apply Hs; auto|].
  split; [unfold w1; simpl; lia|]. split; [intros; reflexivity|].
  split; [intros x Hx; change (eff w1 x) with (eff w x); rewrite fn_out by exact Hx; constructor|].
  split; [unfold w1; simpl; rewrite length_app; lia|].
  exists q, []. rewrite !app_nil_r.
  split; [exact Hq|]. split; [exact Hq|]. split; [reflexivity|]. split; [reflexivity|].
  split; [intros x []|]. split; [intros x []|]. split; auto.
Qed.

Lemma steady_alloc Wr Rd L b w q :
  Updates w = Some q -> L <= length (effects w) -> tame Wr (fun _ => True) b ->
  steady Wr Rd L w (fst (allocEffect b w)).
Proof.
  intros Hq HL Hb. destruct (alloc_frame b w) as (A1 & A2 & A3 & A4 & A5 & A6 & A7 & A8).
  assert (Hs : forall s, sig (fst (allocEffect b w)) s = sig w s)
    by (intros s; unfold sig; rewrite A3; reflexivity).
  split; [exact A2|]. split; [intros x s; rewrite Hs; auto|].
  split; [intros x s; rewrite Hs; auto|].
  split; [lia|].
  split; [intros x Hx; rewrite alloc_fn; apply Nat.ltb_lt in Hx; rewrite Hx; reflexivity|].
  split.
  { intros x Hx. rewrite alloc_fn. destruct (Nat.ltb_spec x (length (effects w))); [lia|].
    destruct (Nat.eqb x _); [exact Hb|constructor]. }
  split; [rewrite A3; lia|].
  exists q, []. rewrite !app_nil_r. split; [exact Hq|]. split; [rewrite A1; exact Hq|].
  split; [exact A6|]. split; [exact A5|]. split; [intros x []|]. split; [intros x []|].
  split; [intros x _ H; rewrite alloc_state; exact H|].
  intros x H. left. rewrite alloc_state in H. exact H.
Qed.

Section Steady.
Variable Wr : nat -> Prop.

(** User code allowed by [Wr] and [Rd], run under an open queue, and the
    run of an effect it has just created. *)
Lemma steady_exec n :
  (forall Rd L c w q, Updates w = Some q -> top_ok w -> L <= length (effects w) ->
     (forall s, length (signals w) <= s -> Wr s) -> tame Wr Rd c ->
     holds (steady Wr Rd L w) (exec n c w)) /\
  (forall id w q, Updates w = Some q -> top_ok w -> id < length (effects w) ->
     (forall s, length (signals w) <= s -> Wr s) ->
     dependencies (eff w id) = [] -> owned (eff w id) = None ->
     tame Wr (fun _ => True) (fn (eff w id)) ->
     holds (steady Wr (fun _ => False) id w) (runEffect n id w)).
Proof.
  induction n as [|n IH]; [split; intros; exact I|].
  destruct IH as [IHe IHr].
  split.
  - intros Rd L c w q Hq Ht HL Hw Hc.
    (* continuing with [c'] on a world reached by a steady step *)
    assert (K : forall c' w1, steady Wr Rd L w w1 -> tame Wr Rd c' ->
                  holds (steady Wr Rd L w) (exec n c' w1)).
    { intros c' w1 S1 Hc'. destruct (steady_updates _ _ _ _ _ S1) as [q1 Hq1].
      eapply holds_steady_tr; [exact S1|].
      destruct S1 as (A1 & _ & _ & D1 & _ & _ & G1 & _).
      apply (IHe Rd L c' w1 q1 Hq1); [|lia|intros s Hs; apply Hw; lia|exact Hc'].
      intros e He. unfold getRunningEffect in He. rewrite A1 in He. specialize (Ht e He). lia. }
    (* the run of an effect just created *)
    assert (N : forall b w1, steady Wr Rd L w w1 -> top_ok w1 ->
                  tame Wr (fun _ => True) b ->
                  holds (steady Wr Rd L w)
                    (runEffect n (length (effects w1)) (fst (allocEffect b w1)))).
    { intros b w1 S1 Ht1 Hb. destruct (steady_updates _ _ _ _ _ S1) as [q1 Hq1].
      destruct (alloc_frame b w1) as (A1 & A2 & A3 & _ & _ & _ & A7 & _).
      pose proof (alloc_new b w1 Ht1) as An.
      pose proof (steady_alloc Wr Rd L b w1 q1 Hq1) as Sa.
      pose proof S1 as (_ & _ & _ & D1 & _ & _ & G1 & _).
      pose proof (IHr (length (effects w1)) (fst (allocEffect b w1)) q1) as R.
      destruct (runEffect n (length (effects w1)) (fst (allocEffect b w1))) as [w2 []| w2 |];
        simpl in R |- *; auto.
      - eapply steady_trans; [exact S1|]. eapply steady_trans; [apply Sa; [lia|exact Hb]|].
        apply (steady_mono Wr (fun _ => False) Rd (length (effects w1)) L); [|intros s []|lia].
        apply R; [rewrite A1; exact Hq1| |lia| |rewrite An; reflexivity|rewrite An; reflexivity|
                  rewrite An; exact Hb].
        + intros e He. unfold getRunningEffect in He. rewrite A2 in He. specialize (Ht1 e He).
          rewrite A7. lia.
        + intros s Hs. apply Hw. rewrite A3 in Hs. lia.
      - eapply steady_trans; [exact S1|]. eapply steady_trans; [apply Sa; [lia|exact Hb]|].
        apply (steady_mono Wr (fun _ => False) Rd (length (effects w1)) L); [|intros s []|lia].
        apply R; [rewrite A1; exact Hq1| |lia| |rewrite An; reflexivity|rewrite An; reflexivity|
                  rewrite An; exact Hb].
        + intros e He. unfold getRunningEffect in He. rewrite A2 in He. specialize (Ht1 e He).
          rewrite A7. lia.
        + intros s Hs. apply Hw. rewrite A3 in Hs. lia. }
    inversion Hc as [v|s k Hs Hk|s v k Hs Hk|i k Hk|b k Hb Hk|b k Hb Hk|b k Hb Hk|i k Hk|];
      subst; cbn [exec].
    + simpl. eapply steady_refl; eauto.
    + pose proof (steady_read Wr Rd L s w q Hq Hs) as S1.
      destruct (read s w) as [w1 v]. apply K; [exact S1|apply Hk].
    + destruct (steady_write Wr Rd L (flushUpdates n) s v w q Hq Hs) as (w1 & H1 & S1).
      rewrite H1. cbn [and_then]. apply K; [exact S1|exact Hk].
    + pose proof (steady_signal Wr Rd L i w q Hq) as S1.
      unfold createSignal in S1 |- *. cbn [fst] in S1.
      apply K; [exact S1|]. apply Hk, Hw. lia.
    + pose proof (N b w (steady_refl Wr Rd L w q Hq) Ht Hb) as R.
      destruct (alloc_frame b w) as (_ & A2 & _ & _ & _ & _ & A7 & A8).
      destruct (allocEffect b w) as [w1 id] eqn:Ea. simpl in A8, R. subst id.
      destruct (runEffect n (length (effects w)) w1) as [w2 []| w2 |];
        cbn [and_then]; simpl in R |- *; auto.
    + unfold createSignal. cbn beta iota.
      set (w1 := with_signals w (fun l => l ++ [mkSignal None []])).
      set (sid := length (signals w)).
      assert (S1 : steady Wr Rd L w w1) by exact (steady_signal Wr Rd L None w q Hq).
      assert (Ht1 : top_ok w1) by exact Ht.
      assert (Hsid : Wr sid) by (apply Hw; unfold sid; lia).
      assert (Hm : tame Wr (fun _ => True) (memoBody b sid)).
      { unfold memoBody. apply tame_bind_intro; [exact Hb|]. intros v. constructor; [exact Hsid|constructor]. }
      pose proof (N (memoBody b sid) w1 S1 Ht1 Hm) as R.
      destruct (alloc_frame (memoBody b sid) w1) as (_ & A2 & _ & _ & _ & _ & A7 & A8).
      destruct (allocEffect (memoBody b sid) w1) as [w2 id] eqn:Ea. simpl in A8, R. subst id.
      change (length (effects w1)) with (length (effects w)) in R |- *.
      destruct (runEffect n (length (effects w)) w2) as [w3 []| w3 |];
        cbn [and_then]; simpl in R |- *; auto.
    + unfold runUpdates. rewrite Hq.
      pose proof (IHe Rd L b w q Hq Ht HL Hw Hb) as Sb.
      destruct (exec n b w) as [w1 a| w1 |]; simpl in Sb |- *; auto.
    + apply K; [exact (steady_refl Wr Rd L w q Hq)|exact Hk].
    + simpl. eapply steady_refl; eauto.
  - intros id w q Hq Ht Hid Hw Hd Ho Hb.
    cbn [runEffect]. destruct n as [|m]; [simpl; exact I|]. rewrite (cleanup_fresh m id w Hd Ho).
    cbn [and_then].
    set (w1 := upd_effect w id (fun x => map_deps (fun _ => []) (set_state false x))).
    set (w2 := with_running w1 (id :: runningEffects w1)).
    assert (Lf : length (effects w1) = length (effects w)) by apply length_upd.
    assert (E1 : forall x, x <> id -> eff w1 x = eff w x) by (intros x Hx; apply eff_upd_neq; auto).
    assert (F1 : forall x, fn (eff w1 x) = fn (eff w x)).
    { intros x. unfold w1. rewrite eff_upd. destruct (_ && _)%bool; reflexivity. }
    assert (St1 : state (eff w1 id) = false) by (unfold w1; rewrite eff_upd_eq by exact Hid; reflexivity).
    assert (Hq2 : Updates w2 = Some q) by exact Hq.
    unfold runUpdates. rewrite Hq2.
    assert (B : tame Wr (fun _ => True) (fn (eff w2 id))).
    { change (eff w2 id) with (eff w1 id). rewrite F1. exact Hb. }
    pose proof (IHe (fun _ => True) id (fn (eff w2 id)) w2 q Hq2) as R.
    assert (Fin : forall w3, steady Wr (fun _ => True) id w2 w3 ->
                    steady Wr (fun _ => False) id w (with_running w3 (tl (runningEffects w3)))).
    { intros w3 (A & B' & C & D & E & F & G & q' & r & H & I & J & M & O & P & Q & T).
      rewrite Hq2 in H. injection H as <-.
      split; [simpl; rewrite A; reflexivity|].
      split; [intros x s Hx; apply B'; exact Hx|].
      split.
      { intros x s Hx. destruct (C x s Hx) as [Hy|[[Hy _]|Hy]]; auto.
        injection Hy as ->. right; right; lia. }
      split; [change (length (effects w2)) with (length (effects w1)) in D; simpl; lia|].
      split.
      { intros x Hx. change (eff (with_running w3 _) x) with (eff w3 x).
        rewrite E by (change (length (effects w2)) with (length (effects w1)); lia).
        change (eff w2 x) with (eff w1 x). apply F1. }
      split.
      { intros x Hx. apply F. change (length (effects w2)) with (length (effects w1)). lia. }
      split; [exact G|].
      exists q, r. split; [exact Hq|]. split; [exact I|]. split; [exact J|]. split; [exact M|].
      split; [exact O|].
      split.
      { intros x Hx Hl. rewrite <- (E1 x) by lia. exact (P x Hx Hl). }
      split.
      { intros x Hl Hx. apply Q; [exact Hl|]. change (eff w2 x) with (eff w1 x).
        rewrite E1 by lia. exact Hx. }
      intros x Hx. destruct (T x Hx) as [Hy|Hy]; [|right; exact Hy].
      change (eff w2 x) with (eff w1 x) in Hy.
      destruct (Nat.eq_dec x id) as [->|Hn]; [rewrite St1 in Hy; discriminate|].
      rewrite E1 in Hy by exact Hn. left; exact Hy. }
    assert (R' : holds (steady Wr (fun _ => True) id w2) (exec (S m) (fn (eff w2 id)) w2)).
    { apply R; [|change (length (effects w2)) with (length (effects w1)); lia|exact Hw|exact B].
      intros e He. unfold getRunningEffect in He. simpl in He. injection He as <-.
      change (length (effects w2)) with (length (effects w1)). lia. }
    destruct (exec (S m) (fn (eff w2 id)) w2) as [w3 a| w3 |]; simpl in R' |- *; auto.
Qed.

End Steady.

(** *** What [cleanup] does to the observer edges *)

Lemma fold_delete_iff e ds w x s :
  In x (observers (sig (fold_left (fun w d => upd_signal w d (map_observers (set_delete e)))
                           ds w) s)) <->
  In x (observers (sig w s)) /\ ~ (x = e /\ In s ds).
Proof.
  revert w; induction ds as [|d ds IH]; intros w; simpl.
  - intuition.
  - rewrite IH. rewrite sig_upd.
    destruct (Nat.eqb_spec s d) as [Hsd|Hsd];
      destruct (Nat.ltb_spec d (length (signals w))) as [Hl|Hl]; simpl.
    + subst d. unfold map_observers; simpl. rewrite In_set_delete. intuition.
    + subst d. rewrite sig_out by lia. simpl. intuition.
    + intuition.
    + intuition.
Qed.

Lemma forEach_rel (Rl : World -> World -> Prop) (f : nat -> World -> Res unit) l w :
  (forall w0, Rl w0 w0) -> (forall a b c, Rl a b -> Rl b c -> Rl a c) ->
  (forall c w0, holds (Rl w0) (f c w0)) -> holds (Rl w) (forEach f l w).
Proof.
  intros Hr Ht Hf. revert w; induction l as [|c l IH]; intros w; simpl; auto.
  pose proof (Hf c w) as H1.
  destruct (f c w) as [w1 []| w1 |]; simpl in *; auto.
  pose proof (IH w1) as H2. destruct (forEach f l w1); simpl in *; eauto.
Qed.

Lemma cleanup_shrink n e w : holds (obs_shrink w) (cleanup n e w).
Proof.
  revert e w; induction n as [|n IH]; intros e w; simpl; auto.
  set (w1 := fold_left _ _ w).
  assert (S1 : obs_shrink w w1).
  { intros x s Hx. apply fold_delete_iff in Hx. tauto. }
  assert (Tr : forall a b c, obs_shrink a b -> obs_shrink b c -> obs_shrink a c)
    by (unfold obs_shrink; auto).
  destruct (owned (eff w1 e)) as [l|]; simpl; [|exact S1].
  pose proof (forEach_rel obs_shrink (cleanup n) l w1 (fun _ _ _ H => H) Tr IH) as H.
  destruct (forEach (cleanup n) l w1) as [w2 []| w2 |]; simpl in *; eauto.
Qed.

Lemma cleanup_removes n e w :
  edges_back e w -> holds (fun w' => forall s, ~ In e (observers (sig w' s))) (cleanup n e w).
Proof.
  intros Hb. destruct n as [|n]; simpl; auto.
  set (w1 := fold_left _ _ w).
  assert (S1 : forall s, ~ In e (observers (sig w1 s))).
  { intros s Hx. apply fold_delete_iff in Hx. destruct Hx as [H1 H2].
    apply H2. split; auto. }
  destruct (owned (eff w1 e)) as [l|]; simpl; [|exact S1].
  pose proof (forEach_rel obs_shrink (cleanup n) l w1 (fun _ _ _ H => H)
                (fun a b c (H1 : obs_shrink a b) H2 x s H => H1 x s (H2 x s H))
                (cleanup_shrink n)) as H.
  destruct (forEach (cleanup n) l w1) as [w2 []| w2 |]; simpl in *; auto.
  - intros s Hx. exact (S1 s (H e s Hx)).
  - intros s Hx. exact (S1 s (H e s Hx)).
Qed.

Lemma cleanup_leaf n e w :
  owned (eff w e) = None ->
  exists w', cleanup (S n) e w = Done w' tt /\
    (forall x s, x <> e -> In x (observers (sig w s)) -> In x (observers (sig w' s))) /\
    (forall x, x <> e -> eff w' x = eff w x) /\ cleanup_post w w'.
Proof.
  intros Ho. cbn [cleanup].
  set (w1 := fold_left _ _ w).
  destruct (fold_delete_frame e (dependencies (eff w e)) w) as (F1 & F2 & F3).
  fold w1 in F1, F2, F3.
  assert (Ho1 : owned (eff w1 e) = None) by (unfold eff; rewrite F2; exact Ho).
  rewrite Ho1. simpl.
  eexists. split; [reflexivity|].
  split; [|split].
  - intros x s Hx Hin. change (sig (upd_effect w1 e _) s) with (sig w1 s).
    apply fold_delete_iff. split; auto. intros [? _]; contradiction.
  - intros x Hx. rewrite eff_upd_neq by auto. unfold eff. rewrite F2. reflexivity.
  - eapply cleanup_post_trans; [|apply cleanup_post_upd_effect; reflexivity].
    unfold cleanup_post, fns. rewrite F1, F2, F3. auto.
Qed.

Lemma cleanup_clears n e w :
  e < length (effects w) ->
  holds (fun w' => state (eff w' e) = false /\ dependencies (eff w' e) = [])
    (cleanup n e w).
Proof.
  intros He. destruct n as [|n]; simpl; auto.
  set (w1 := fold_left _ _ w).
  destruct (fold_delete_frame e (dependencies (eff w e)) w) as (F1 & F2 & F3).
  fold w1 in F1, F2, F3.
  assert (Fin : forall w2, cleanup_post w1 w2 ->
            state (eff (upd_effect w2 e (fun x => map_deps (fun _ => []) (set_state false x))) e)
              = false /\
            dependencies (eff (upd_effect w2 e (fun x => map_deps (fun _ => []) (set_state false x))) e)
              = []).
  { intros w2 [_ [Hf _]]. rewrite eff_upd_eq; [split; reflexivity|].
    rewrite (fns_length w1 w2 Hf). rewrite F2. exact He. }
  destruct (owned (eff w1 e)) as [l|]; simpl.
  - destruct (forEach_post (cleanup n) l w1 (cleanup_frame n)) as [G1 G2].
    destruct (forEach (cleanup n) l w1) as [w2 []| w2 |] eqn:EF; simpl in *; auto;
      [|exfalso; eapply G2; reflexivity].
    apply Fin. eapply cleanup_post_trans; [exact G1|].
    apply cleanup_post_upd_effect; reflexivity.
  - apply Fin. unfold cleanup_post; auto.
Qed.

(** *** A flush in a tame world never pushes [E] *)

Section Quiet.
Variable E : nat.
Variable R : list nat.

Lemma currents_length w w' : currents w' = currents w -> length (signals w') = length (signals w).
Proof. intros H. unfold currents in H. rewrite <- (length_map current), H, length_map. reflexivity. Qed.

Lemma runEffect_quiet n X w q :
  Updates w = Some q -> quiet_inv E R w ->
  holds (fun w' => quiet_inv E R w' /\
           exists r, Updates w' = Some (q ++ r) /\ enqueued w' = enqueued w ++ r /\ ~ In E r)
    (runEffect n X w).
Proof.
  intros Hq (Ht & Hi & Ha & HE). destruct n as [|n]; [exact I|]. cbn [runEffect].
  destruct (cleanup_frame n X w) as [C1 C2].
  pose proof (cleanup_shrink n X w) as C3.
  destruct (cleanup n X w) as [w1 []| w1 |] eqn:EC; simpl in C1, C3 |- *; auto;
    [|exfalso; eapply C2; reflexivity].
  destruct C1 as (S1 & F1 & Cu). unfold sched in S1. injection S1 as Sr Su Sc Sd Se.
  pose proof (fns_length w w1 F1) as L1. pose proof (currents_length w w1 Cu) as L1s.
  set (w2 := with_running w1 (X :: runningEffects w1)).
  assert (Hq2 : Updates w2 = Some q) by (simpl; congruence).
  assert (Ht2 : tame (fun s => ~ In s R) (fun s => X = E -> In s R) (fn (eff w2 X))).
  { change (eff w2 X) with (eff w1 X). rewrite (fn_eff_fns w w1 X F1). apply Ht. }
  unfold runUpdates. rewrite Hq2.
  destruct (Nat.lt_ge_cases X (length (effects w))) as [HX|HX].
  2:{ assert (Hf : fn (eff w2 X) = Ret None)
        by (change (eff w2 X) with (eff w1 X); apply fn_out; lia).
      rewrite Hf. destruct n as [|n]; simpl; [exact I|].
      split; [split; [|split; [|split]]|].
      - intros x. change (eff (with_running w2 _) x) with (eff w1 x).
        rewrite (fn_eff_fns w w1 x F1). apply Ht.
      - intros s Hs. apply Hi, C3, Hs.
      - intros s Hs. change (length (signals w1) > s). rewrite L1s. apply Ha, Hs.
      - change (E < length (effects w1)). rewrite L1. exact HE.
      - exists []. rewrite !app_nil_r. split; [congruence|]. split; [congruence|]. auto. }
  assert (Ht2' : top_ok w2).
  { intros e He. unfold getRunningEffect in He. simpl in He. injection He as <-.
    change (length (effects w2)) with (length (effects w1)). lia. }
  pose proof (proj1 (steady_exec (fun s => ~ In s R) n) (fun s => X = E -> In s R)
                (length (effects w2)) (fn (eff w2 X)) w2 q Hq2 Ht2' (le_n _)) as H.
  assert (Hw2 : forall s, length (signals w2) <= s -> ~ In s R).
  { intros s Hs Hin. specialize (Ha s Hin). change (length (signals w2)) with (length (signals w1)) in Hs.
    lia. }
  specialize (H Hw2 Ht2).
  assert (K : forall w3, steady (fun s => ~ In s R) (fun s => X = E -> In s R) (length (effects w2)) w2 w3 ->
     let w4 := with_running w3 (tl (runningEffects w3)) in
     quiet_inv E R w4 /\
     exists r, Updates w4 = Some (q ++ r) /\ enqueued w4 = enqueued w ++ r /\ ~ In E r).
  { intros w3 (A & B & C & D & F & G & Ls & q2 & r & G1 & G2 & G3 & _ & G5 & _).
    change (length (effects w2)) with (length (effects w1)) in *.
    change (length (signals w2)) with (length (signals w1)) in Ls.
    assert (Io : observes_within E R w3).
    { intros s Hx. destruct (C E s Hx) as [Hy|[[Hy Hz]|Hy]].
      - apply Hi, C3, Hy.
      - unfold getRunningEffect in Hy. simpl in Hy. injection Hy as ->. auto.
      - lia. }
    rewrite Hq2 in G1. injection G1 as <-.
    split; [split; [|split; [|split]]|].
    - intros x. change (eff (with_running w3 _) x) with (eff w3 x).
      destruct (Nat.lt_ge_cases x (length (effects w1))) as [Hl|Hl].
      + rewrite (F x Hl). change (eff w2 x) with (eff w1 x).
        rewrite (fn_eff_fns w w1 x F1). apply Ht.
      + apply (tame_mono _ _ _ _ (G x Hl)). intros s _ Hxe. lia.
    - exact Io.
    - intros s Hs. simpl. specialize (Ha s Hs). lia.
    - simpl. lia.
    - exists r. split; [exact G2|]. split; [simpl; rewrite G3; simpl; congruence|].
      intros Hr. destruct (G5 E Hr) as (s & Hs & Ho). apply Hs. apply Io. exact Ho. }
  destruct (exec n (fn (eff w2 X)) w2) as [w3 a| w3 |]; simpl in H |- *; auto;
    apply (K w3 H).
Qed.

Lemma flushFrom_quiet n :
  forall i w q w', Updates w = Some q -> quiet_inv E R w ->
  flushFrom n i w = Done w' tt -> exists r, enqueued w' = enqueued w ++ r /\ ~ In E r.
Proof.
  induction n as [|n IH]; intros i w q w' Hq Ht Hf; [discriminate|].
  cbn [flushFrom] in Hf. rewrite Hq in Hf.
  destruct (_ || _)%bool.
  - injection Hf as <-. exists []. rewrite app_nil_r. auto.
  - destruct (nth_error q i) as [e|].
    + pose proof (runEffect_quiet n e (log_drained e w) q Hq Ht) as H.
      destruct (runEffect n e (log_drained e w)) as [w1 []| w1 |]; simpl in Hf; try discriminate.
      destruct H as (Ht1 & r1 & H1 & H2 & H3).
      destruct (IH (S i) w1 (q ++ r1) w' H1 Ht1 Hf) as (r2 & H4 & H5).
      exists (r1 ++ r2). rewrite H4, H2, app_assoc. split; [reflexivity|].
      rewrite in_app_iff. tauto.
    + eapply IH; eauto.
Qed.

End Quiet.

(** *** Counting the runs of [E] in a top-level cycle *)

Lemma write_open_E fl s v w q E :
  Updates w = Some q -> E < length (effects w) ->
  exists w' r, write fl s v w = Done w' tt /\
    (forall x, observers (sig w' x) = observers (sig w x)) /\ fns w' = fns w /\
    Updates w' = Some (q ++ r) /\ enqueued w' = enqueued w ++ r /\ drained w' = drained w /\
    count_occ Nat.eq_dec r E =
      (if state (eff w E) then 0 else if set_has E (observers (sig w s)) then 1 else 0) /\
    state (eff w' E) = (state (eff w E) || set_has E (observers (sig w s)))%bool.
Proof.
  intros Hq HE. unfold write.
  set (w1 := upd_signal w s (set_current v)).
  assert (Ho : forall x, observers (sig w1 x) = observers (sig w x)) by apply obs_set_current.
  destruct (observers (sig w1 s)) as [|o obs] eqn:Eo.
  - exists w1, []. rewrite <- Ho, Eo. rewrite !app_nil_r. simpl.
    split; [reflexivity|]. split; [exact Ho|]. split; [reflexivity|].
    split; [exact Hq|]. split; [reflexivity|]. split; [reflexivity|].
    change (eff w1 E) with (eff w E).
    destruct (state (eff w E)); split; reflexivity.
  - rewrite <- Eo. unfold runUpdates. change (Updates w1) with (Updates w). rewrite Hq.
    destruct (schedule_E (observers (sig w1 s)) w1 q E Hq HE)
      as (w' & r & H1 & H2 & H3 & H4 & H5 & H6 & H7 & H8 & H9).
    rewrite H1. exists w', r. rewrite <- (Ho s). split; [reflexivity|].
    split; [intros x; unfold sig; rewrite H2; apply Ho|].
    split; [exact H3|]. auto.
Qed.

Lemma write_open_signals fl s v w w' q :
  Updates w = Some q -> write fl s v w = Done w' tt -> length (signals w') = length (signals w).
Proof.
  intros Hq Hw. unfold write in Hw.
  set (w1 := upd_signal w s (set_current v)) in Hw.
  assert (L1 : length (signals w1) = length (signals w)) by apply length_upd.
  destruct (observers (sig w1 s)) as [|o obs].
  - injection Hw as <-. exact L1.
  - unfold runUpdates in Hw. change (Updates w1) with (Updates w) in Hw. rewrite Hq in Hw.
    destruct (schedule_open (o :: obs) w1 q Hq) as (w2 & r & H1 & H2 & _).
    rewrite H1 in Hw. injection Hw as <-. rewrite H2. exact L1.
Qed.

Section Counting.
Variable E : nat.
Variable R : list nat.

(** The drain of a cycle opened on [w] with queue [q] runs [q], then only
    entries other than [E]. *)
Lemma flush_tail n w q w' :
  Updates w = Some q -> quiet_inv E R w ->
  flushUpdates n w = Done w' tt ->
  exists r, Updates w' = None /\ drained w' = drained w ++ q ++ r /\ ~ In E r.
Proof.
  intros Hq Ht Hf. destruct n as [|n]; [discriminate|]. cbn [flushUpdates] in Hf.
  destruct (flushFrom_drains n 0 w q w' Hq (Nat.le_0_l _) Hf) as (r & H1 & H2 & H3).
  destruct (flushFrom_quiet E R n 0 w q w' Hq Ht Hf) as (r' & H4 & H5).
  rewrite H2 in H4. apply app_inv_head in H4. subst r'.
  exists r. auto.
Qed.

Lemma write_top_count n s v w w' :
  Updates w = None -> quiet_inv E R w ->
  write (flushUpdates n) s v w = Done w' tt ->
  exists d, Updates w' = None /\ drained w' = drained w ++ d /\
    count_occ Nat.eq_dec d E =
      (if state (eff w E) then 0 else if set_has E (observers (sig w s)) then 1 else 0).
Proof.
  intros Hn (Ht & Hi & Ha & HE) Hw. unfold write in Hw.
  set (w1 := upd_signal w s (set_current v)) in Hw.
  assert (Ho : forall x, observers (sig w1 x) = observers (sig w x)) by apply obs_set_current.
  destruct (observers (sig w1 s)) as [|o obs] eqn:Eo.
  - injection Hw as <-. exists []. rewrite <- (Ho s), Eo, app_nil_r.
    split; [exact Hn|]. split; [reflexivity|]. destruct (state (eff w E)); reflexivity.
  - rewrite <- Eo in Hw. unfold runUpdates in Hw. change (Updates w1) with (Updates w) in Hw.
    rewrite Hn in Hw.
    set (w1' := with_updates w1 (Some [])) in Hw.
    destruct (schedule_E (observers (sig w1 s)) w1' [] E eq_refl HE)
      as (w2 & r & H1 & H2 & H3 & H4 & H5 & H6 & H7 & H8 & H9).
    rewrite H1 in Hw. simpl in Hw.
    assert (Ht2 : quiet_inv E R w2).
    { split; [|split; [|split]].
      - intros x. rewrite (fn_eff_fns w1' w2 x H3). apply Ht.
      - intros s' Hs'. apply Hi. unfold sig in Hs'. rewrite H2 in Hs'.
        change (In E (observers (sig w1 s'))) in Hs'. rewrite Ho in Hs'. exact Hs'.
      - intros s' Hs'. rewrite H2. change (s' < length (upd (signals w) s (set_current v))).
        rewrite length_upd. apply Ha, Hs'.
      - rewrite (fns_length w1' w2 H3). exact HE. }
    destruct (flush_tail n w2 ([] ++ r) w' H5 Ht2 Hw) as (r2 & G1 & G2 & G3).
    exists (r ++ r2). split; [exact G1|]. split; [rewrite G2, H7; reflexivity|].
    rewrite count_occ_app, (proj1 (count_occ_not_In Nat.eq_dec r2 E) G3).
    rewrite H8. rewrite (Ho s). rewrite Nat.add_0_r. reflexivity.
Qed.

Lemma batch_top_count n s1 v1 s2 v2 w w' a :
  Updates w = None -> state (eff w E) = false ->
  In E (observers (sig w s1)) \/ In E (observers (sig w s2)) ->
  quiet_inv E R w ->
  exec n (Batch (Write s1 v1 (Write s2 v2 (Ret None))) (Ret None)) w = Done w' a ->
  exists d, Updates w' = None /\ drained w' = drained w ++ d /\ count_occ Nat.eq_dec d E = 1.
Proof.
  intros Hn Hs Hin (Ht & Hi & Ha & HE) Hx.
  destruct n as [|n]; [discriminate|]. cbn [exec] in Hx.
  unfold runUpdates in Hx. rewrite Hn in Hx.
  set (w0 := with_updates w (Some [])) in Hx.
  destruct n as [|n]; [discriminate|]. cbn [exec] in Hx.
  destruct (write_open_E (flushUpdates n) s1 v1 w0 [] E eq_refl HE)
    as (w1 & r1 & A1 & A2 & A3 & A4 & A5 & A6 & A7 & A8).
  rewrite A1 in Hx. cbn [and_then] in Hx.
  destruct n as [|n']; [discriminate|]. cbn [exec] in Hx.
  assert (HE1 : E < length (effects w1)) by (rewrite (fns_length w0 w1 A3); exact HE).
  destruct (write_open_E (flushUpdates n') s2 v2 w1 ([] ++ r1) E A4 HE1)
    as (w2 & r2 & B1 & B2 & B3 & B4 & B5 & B6 & B7 & B8).
  rewrite B1 in Hx. cbn [and_then] in Hx.
  destruct n' as [|n'']; [discriminate|]. cbn [exec and_then] in Hx.
  match type of Hx with context [flushUpdates ?m w2] =>
    destruct (flushUpdates m w2) as [w3 []| w3 |] eqn:Ef end;
    cbn [and_then] in Hx; try discriminate.
  injection Hx as <- _.
  assert (Ht2 : quiet_inv E R w2).
  { split; [|split; [|split]].
    - intros x. rewrite (fn_eff_fns w1 w2 x B3), (fn_eff_fns w0 w1 x A3). apply Ht.
    - intros s' Hs'. rewrite B2, A2 in Hs'. apply Hi. exact Hs'.
    - intros s' Hs'. rewrite (write_open_signals _ _ _ _ _ _ A4 B1),
        (write_open_signals _ _ _ w0 w1 [] eq_refl A1). apply Ha, Hs'.
    - rewrite (fns_length w1 w2 B3), (fns_length w0 w1 A3). exact HE. }
  destruct (flush_tail _ w2 (([] ++ r1) ++ r2) w3 B4 Ht2 Ef) as (r3 & G1 & G2 & G3).
  exists ((r1 ++ r2) ++ r3). split; [exact G1|]. split; [rewrite G2, B6, A6; reflexivity|].
  rewrite !count_occ_app, (proj1 (count_occ_not_In Nat.eq_dec r3 E) G3).
  rewrite B7, A8, A7, A2. change (eff w0 E) with (eff w E). rewrite Hs. simpl.
  change (sig w0 s1) with (sig w s1). change (sig w0 s2) with (sig w s2).
  destruct (set_has E (observers (sig w s1))) eqn:H1; simpl; auto.
  destruct (set_has E (observers (sig w s2))) eqn:H2; simpl; auto.
  destruct Hin as [Hin|Hin]; apply set_has_In in Hin; congruence.
Qed.

End Counting.

(** *** One run of an effect with a gated read *)

Lemma current_cleanup_post w w' s : cleanup_post w w' -> current (sig w' s) = current (sig w s).
Proof.
  intros (_ & _ & H). unfold sig. rewrite <- !(map_nth current). fold (currents w').
  fold (currents w). rewrite H. reflexivity.
Qed.

Lemma gated_rebuild n E s1 s2 b k w q w' :
  Updates w = Some q -> s1 < length (signals w) -> s2 < length (signals w) -> s1 <> s2 ->
  fn (eff w E) = gated s1 s2 b k -> tame (fun _ => True) (fun s => s <> s2) k ->
  edges_back E w ->
  runEffect n E w = Done w' tt ->
  In E (observers (sig w' s1)) /\
  (In E (observers (sig w' s2)) <-> b (current (sig w s1)) = true).
Proof.
  intros Hq L1 L2 Hne Hf Hk Hb H.
  destruct n as [|n]; [discriminate|]. cbn [runEffect] in H.
  destruct (cleanup_frame n E w) as [C1 C2].
  pose proof (cleanup_removes n E w Hb) as C3.
  destruct (cleanup n E w) as [w1 []| w1 |] eqn:EC; cbn [and_then] in H; simpl in C1, C3;
    [|exfalso; eapply C2; reflexivity|discriminate].
  pose proof C1 as (S1 & F1 & _). unfold sched in S1. injection S1 as Sr Su Sc Sd Se.
  assert (Lw1 : length (signals w1) = length (signals w)).
  { destruct C1 as (_ & _ & Hc). unfold currents in Hc.
    rewrite <- (length_map current), Hc, length_map. reflexivity. }
  remember (with_running w1 (E :: runningEffects w1)) as w2 eqn:Ew2.
  assert (Hq2 : Updates w2 = Some q) by (subst w2; simpl; congruence).
  assert (Hf2 : fn (eff w2 E) = gated s1 s2 b k).
  { subst w2. change (eff (with_running w1 _) E) with (eff w1 E).
    rewrite (fn_eff_fns w w1 E F1). exact Hf. }
  assert (Ht2 : getRunningEffect w2 = Some E) by (subst w2; reflexivity).
  assert (Lw2 : length (signals w2) = length (signals w)) by (subst w2; exact Lw1).
  assert (No2 : forall s, ~ In E (observers (sig w2 s))) by (subst w2; exact C3).
  assert (HE2 : E < length (effects w2)).
  { subst w2. change (length (effects (with_running w1 _))) with (length (effects w1)).
    rewrite (fns_length w w1 F1). destruct (Nat.lt_ge_cases E (length (effects w))) as [HE|HE];
      [exact HE|]. rewrite (fn_out w E HE) in Hf. discriminate. }
  unfold runUpdates in H. rewrite Hq2, Hf2 in H. unfold gated in H.
  destruct n as [|n]; [discriminate|]. cbn [exec] in H.
  assert (Er : read s1 w2 = (trackEffectDependency E s1 w2,
                             current (sig (trackEffectDependency E s1 w2) s1)))
    by (unfold read; rewrite Ht2; reflexivity).
  rewrite Er in H. rewrite current_track in H.
  assert (Cv : current (sig w2 s1) = current (sig w s1)).
  { subst w2. apply (current_cleanup_post w w1 s1 C1). }
  rewrite Cv in H.
  set (w3 := trackEffectDependency E s1 w2) in H.
  assert (Hq3 : Updates w3 = Some q) by exact Hq2.
  assert (In3 : In E (observers (sig w3 s1))).
  { unfold w3. rewrite obs_track, Nat.eqb_refl, Lw2.
    apply Nat.ltb_lt in L1. rewrite L1. apply In_set_add. auto. }
  assert (Ot3 : observers (sig w3 s2) = observers (sig w2 s2)).
  { unfold w3. rewrite obs_track. apply Nat.eqb_neq in Hne. rewrite Nat.eqb_sym, Hne. reflexivity. }
  assert (Rt3 : getRunningEffect w3 = Some E) by exact Ht2.
  assert (Lw3 : length (signals w3) = length (signals w)) by (change (signals w3) with (upd (signals w2) s1 (map_observers (set_add E)));
     rewrite length_upd; exact Lw2).
  destruct (b (current (sig w s1))) eqn:Eb.
  - destruct n as [|n]; [discriminate|]. cbn [exec] in H.
    assert (Er2 : read s2 w3 = (trackEffectDependency E s2 w3,
                                current (sig (trackEffectDependency E s2 w3) s2)))
      by (unfold read; rewrite Rt3; reflexivity).
    rewrite Er2 in H.
    set (w4 := trackEffectDependency E s2 w3) in H.
    assert (In4 : forall s, In s [s1; s2] -> In E (observers (sig w4 s))).
    { intros s [<-|[<-|[]]]; unfold w4; rewrite obs_track.
      - destruct (_ && _)%bool; [apply In_set_add|]; auto.
      - rewrite Nat.eqb_refl, Lw3. apply Nat.ltb_lt in L2. rewrite L2.
        apply In_set_add. auto. }
    assert (Ht4 : top_ok w4).
    { intros e He. change (getRunningEffect w4) with (getRunningEffect w3) in He.
      rewrite Rt3 in He. injection He as <-.
      rewrite (fns_length w3 w4 (fns_track E s2 w3)), (fns_length w2 w3 (fns_track E s1 w2)).
      exact HE2. }
    pose proof (proj1 (steady_exec (fun _ => True) n) (fun s => s <> s2) (length (effects w4))
                  k w4 q Hq3 Ht4 (le_n _) (fun _ _ => I) Hk) as Ck.
    destruct (exec n k w4) as [w5 a| w5 |]; cbn [and_then] in H; try discriminate.
    injection H as <-. cbn [holds] in Ck. destruct Ck as (_ & G & _).
    split; [apply G, In4; simpl; auto|]. split; [auto|intros _; apply G, In4; simpl; auto].
  - assert (Ht3 : top_ok w3).
    { intros e He. rewrite Rt3 in He. injection He as <-.
      rewrite (fns_length w2 w3 (fns_track E s1 w2)). exact HE2. }
    pose proof (proj1 (steady_exec (fun _ => True) n) (fun s => s <> s2) (length (effects w3))
                  k w3 q Hq3 Ht3 (le_n _) (fun _ _ => I) Hk) as Ck.
    destruct (exec n k w3) as [w5 a| w5 |]; cbn [and_then] in H; try discriminate.
    injection H as <-. cbn [holds] in Ck. destruct Ck as (_ & G & B & _).
    split; [apply G, In3|]. split; [|discriminate].
    intros Hx. simpl in Hx. destruct (B E s2 Hx) as [Hy|[[_ Hy]|Hy]]; [|contradiction|].
    + rewrite Ot3 in Hy. exfalso; exact (No2 s2 Hy).
    + rewrite (fns_length w2 w3 (fns_track E s1 w2)) in Hy. lia.
Qed.

(** *** Reader calls run nothing *)

Lemma read_frame s w :
  let w1 := fst (read s w) in
  snd (read s w) = current (sig w s) /\
  counters w1 = counters w /\ drained w1 = drained w /\ enqueued w1 = enqueued w /\
  Updates w1 = Updates w /\ currents w1 = currents w /\ fns w1 = fns w /\
  runningEffects w1 = runningEffects w.
Proof.
  unfold read. destruct (getRunningEffect w) as [e|]; simpl; [|repeat split].
  rewrite current_track. split; [reflexivity|].
  repeat split; [|apply fns_track].
  unfold currents; simpl. apply map_upd. reflexivity.
Qed.

Lemma read_n_quiet n s k v w w' a :
  exec n (read_n s k (Ret v)) w = Done w' a ->
  a = v /\ counters w' = counters w /\ drained w' = drained w /\
  enqueued w' = enqueued w /\ Updates w' = Updates w /\ currents w' = currents w.
Proof.
  revert n w; induction k as [|k IH]; intros n w H.
  - destruct n as [|n]; [discriminate|]. cbn [exec read_n] in H. injection H as <- <-.
    repeat split.
  - destruct n as [|n]; [discriminate|]. cbn [exec read_n] in H.
    destruct (read_frame s w) as (_ & H1 & H2 & H3 & H4 & H5 & _).
    destruct (read s w) as [w1 x] eqn:E. simpl in *.
    destruct (IH n w1 H) as (G0 & G1 & G2 & G3 & G4 & G5).
    repeat split; congruence.
Qed.

(** *** A read inside an effect always registers the dependency *)

Lemma read_registers s w e :
  getRunningEffect w = Some e -> s < length (signals w) -> e < length (effects w) ->
  In e (observers (sig (fst (read s w)) s)) /\
  In s (dependencies (eff (fst (read s w)) e)).
Proof.
  intros Ht Hs He. unfold read. rewrite Ht. simpl. split.
  - rewrite obs_track, Nat.eqb_refl. apply Nat.ltb_lt in Hs. rewrite Hs.
    apply In_set_add. auto.
  - unfold trackEffectDependency. rewrite eff_upd_eq by exact He.
    unfold map_deps; simpl. apply In_set_add. auto.
Qed.

(** *** A write under an open queue *)

Lemma write_open_spec fl s v w q :
  Updates w = Some q -> s < length (signals w) -> NoDup (observers (sig w s)) ->
  (forall o, In o (observers (sig w s)) -> o < length (effects w)) ->
  exists w', write fl s v w = Done w' tt /\ current (sig w' s) = v /\
    Updates w' = Some (q ++ filter (fun o => negb (state (eff w o))) (observers (sig w s))) /\
    enqueued w' = enqueued w ++ filter (fun o => negb (state (eff w o))) (observers (sig w s)) /\
    (forall o, In o (observers (sig w s)) -> state (eff w' o) = true) /\
    (forall o, ~ In o (observers (sig w s)) -> state (eff w' o) = state (eff w o)).
Proof.
  intros Hq Hs Hnd Hv. unfold write.
  set (w1 := upd_signal w s (set_current v)).
  assert (Ho : forall x, observers (sig w1 x) = observers (sig w x)) by apply obs_set_current.
  assert (Hc : current (sig w1 s) = v) by (unfold w1; rewrite sig_upd_eq; auto).
  destruct (observers (sig w1 s)) as [|o obs] eqn:Eo.
  - exists w1. rewrite <- (Ho s), Eo. simpl. rewrite !app_nil_r.
    repeat split; auto; intros o [].
  - rewrite <- Eo. unfold runUpdates. change (Updates w1) with (Updates w). rewrite Hq.
    rewrite Ho in Eo |- *.
    destruct (schedule_spec (observers (sig w s)) w1 q Hq Hnd Hv)
      as (w' & H1 & H2 & H3 & H4 & H5 & H6 & H7 & H8).
    rewrite H1. exists w'. split; [reflexivity|].
    split; [unfold sig; rewrite H2; exact Hc|]. auto.
Qed.

(** *** [batch] at top level drains everything it pushed, in push order *)

Lemma batch_top n b w w' :
  Updates w = None -> runUpdates (flushUpdates n) (exec n b) w = Done w' tt ->
  exists d, Updates w' = None /\ enqueued w' = enqueued w ++ d /\ drained w' = drained w ++ d.
Proof.
  intros Hn Hr. eapply runUpdates_top; [exact Hn| |exact Hr].
  eapply (proj1 (open_queue_grows n)). reflexivity.
Qed.

(** *** Checking the side conditions on a concrete world *)

Lemma tame_world_intro E R w :
  (forall x, x < length (effects w) ->
     tame (fun s => ~ In s R) (fun s => x = E -> In s R) (fn (eff w x))) ->
  tame_world E R w.
Proof.
  intros H x. destruct (Nat.lt_ge_cases x (length (effects w))) as [Hx|Hx]; auto.
  unfold eff. rewrite nth_overflow by exact Hx. constructor.
Qed.

Lemma observes_within_b_ok E R w : observes_within_b E R w = true -> observes_within E R w.
Proof.
  unfold observes_within_b. rewrite forallb_forall. intros H s Hs.
  destruct (Nat.lt_ge_cases s (length (signals w))) as [Hl|Hl].
  - specialize (H s (proj2 (in_seq _ _ _) (conj (Nat.le_0_l _) Hl))).
    apply set_has_In in Hs. rewrite Hs in H. simpl in H. apply set_has_In; auto.
  - rewrite sig_out in Hs by exact Hl. destruct Hs.
Qed.

Lemma edges_back_b_ok E w : edges_back_b E w = true -> edges_back E w.
Proof.
  unfold edges_back_b. rewrite forallb_forall. intros H s Hs.
  destruct (Nat.lt_ge_cases s (length (signals w))) as [Hl|Hl].
  - specialize (H s (proj2 (in_seq _ _ _) (conj (Nat.le_0_l _) Hl))).
    apply set_has_In in Hs. rewrite Hs in H. simpl in H. apply set_has_In; auto.
  - rewrite sig_out in Hs by exact Hl. destruct Hs.
Qed.

Ltac solve_tame :=
  repeat match goal with
  | |- tame _ _ (Ret _) => apply tame_Ret
  | |- tame _ _ Throw => apply tame_Throw
  | |- tame _ _ (Read _ _) => apply tame_Read; [simpl; intros; try tauto; try lia | intros]
  | |- tame _ _ (Write _ _ _) => apply tame_Write; [simpl; intros; try tauto; try lia|]
  | |- tame _ _ (Batch _ _) => apply tame_Batch
  | |- tame _ _ (Tick _ _) => apply tame_Tick
  | |- tame _ _ (if ?c then _ else _) => destruct c
  end.

(** ** The scenarios of the test file *)

Example effects_basic_ok : count_after (run_script 100 effects_basic) 0 = Some 3.
Proof. vm_compute. reflexivity. Qed.

Example effects_nested_ok :
  count_after (run_script 100 effects_nested) 0 = Some 2 /\
  count_after (run_script 100 effects_nested) 1 = Some 3.
Proof. vm_compute. split; reflexivity. Qed.

Example effects_dynamic_ok : count_after (run_script 200 effects_dynamic) 0 = Some 4.
Proof. vm_compute. reflexivity. Qed.

Example memo_ok : count_after (run_script 300 memo_scenario) 0 = Some 4.
Proof. vm_compute. reflexivity. Qed.

Example batch_ok : count_after (run_script 300 batch_scenario) 0 = Some 2 /\
  count_after (run_script 300 batch_scenario) 1 = Some 2.
Proof. vm_compute. split; reflexivity. Qed.


(** ** Further properties of the engine *)

(** *** [cleanup] never sets a pending marker *)

Lemma cleanup_states n e w :
  holds (fun w' => forall x, state (eff w' x) = true -> state (eff w x) = true) (cleanup n e w).
Proof.
  revert e w; induction n as [|n IH]; intros e w; simpl; auto.
  destruct (fold_delete_frame e (dependencies (eff w e)) w) as (_ & F2 & _).
  set (w1 := fold_left _ _ w) in *.
  assert (S1 : forall x, state (eff w1 x) = true -> state (eff w x) = true).
  { intros x. unfold eff. rewrite F2. auto. }
  assert (Fin : forall w2, (forall x, state (eff w2 x) = true -> state (eff w x) = true) ->
     forall x, state (eff (upd_effect w2 e (fun x => map_deps (fun _ => []) (set_state false x))) x)
               = true -> state (eff w x) = true).
  { intros w2 H x. rewrite eff_upd. destruct (_ && _)%bool; simpl; [discriminate|apply H]. }
  destruct (owned (eff w1 e)) as [l|]; simpl; [|apply Fin; exact S1].
  pose proof (forEach_rel (fun a b => forall x, state (eff b x) = true -> state (eff a x) = true)
                (cleanup n) l w1 (fun _ _ H => H) (fun a b c H1 H2 x H => H1 x (H2 x H)) IH) as H.
  destruct (forEach (cleanup n) l w1) as [w2 []| w2 |]; simpl in *; auto.
  - apply Fin. intros x Hx. rewrite eff_upd in Hx.
    destruct (_ && _)%bool; simpl in Hx; apply S1, H, Hx.
Qed.

Lemma cleanup_state_e n e w :
  holds (fun w' => state (eff w' e) = false) (cleanup n e w).
Proof.
  destruct (Nat.lt_ge_cases e (length (effects w))) as [He|He].
  - pose proof (cleanup_clears n e w He) as H.
    destruct (cleanup n e w); simpl in *; tauto.
  - destruct (cleanup_frame n e w) as [H _].
    destruct (cleanup n e w) as [w1 a| w1 |]; simpl in *; auto;
      destruct H as (_ & F & _); unfold eff; rewrite nth_overflow;
      [reflexivity| rewrite (fns_length w w1 F); exact He
      |reflexivity| rewrite (fns_length w w1 F); exact He].
Qed.

(** *** Under an open queue, a pending marker is only ever set by a push *)

Lemma pushes_pending_same w w' q :
  Updates w = Some q -> Updates w' = Some q ->
  (forall x, state (eff w' x) = true -> state (eff w x) = true) -> pushes_pending w w'.
Proof. intros H1 H2 H3. exists q, []. rewrite app_nil_r. auto. Qed.

Lemma pushes_pending_trans w1 w2 w3 :
  pushes_pending w1 w2 -> pushes_pending w2 w3 -> pushes_pending w1 w3.
Proof.
  intros (q1 & r1 & A1 & B1 & C1) (q2 & r2 & A2 & B2 & C2).
  rewrite B1 in A2. injection A2 as <-. exists q1, (r1 ++ r2).
  split; [exact A1|]. split; [rewrite B2, app_assoc; reflexivity|].
  intros x Hx. rewrite in_app_iff. destruct (C2 x Hx) as [Hy|Hy]; auto.
  destruct (C1 x Hy); auto.
Qed.

Lemma pushes_pending_updates w w' : pushes_pending w w' -> exists q, Updates w' = Some q.
Proof. intros (q & r & _ & H & _). eauto. Qed.

Lemma holds_pp_tr (w w1 : World) {A} (r : Res A) :
  pushes_pending w w1 -> holds (pushes_pending w1) r -> holds (pushes_pending w) r.
Proof. intros H1 H2. destruct r; simpl in *; eauto using pushes_pending_trans. Qed.

Lemma open_pending n :
  (forall c w q, Updates w = Some q -> holds (pushes_pending w) (exec n c w)) /\
  (forall e w q, Updates w = Some q -> holds (pushes_run e w) (runEffect n e w)).
Proof.
  induction n as [|n [IHe IHr]]; [split; intros; exact I|].
  assert (Ke : forall c w1 w, pushes_pending w w1 -> holds (pushes_pending w) (exec n c w1)).
  { intros c w1 w H. destruct (pushes_pending_updates _ _ H) as [q1 Hq1].
    eapply holds_pp_tr; eauto. }
  assert (Kr : forall e w1 w, pushes_pending w w1 -> holds (pushes_pending w) (runEffect n e w1)).
  { intros e w1 w H. destruct (pushes_pending_updates _ _ H) as [q1 Hq1].
    eapply holds_pp_tr; [exact H|].
    pose proof (IHr e w1 q1 Hq1) as G.
    destruct (runEffect n e w1); simpl in *; auto;
      destruct G as (q2 & r & G1 & G2 & G3); exists q2, r; split; auto; split; auto;
      intros x Hx; destruct (G3 x Hx) as [[Hy _]|Hy]; auto. }
  split.
  - intros c w q Hq.
    destruct c as [v|s k|s v k|i k|body k|body k|body k|i k|]; cbn [exec].
    + simpl. eapply pushes_pending_same; eauto.
    + destruct (read s w) as [w1 v] eqn:E. apply Ke.
      destruct (read_frame s w) as (_ & _ & _ & _ & H4 & _).
      eapply pushes_pending_same; [exact Hq| rewrite E in H4; simpl in H4; congruence |].
      intros x. pose proof (read_state s w x) as Hs. rewrite E in Hs. simpl in Hs. congruence.
    + destruct (calm_write (fun _ => True) (fun _ => True) (flushUpdates n) s v w q Hq I)
        as (w1 & H1 & C). rewrite H1. simpl. apply Ke.
      destruct C as (_ & _ & _ & _ & _ & q1 & r & C1 & C2 & _ & _ & _ & _ & C3).
      exists q1, r. auto.
    + destruct (createSignal i w) as [w1 s] eqn:Ec. apply Ke.
      unfold createSignal in Ec; injection Ec as <- _.
      eapply pushes_pending_same; eauto.
    + destruct (alloc_frame body w) as (A1 & _).
      pose proof (alloc_state body w) as A2.
      destruct (allocEffect body w) as [w1 id] eqn:Ea. simpl in A1, A2.
      apply holds_and_then with (Q := pushes_pending w).
      * apply Kr. eapply pushes_pending_same; [exact Hq|congruence|].
        intros x. rewrite A2. auto.
      * auto.
      * intros w2 _ H2. apply Ke; auto.
    + destruct (createSignal None w) as [w0 sid] eqn:Ec.
      assert (B1 : Updates w0 = Updates w /\ forall x, eff w0 x = eff w x).
      { unfold createSignal in Ec; injection Ec as <- _. split; reflexivity. }
      destruct (alloc_frame (memoBody body sid) w0) as (A1 & _).
      pose proof (alloc_state (memoBody body sid) w0) as A2.
      destruct (allocEffect (memoBody body sid) w0) as [w1 id] eqn:Ea. simpl in A1, A2.
      apply holds_and_then with (Q := pushes_pending w).
      * apply Kr. eapply pushes_pending_same; [exact Hq|destruct B1; congruence|].
        intros x. rewrite A2, (proj2 B1). auto.
      * auto.
      * intros w2 _ H2. apply Ke; auto.
    + apply holds_and_then with (Q := pushes_pending w).
      * unfold runUpdates. rewrite Hq.
        apply holds_and_then with (Q := pushes_pending w); [eapply IHe; eauto | auto |].
        intros; simpl; auto.
      * auto.
      * intros w2 _ H2. apply Ke; auto.
    + apply Ke. eapply pushes_pending_same; eauto.
    + simpl. eapply pushes_pending_same; eauto.
  - intros e w q Hq. cbn [runEffect].
    destruct (cleanup_frame n e w) as [C1 C2].
    pose proof (cleanup_states n e w) as C3.
    pose proof (cleanup_state_e n e w) as C4.
    destruct (cleanup n e w) as [w1 []| w1 |] eqn:E; simpl in *; auto;
      [|exfalso; eapply C2; reflexivity].
    destruct C1 as [C _]. unfold sched in C. injection C as Cr Cu Cc Cd Ce.
    set (w2 := with_running w1 (e :: runningEffects w1)).
    assert (H : holds (pushes_pending w2) (runUpdates (flushUpdates n) (exec n (fn (eff w2 e))) w2)).
    { unfold runUpdates. simpl. rewrite Cu, Hq.
      apply holds_and_then with (Q := pushes_pending w2);
        [eapply IHe; simpl; rewrite Cu; eauto | auto |].
      intros; simpl; auto. }
    assert (K : forall w3, pushes_pending w2 w3 ->
              pushes_run e w (with_running w3 (tl (runningEffects w3)))).
    { intros w3 (q2 & r & G1 & G2 & G3). simpl in G1. rewrite Cu, Hq in G1.
      injection G1 as <-. exists q, r. split; [exact Hq|]. split; [exact G2|].
      intros x Hx. destruct (G3 x Hx) as [Hy|Hy]; auto. left.
      change (eff w2 x) with (eff w1 x) in Hy. split; [apply C3, Hy|].
      intros ->. congruence. }
    destruct (runUpdates _ _ w2) as [w3 u| w3 |]; simpl in H |- *; auto.
Qed.

(** *** A completed top-level cycle leaves no pending marker *)

Lemma flushFrom_settles n :
  forall i w q w', Updates w = Some q ->
  (forall x, state (eff w x) = true -> exists j, i <= j /\ nth_error q j = Some x) ->
  flushFrom n i w = Done w' tt -> no_pending w'.
Proof.
  induction n as [|n IH]; intros i w q w' Hq Hp Hf; [discriminate|].
  cbn [flushFrom] in Hf. rewrite Hq in Hf.
  destruct (Nat.eqb (length q) 0 || Nat.eqb i (length q))%bool eqn:Ec.
  - injection Hf as <-. intros x. change (eff (with_updates w None) x) with (eff w x).
    destruct (state (eff w x)) eqn:Es; auto.
    destruct (Hp x Es) as (j & Hj & Hn).
    assert (Hl : j < length q) by (apply nth_error_Some; congruence).
    apply orb_true_iff in Ec. destruct Ec as [Ec|Ec]; apply Nat.eqb_eq in Ec; lia.
  - apply orb_false_iff in Ec. destruct Ec as [Ec0 Ec]. apply Nat.eqb_neq in Ec.
    destruct (nth_error q i) as [e|] eqn:En; [|eapply IH; eauto].
    assert (Hi : i < length q) by (apply nth_error_Some; congruence).
    pose proof (proj2 (open_pending n) e (log_drained e w) q Hq) as G.
    destruct (runEffect n e (log_drained e w)) as [w1 []| w1 |]; simpl in Hf; try discriminate.
    destruct G as (q1 & r & G1 & G2 & G3). simpl in G1. rewrite Hq in G1. injection G1 as <-.
    apply (IH (S i) w1 (q ++ r) w' G2); [|exact Hf].
    intros x Hx. destruct (G3 x Hx) as [[Hy Hne]|Hy].
    + change (eff (log_drained e w) x) with (eff w x) in Hy.
      destruct (Hp x Hy) as (j & Hj & Hn).
      assert (Hl : j < length q) by (apply nth_error_Some; congruence).
      exists j. split.
      * destruct (Nat.eq_dec i j) as [->|]; [congruence|lia].
      * rewrite nth_error_app1 by exact Hl. exact Hn.
    + destruct (In_nth_error r x Hy) as (k & Hk).
      exists (length q + k). split; [lia|].
      rewrite nth_error_app2 by lia. rewrite Nat.add_comm, Nat.add_sub. exact Hk.
Qed.

Lemma runUpdates_settles {A} n (f : World -> Res A) w w' :
  Updates w = None -> no_pending w ->
  holds (pushes_pending (with_updates w (Some []))) (f (with_updates w (Some []))) ->
  runUpdates (flushUpdates n) f w = Done w' tt -> Updates w' = None /\ no_pending w'.
Proof.
  intros Hn Hp Hf Hr. unfold runUpdates in Hr. rewrite Hn in Hr.
  destruct (f (with_updates w (Some []))) as [w1 a| w1 |]; simpl in Hr, Hf; try discriminate.
  destruct Hf as (q & r & F1 & F2 & F3). simpl in F1. injection F1 as <-.
  destruct n as [|n]; [discriminate|]. cbn [flushUpdates] in Hr.
  destruct (flushFrom_drains n 0 w1 ([] ++ r) w' F2 (Nat.le_0_l _) Hr) as (r2 & H1 & _).
  split; [exact H1|].
  apply (flushFrom_settles n 0 w1 ([] ++ r) w' F2); [|exact Hr].
  intros x Hx. destruct (F3 x Hx) as [Hy|Hy].
  - change (eff (with_updates w (Some [])) x) with (eff w x) in Hy. congruence.
  - destruct (In_nth_error r x Hy) as (j & Hj). exists j. split; [lia|exact Hj].
Qed.

Lemma write_settles n s v w w' :
  Updates w = None -> no_pending w ->
  write (flushUpdates n) s v w = Done w' tt -> Updates w' = None /\ no_pending w'.
Proof.
  intros Hn Hp Hw. unfold write in Hw.
  set (w1 := upd_signal w s (set_current v)) in Hw.
  destruct (observers (sig w1 s)) as [|o obs] eqn:Eo.
  - injection Hw as <-. split; [exact Hn|]. intros x. exact (Hp x).
  - rewrite <- Eo in Hw.
    apply (runUpdates_settles n (schedule_observers (observers (sig w1 s))) w1 w'); auto.
    destruct (schedule_open (observers (sig w1 s)) (with_updates w1 (Some [])) [] eq_refl)
      as (w2 & r & H1 & _ & _ & _ & H5 & _ & _ & _ & _ & _ & H11).
    rewrite H1. simpl. exists [], r. auto.
Qed.

Lemma runEffect_settles n e w w' :
  Updates w = None -> no_pending w -> runEffect n e w = Done w' tt ->
  Updates w' = None /\ no_pending w'.
Proof.
  intros Hn Hp H. destruct n as [|n]; [discriminate|]. cbn [runEffect] in H.
  destruct (cleanup_frame n e w) as [C1 _].
  pose proof (cleanup_states n e w) as C3.
  destruct (cleanup n e w) as [w1 []| w1 |] eqn:EC; cbn [and_then] in H; try discriminate.
  simpl in C1, C3. destruct C1 as [C _]. unfold sched in C. injection C as Cr Cu Cc Cd Ce.
  set (w2 := with_running w1 (e :: runningEffects w1)) in H.
  destruct (runUpdates (flushUpdates n) (exec n (fn (eff w2 e))) w2) as [w3 []| w3 |] eqn:Er;
    try discriminate.
  injection H as <-.
  destruct (runUpdates_settles n (exec n (fn (eff w2 e))) w2 w3) as [G1 G2]; auto.
  - simpl. congruence.
  - intros x. change (eff w2 x) with (eff w1 x). destruct (state (eff w1 x)) eqn:Es; auto.
    specialize (C3 x Es). rewrite Hp in C3. discriminate.
  - exact (proj1 (open_pending n) (fn (eff w2 e)) (with_updates w2 (Some [])) [] eq_refl).
Qed.

Lemma exec_settles n :
  forall c w w' v, Updates w = None -> no_pending w -> exec n c w = Done w' v ->
  Updates w' = None /\ no_pending w'.
Proof.
  induction n as [|n IH]; intros c w w' v Hn Hp H; [discriminate|].
  destruct c as [x|s k|s x k|i k|body k|body k|body k|i k|]; cbn [exec] in H.
  - injection H as <- _. auto.
  - destruct (read_frame s w) as (_ & _ & _ & _ & H4 & _).
    pose proof (read_state s w) as Hs.
    destruct (read s w) as [w1 y] eqn:E. simpl in H4, Hs.
    apply (IH (k y) w1 w' v); auto; [congruence|]. intros z. rewrite Hs. apply Hp.
  - destruct (write (flushUpdates n) s x w) as [w1 []| w1 |] eqn:Ew; simpl in H; try discriminate.
    destruct (write_settles n s x w w1 Hn Hp Ew) as [G1 G2]. eapply IH; eauto.
  - destruct (createSignal i w) as [w1 s] eqn:Ec.
    unfold createSignal in Ec; injection Ec as <- _.
    refine (IH _ _ _ _ _ _ H); [exact Hn|]. intros z. apply Hp.
  - destruct (alloc_frame body w) as (A1 & _).
    pose proof (alloc_state body w) as A2.
    destruct (allocEffect body w) as [w1 id] eqn:Ea. simpl in A1, A2.
    destruct (runEffect n id w1) as [w2 []| w2 |] eqn:Er; simpl in H; try discriminate.
    destruct (runEffect_settles n id w1 w2) as [G1 G2]; auto; [congruence| |].
    + intros z. rewrite A2. apply Hp.
    + eapply IH; eauto.
  - destruct (createSignal None w) as [w0 sid] eqn:Ec.
    assert (B1 : Updates w0 = Updates w /\ forall x, eff w0 x = eff w x).
    { unfold createSignal in Ec; injection Ec as <- _. split; reflexivity. }
    destruct (alloc_frame (memoBody body sid) w0) as (A1 & _).
    pose proof (alloc_state (memoBody body sid) w0) as A2.
    destruct (allocEffect (memoBody body sid) w0) as [w1 id] eqn:Ea. simpl in A1, A2.
    destruct (runEffect n id w1) as [w2 []| w2 |] eqn:Er; simpl in H; try discriminate.
    destruct (runEffect_settles n id w1 w2) as [G1 G2]; auto; [destruct B1; congruence| |].
    + intros z. rewrite A2, (proj2 B1). apply Hp.
    + eapply IH; eauto.
  - destruct (runUpdates (flushUpdates n) (exec n body) w) as [w1 []| w1 |] eqn:Er;
      simpl in H; try discriminate.
    destruct (runUpdates_settles n (exec n body) w w1) as [G1 G2]; auto.
    + exact (proj1 (open_pending n) body (with_updates w (Some [])) [] eq_refl).
    + eapply IH; eauto.
  - refine (IH _ _ _ _ _ _ H); [exact Hn|]. intros z. apply Hp.
  - discriminate.
Qed.

(** *** The graph stays consistent *)

Lemma NoDup_set_add x l : NoDup l -> NoDup (set_add x l).
Proof.
  intros H. unfold set_add. destruct (set_has x l) eqn:E; auto.
  assert (Hn : ~ In x l) by (intros Hx; apply set_has_In in Hx; congruence).
  clear E. induction l as [|a l IH]; simpl.
  - constructor; [intros []|constructor].
  - inversion H as [|? ? Ha Hl]; subst. constructor.
    + rewrite in_app_iff. intros [Hy|[Hy|[]]]; [contradiction|]. subst. apply Hn. left; auto.
    + apply IH; auto. intros Hx. apply Hn. right; auto.
Qed.

Lemma graph_in_range w s x : graph_ok w -> In x (observers (sig w s)) -> x < length (effects w).
Proof.
  intros (G1 & _) Hx. destruct (Nat.lt_ge_cases x (length (effects w))) as [H|H]; auto.
  apply G1 in Hx. rewrite eff_out in Hx by exact H. destruct Hx.
Qed.

Lemma graph_transfer w w' :
  (forall s, observers (sig w' s) = observers (sig w s)) ->
  (forall x, dependencies (eff w' x) = dependencies (eff w x)) ->
  graph_ok w -> graph_ok w'.
Proof.
  intros Ho Hd (G1 & G2 & G3). split; [|split].
  - intros s x. rewrite Ho, Hd. apply G1.
  - intros s. rewrite Ho. apply G2.
  - intros x. rewrite Hd. apply G3.
Qed.

Lemma graph_upd_keep w e f :
  (forall y, dependencies (f y) = dependencies y) -> graph_ok w -> graph_ok (upd_effect w e f).
Proof.
  intros Hf. apply graph_transfer; [intros s; reflexivity|].
  intros x. rewrite eff_upd. destruct (_ && _)%bool; auto.
Qed.

Lemma graph_clear w e :
  (forall s, ~ In e (observers (sig w s))) -> graph_ok w ->
  graph_ok (upd_effect w e (fun x => map_deps (fun _ => []) (set_state false x))).
Proof.
  intros Hn (G1 & G2 & G3). split; [|split].
  - intros s x Hx. change (sig (upd_effect w e _) s) with (sig w s) in Hx. rewrite eff_upd.
    destruct (Nat.eqb_spec x e) as [->|]; simpl.
    + exfalso. exact (Hn s Hx).
    + apply G1, Hx.
  - intros s. exact (G2 s).
  - intros x. rewrite eff_upd. destruct (_ && _)%bool; [constructor|apply G3].
Qed.

Lemma eff_track e s w x :
  eff (trackEffectDependency e s w) x =
  if (Nat.eqb x e && Nat.ltb e (length (effects w)))%bool
  then map_deps (set_add s) (eff w x) else eff w x.
Proof. unfold trackEffectDependency. rewrite eff_upd. reflexivity. Qed.

Lemma graph_read s w : graph_ok w -> top_ok w -> graph_ok (fst (read s w)).
Proof.
  intros (G1 & G2 & G3) Ht. unfold read.
  destruct (getRunningEffect w) as [e|] eqn:He; simpl; [|split; auto].
  pose proof (Ht e He) as Hl.
  assert (Hd : forall x, dependencies (eff (trackEffectDependency e s w) x) =
     if Nat.eqb x e then set_add s (dependencies (eff w x)) else dependencies (eff w x)).
  { intros x. rewrite eff_track. destruct (Nat.eqb_spec x e) as [->|]; simpl.
    - apply Nat.ltb_lt in Hl. rewrite Hl. reflexivity.
    - reflexivity. }
  split; [|split].
  - intros s' x Hx. rewrite obs_track in Hx. rewrite Hd.
    destruct (Nat.eqb_spec x e) as [->|Hxe].
    + apply In_set_add.
      destruct (Nat.eqb s' s && Nat.ltb s (length (signals w)))%bool eqn:Es.
      * apply andb_true_iff in Es. destruct Es as [Es _]. apply Nat.eqb_eq in Es. auto.
      * left. apply G1, Hx.
    + destruct (_ && _)%bool.
      * apply In_set_add in Hx. destruct Hx as [Hx|Hx]; [apply G1, Hx| contradiction].
      * apply G1, Hx.
  - intros s'. rewrite obs_track. destruct (_ && _)%bool; [apply NoDup_set_add|]; apply G2.
  - intros x. rewrite Hd. destruct (Nat.eqb x e); [apply NoDup_set_add|]; apply G3.
Qed.

Lemma read_length s w : length (effects (fst (read s w))) = length (effects w).
Proof. unfold read. destruct (getRunningEffect w); simpl; [apply length_upd|reflexivity]. Qed.

Lemma graph_signal v w : graph_ok w -> graph_ok (fst (createSignal v w)).
Proof.
  intros (G1 & G2 & G3). unfold createSignal; simpl.
  split; [|split].
  - intros s x Hx. rewrite sig_alloc in Hx. change (eff (with_signals w _) x) with (eff w x).
    destruct (Nat.ltb s _); [apply G1, Hx|]. destruct (Nat.eqb s _); destruct Hx.
  - intros s. rewrite sig_alloc.
    destruct (Nat.ltb s _); [apply G2|]. destruct (Nat.eqb s _); constructor.
  - intros x. exact (G3 x).
Qed.

Lemma graph_alloc0 w a : dependencies a = [] -> graph_ok w ->
  graph_ok (with_effects w (fun l => l ++ [a])).
Proof.
  intros Ha G. pose proof G as (G1 & G2 & G3).
  assert (Hd : forall x, dependencies (eff (with_effects w (fun l => l ++ [a])) x) =
                if Nat.ltb x (length (effects w)) then dependencies (eff w x) else []).
  { intros x. rewrite eff_alloc. destruct (Nat.ltb x _); [reflexivity|].
    destruct (Nat.eqb x _); [exact Ha|reflexivity]. }
  split; [|split].
  - intros s x Hx. change (sig (with_effects w _) s) with (sig w s) in Hx. rewrite Hd.
    pose proof (graph_in_range w s x G Hx) as Hl. apply Nat.ltb_lt in Hl. rewrite Hl.
    apply G1, Hx.
  - intros s. exact (G2 s).
  - intros x. rewrite Hd. destruct (Nat.ltb x _); [apply G3|constructor].
Qed.

Lemma graph_alloc b w : graph_ok w -> graph_ok (fst (allocEffect b w)).
Proof.
  intros G. unfold allocEffect. destruct (getRunningEffect w) as [p|]; simpl.
  - apply graph_upd_keep; [reflexivity|]. apply graph_alloc0; auto.
  - apply graph_alloc0; auto.
Qed.

Lemma fold_delete_nodup e ds w :
  (forall s, NoDup (observers (sig w s))) ->
  forall s, NoDup (observers (sig (fold_left (fun w d => upd_signal w d (map_observers (set_delete e)))
                                     ds w) s)).
Proof.
  revert w; induction ds as [|d ds IH]; intros w H s; simpl; auto.
  apply IH. intros s'. rewrite sig_upd. destruct (_ && _)%bool; [|apply H].
  unfold map_observers; simpl. unfold set_delete. apply NoDup_filter, H.
Qed.

Lemma cleanup_graph n e w : holds (fun w' => graph_ok w -> graph_ok w') (cleanup n e w).
Proof.
  revert e w; induction n as [|n IH]; intros e w; simpl; auto.
  destruct (fold_delete_frame e (dependencies (eff w e)) w) as (_ & F2 & _).
  set (w1 := fold_left _ _ w) in *.
  assert (K1 : graph_ok w -> graph_ok w1 /\ forall s, ~ In e (observers (sig w1 s))).
  { intros (G1 & G2 & G3). split; [split; [|split]|].
    - intros s x Hx. apply fold_delete_iff in Hx. destruct Hx as [Hx _].
      unfold eff; rewrite F2. apply G1, Hx.
    - apply fold_delete_nodup. exact G2.
    - intros x. unfold eff; rewrite F2. apply G3.
    - intros s Hx. apply fold_delete_iff in Hx. destruct Hx as [Hx Hn].
      apply Hn. split; auto. }
  destruct (owned (eff w1 e)) as [l|]; simpl.
  - pose proof (forEach_rel (fun a b => graph_ok a -> graph_ok b) (cleanup n) l w1
                  (fun _ H => H) (fun a b c H1 H2 H => H2 (H1 H)) IH) as H.
    pose proof (forEach_rel obs_shrink (cleanup n) l w1 (fun _ _ _ H => H)
                  (fun a b c (H1 : obs_shrink a b) H2 x s H => H1 x s (H2 x s H))
                  (cleanup_shrink n)) as S.
    destruct (forEach (cleanup n) l w1) as [w2 []| w2 |]; simpl in H, S |- *; auto.
    + intros Gw. destruct (K1 Gw) as [Gw1 Ne]. apply graph_clear.
      * intros s Hx. change (sig (upd_effect w2 e _) s) with (sig w2 s) in Hx.
        exact (Ne s (S e s Hx)).
      * apply graph_upd_keep; [reflexivity|]. exact (H Gw1).
    + intros Gw. exact (H (proj1 (K1 Gw))).
  - intros Gw. destruct (K1 Gw) as [Gw1 Ne]. apply graph_clear; auto.
Qed.

Lemma schedule_graph obs w :
  holds (fun w' => signals w' = signals w /\ length (effects w') = length (effects w) /\
           forall x, dependencies (eff w' x) = dependencies (eff w x))
    (schedule_observers obs w).
Proof.
  revert w; induction obs as [|o obs IH]; intros w; simpl; [repeat split|].
  destruct (state (eff w o)); [apply IH|].
  destruct (Updates w) as [q|]; simpl; [|repeat split].
  pose proof (IH (push_update o q (upd_effect w o (set_state true)))) as H.
  destruct (schedule_observers _ _); simpl in *; auto;
    destruct H as (H1 & H2 & H3); (split; [exact H1|]); (split; [rewrite H2; apply length_upd|]);
    intros x; rewrite H3;
    change (eff (push_update o q (upd_effect w o (set_state true))) x)
      with (eff (upd_effect w o (set_state true)) x);
    rewrite eff_upd; destruct (_ && _)%bool; reflexivity.
Qed.

Lemma graph_grows_same w w' :
  graph_ok w' -> length (effects w') = length (effects w) -> graph_grows w w'.
Proof. intros H1 H2. split; [exact H1|lia]. Qed.

Lemma graph_grows_trans w1 w2 w3 :
  graph_grows w1 w2 -> graph_grows w2 w3 -> graph_grows w1 w3.
Proof. intros [_ H1] [G H2]. split; [exact G|lia]. Qed.

Lemma holds_gg_tr (w w1 : World) {A} (r : Res A) :
  graph_grows w w1 -> holds (graph_grows w1) r -> holds (graph_grows w) r.
Proof. intros H1 H2. destruct r; simpl in *; eauto using graph_grows_trans. Qed.

Lemma holds_conj {A} (P Q : World -> Prop) (r : Res A) :
  holds P r -> holds Q r -> holds (fun w => P w /\ Q w) r.
Proof. destruct r; simpl; auto. Qed.

Lemma graph_write fl s v w :
  (forall w1, graph_ok w1 -> holds (graph_grows w1) (fl w1)) ->
  graph_ok w -> holds (graph_grows w) (write fl s v w).
Proof.
  intros Hfl G. unfold write.
  set (w1 := upd_signal w s (set_current v)).
  assert (G1 : graph_grows w w1).
  { apply graph_grows_same; [|reflexivity].
    apply (graph_transfer w); [apply obs_set_current|reflexivity|exact G]. }
  assert (Hs : forall w0, graph_ok w0 -> holds (graph_grows w0) (schedule_observers (observers (sig w1 s)) w0)).
  { intros w0 G0. pose proof (schedule_graph (observers (sig w1 s)) w0) as H.
    destruct (schedule_observers _ _) as [w2 a| w2 |]; simpl in *; auto;
      destruct H as (H1 & H2 & H3); (apply graph_grows_same; [|exact H2]);
      (apply (graph_transfer w0); [intros s'; unfold sig; rewrite H1; reflexivity|exact H3|exact G0]). }
  destruct (observers (sig w1 s)) as [|o obs] eqn:Eo; [exact G1|].
  rewrite <- Eo in Hs |- *. eapply holds_gg_tr; [exact G1|].
  apply holds_runUpdates with (Q := graph_grows w1).
  - intros q _. apply Hs. exact (proj1 G1).
  - intros _. split; [|split].
    + apply (Hs (with_updates w1 (Some []))). exact (proj1 G1).
    + auto.
    + intros w2 H2. eapply holds_gg_tr; [exact H2|]. apply Hfl, H2.
Qed.

Lemma top_ok_tr w w1 :
  top_ok w -> runningEffects w1 = runningEffects w ->
  length (effects w) <= length (effects w1) -> top_ok w1.
Proof.
  intros Ht Hr Hl e He. unfold getRunningEffect in He. rewrite Hr in He.
  specialize (Ht e He). lia.
Qed.

Lemma graph_preserved n :
  (forall c w, graph_ok w -> top_ok w -> holds (graph_grows w) (exec n c w)) /\
  (forall e w, graph_ok w -> holds (graph_grows w) (runEffect n e w)) /\
  (forall w, graph_ok w -> holds (graph_grows w) (flushUpdates n w)) /\
  (forall i w, graph_ok w -> holds (graph_grows w) (flushFrom n i w)).
Proof.
  induction n as [|n IH]; [repeat split; intros; exact I|].
  destruct IH as (IHe & IHr & IHf & IHff).
  destruct (running_preserved n) as (Re & Rr & Rf & _).
  (* continuing with [k] on a world reached from [w] *)
  assert (Ke : forall c w w1, graph_ok w -> top_ok w -> graph_grows w w1 ->
                 runningEffects w1 = runningEffects w -> holds (graph_grows w) (exec n c w1)).
  { intros c w w1 G T [G1 L1] R1. eapply holds_gg_tr; [split; eauto|].
    apply IHe; [exact G1|]. eapply top_ok_tr; eauto. }
  assert (Kr : forall e w1, graph_ok w1 ->
                 holds (fun w2 => graph_grows w1 w2 /\ same_running w1 w2) (runEffect n e w1)).
  { intros e w1 G1. apply holds_conj; [apply IHr; exact G1|apply Rr]. }
  repeat split.
  - intros c w G T. destruct c as [v|s k|s v k|i k|body k|body k|body k|i k|]; cbn [exec].
    + simpl. apply graph_grows_same; auto.
    + pose proof (graph_read s w G T) as G1. pose proof (read_length s w) as L1.
      pose proof (read_running s w) as R1.
      destruct (read s w) as [w1 x] eqn:E. simpl in G1, L1, R1.
      apply Ke; auto. apply graph_grows_same; auto.
    + apply holds_and_then with (Q := fun w1 => graph_grows w w1 /\ same_running w w1).
      * apply holds_conj; [apply graph_write; auto|apply write_running; exact Rf].
      * intros w1 [H _]; exact H.
      * intros w1 _ [H1 H2]. apply Ke; auto.
    + pose proof (graph_signal i w G) as G1.
      destruct (createSignal i w) as [w1 s] eqn:Ec. simpl in G1.
      unfold createSignal in Ec; injection Ec as <- _.
      apply Ke; auto. apply graph_grows_same; auto.
    + pose proof (graph_alloc body w G) as G1.
      destruct (alloc_frame body w) as (_ & A2 & _ & _ & _ & _ & A7 & _).
      destruct (allocEffect body w) as [w1 id] eqn:Ea. simpl in G1, A2, A7.
      apply holds_and_then with (Q := fun w2 => graph_grows w w2 /\ same_running w w2).
      * pose proof (Kr id w1 G1) as H.
        destruct (runEffect n id w1); simpl in H |- *; auto;
          destruct H as [[H1 H2] H3]; (split; [split; [exact H1|lia]|]);
          unfold same_running in *; congruence.
      * intros w2 [H _]; exact H.
      * intros w2 _ [H1 H2]. apply Ke; auto.
    + pose proof (graph_signal None w G) as G0.
      destruct (createSignal None w) as [w0 sid] eqn:Ec. simpl in G0.
      assert (B : runningEffects w0 = runningEffects w /\ effects w0 = effects w).
      { unfold createSignal in Ec; injection Ec as <- _. split; reflexivity. }
      pose proof (graph_alloc (memoBody body sid) w0 G0) as G1.
      destruct (alloc_frame (memoBody body sid) w0) as (_ & A2 & _ & _ & _ & _ & A7 & _).
      destruct (allocEffect (memoBody body sid) w0) as [w1 id] eqn:Ea. simpl in G1, A2, A7.
      destruct B as [B1 B2]. rewrite B2 in A7.
      apply holds_and_then with (Q := fun w2 => graph_grows w w2 /\ same_running w w2).
      * pose proof (Kr id w1 G1) as H.
        destruct (runEffect n id w1); simpl in H |- *; auto;
          destruct H as [[H1 H2] H3]; (split; [split; [exact H1|lia]|]);
          unfold same_running in *; congruence.
      * intros w2 [H _]; exact H.
      * intros w2 _ [H1 H2]. apply Ke; auto.
    + apply holds_and_then with (Q := fun w1 => graph_grows w w1 /\ same_running w w1).
      * apply holds_conj.
        -- apply holds_runUpdates with (Q := graph_grows w).
           ++ intros q _. apply IHe; auto.
           ++ intros _. split; [|split].
              ** apply (IHe body (with_updates w (Some []))); auto.
              ** auto.
              ** intros w2 H2. eapply holds_gg_tr; [exact H2|]. apply IHf, H2.
        -- apply runUpdates_running; [exact Rf|]. intros w0 _. apply Re.
      * intros w1 [H _]; exact H.
      * intros w1 _ [H1 H2]. apply Ke; auto.
    + apply Ke; auto. apply graph_grows_same; auto.
    + simpl. apply graph_grows_same; auto.
  - intros e w G. cbn [runEffect].
    destruct (cleanup_frame n e w) as [C1 C2].
    pose proof (cleanup_graph n e w) as C3.
    destruct (cleanup n e w) as [w1 []| w1 |] eqn:E; simpl in C1, C3 |- *; auto;
      [|exfalso; eapply C2; reflexivity].
    destruct C1 as (_ & F1 & _). pose proof (fns_length w w1 F1) as L1.
    specialize (C3 G).
    set (w2 := with_running w1 (e :: runningEffects w1)).
    assert (Hb : forall w0, graph_ok w0 -> runningEffects w0 = runningEffects w2 ->
                   length (effects w0) = length (effects w1) ->
                   holds (graph_grows w0) (exec n (fn (eff w2 e)) w0)).
    { intros w0 G0 R0 L0.
      destruct (Nat.lt_ge_cases e (length (effects w1))) as [He|He].
      - apply IHe; [exact G0|]. intros e' He'. unfold getRunningEffect in He'.
        rewrite R0 in He'. simpl in He'. injection He' as <-. lia.
      - change (eff w2 e) with (eff w1 e). rewrite eff_out by exact He.
        destruct n as [|m]; [exact I|]. simpl. apply graph_grows_same; auto. }
    assert (H : holds (graph_grows w2) (runUpdates (flushUpdates n) (exec n (fn (eff w2 e))) w2)).
    { apply holds_runUpdates with (Q := graph_grows w2).
      - intros q _. apply Hb; auto.
      - intros _. split; [|split].
        + exact (Hb (with_updates w2 (Some [])) C3 eq_refl eq_refl).
        + auto.
        + intros w3 H3. eapply holds_gg_tr; [exact H3|]. apply IHf, H3. }
    assert (G2 : graph_grows w w2) by (apply graph_grows_same; auto).
    destruct (runUpdates _ _ w2) as [w3 u| w3 |]; simpl in H |- *; auto;
      exact (graph_grows_trans _ _ _ G2 H).
  - intros w G. simpl. apply IHff, G.
  - intros i w G. simpl. destruct (Updates w) as [q|]; simpl; [|apply graph_grows_same; auto].
    destruct (_ || _)%bool; [apply graph_grows_same; auto|].
    destruct (nth_error q i) as [e|]; [|apply IHff, G].
    apply holds_and_then with (Q := graph_grows w).
    + apply (IHr e (log_drained e w)). exact G.
    + auto.
    + intros w2 _ H2. eapply holds_gg_tr; [exact H2|]. apply IHff, H2.
Qed.

(** *** What [cleanup] cuts off *)

Lemma fold_delete_graph e w :
  let w1 := fold_left (fun w d => upd_signal w d (map_observers (set_delete e)))
              (dependencies (eff w e)) w in
  graph_ok w -> graph_ok w1 /\ forall s, ~ In e (observers (sig w1 s)).
Proof.
  intros w1 (G1 & G2 & G3).
  destruct (fold_delete_frame e (dependencies (eff w e)) w) as (_ & F2 & _). fold w1 in F2.
  split; [split; [|split]|].
  - intros s x Hx. apply fold_delete_iff in Hx. destruct Hx as [Hx _].
    unfold eff; rewrite F2. apply G1, Hx.
  - apply fold_delete_nodup. exact G2.
  - intros x. unfold eff; rewrite F2. apply G3.
  - intros s Hx. apply fold_delete_iff in Hx. destruct Hx as [Hx Hn].
    apply Hn. split; auto.
Qed.

Lemma cleanup_deps n e w :
  holds (fun w' => forall x, dependencies (eff w x) = [] -> dependencies (eff w' x) = [])
    (cleanup n e w).
Proof.
  revert e w; induction n as [|n IH]; intros e w; simpl; auto.
  destruct (fold_delete_frame e (dependencies (eff w e)) w) as (_ & F2 & _).
  set (w1 := fold_left _ _ w) in *.
  assert (S1 : forall x, dependencies (eff w x) = [] -> dependencies (eff w1 x) = []).
  { intros x. unfold eff. rewrite F2. auto. }
  assert (Fin : forall w2, (forall x, dependencies (eff w x) = [] -> dependencies (eff w2 x) = []) ->
     forall x, dependencies (eff w x) = [] ->
       dependencies (eff (upd_effect w2 e (fun x => map_deps (fun _ => []) (set_state false x))) x)
       = []).
  { intros w2 H x Hx. rewrite eff_upd. destruct (_ && _)%bool; simpl; [reflexivity|apply H, Hx]. }
  destruct (owned (eff w1 e)) as [l|]; simpl; [|apply Fin; exact S1].
  pose proof (forEach_rel (fun a b => forall x, dependencies (eff a x) = [] -> dependencies (eff b x) = [])
                (cleanup n) l w1 (fun _ _ H => H) (fun a b c H1 H2 x H => H2 x (H1 x H)) IH) as H.
  destruct (forEach (cleanup n) l w1) as [w2 []| w2 |]; simpl in *; auto.
  - apply Fin. intros x Hx. rewrite eff_upd.
    destruct (_ && _)%bool; simpl; apply H, S1, Hx.
Qed.

Lemma cleanup_keeps_detached n e w :
  holds (fun w' => forall x, detached w x -> detached w' x) (cleanup n e w).
Proof.
  pose proof (cleanup_shrink n e w) as H1. pose proof (cleanup_deps n e w) as H2.
  pose proof (cleanup_states n e w) as H3.
  destruct (cleanup n e w) as [w' a| w' |]; simpl in *; auto;
    intros x (D1 & D2 & D3); (split; [intros s Hs; exact (D1 s (H1 x s Hs))|]);
    (split; [apply H2, D2|]);
    (destruct (state (eff w' x)) eqn:E; [rewrite H3 in D3 by exact E; discriminate|reflexivity]).
Qed.

Lemma detached_upd w e f x :
  (forall y, dependencies y = [] -> dependencies (f y) = []) ->
  (forall y, state y = false -> state (f y) = false) ->
  detached w x -> detached (upd_effect w e f) x.
Proof.
  intros Hd Hs (D1 & D2 & D3). split; [exact D1|].
  rewrite eff_upd. destruct (_ && _)%bool; auto.
Qed.

Lemma clear_detaches w e :
  (forall s, ~ In e (observers (sig w s))) ->
  detached (upd_effect w e (fun x => map_deps (fun _ => []) (set_state false x))) e.
Proof.
  intros Hn. split; [exact Hn|]. rewrite eff_upd, Nat.eqb_refl. simpl.
  destruct (Nat.ltb_spec e (length (effects w))) as [He|He]; [split; reflexivity|].
  rewrite eff_out by exact He. split; reflexivity.
Qed.

Lemma cleanup_detaches n :
  forall e w, graph_ok w ->
  holds (fun w' => forall x, In x (e :: children w e) -> detached w' x) (cleanup n e w).
Proof.
  induction n as [|n IH]; intros e w G; simpl; auto.
  destruct (fold_delete_frame e (dependencies (eff w e)) w) as (_ & F2 & _).
  destruct (fold_delete_graph e w G) as [G1 N1].
  set (w1 := fold_left _ _ w) in *.
  assert (Ch : children w e = children w1 e) by (unfold children, eff; rewrite F2; reflexivity).
  rewrite Ch. unfold children.
  assert (Fin : forall w2, (forall s, ~ In e (observers (sig w2 s))) ->
            forall x, x = e \/ detached w2 x ->
            detached (upd_effect w2 e (fun x => map_deps (fun _ => []) (set_state false x))) x).
  { intros w2 Hn x [->|Hx]; [apply clear_detaches, Hn|].
    apply detached_upd; [intros; reflexivity|intros; reflexivity|exact Hx]. }
  destruct (owned (eff w1 e)) as [l|]; simpl; [|intros x [->|[]]; apply Fin; auto].
  (* the owned effects, one after the other *)
  assert (Fe : forall l w0, graph_ok w0 ->
            holds (fun w' => graph_ok w' /\ obs_shrink w0 w' /\ forall x, In x l -> detached w' x)
              (forEach (cleanup n) l w0)).
  { clear - IH. induction l as [|c l IHl]; intros w0 G0; simpl.
    - split; [exact G0|]. split; [intros x s H; exact H|]. intros x [].
    - pose proof (IH c w0 G0) as A1. pose proof (cleanup_graph n c w0) as A2.
      pose proof (cleanup_shrink n c w0) as A3.
      pose proof (proj2 (cleanup_frame n c w0)) as A4.
      destruct (cleanup n c w0) as [w2 []| w2 |]; simpl in A1, A2, A3 |- *; auto;
        [|exfalso; eapply A4; reflexivity].
      specialize (A2 G0). pose proof (IHl w2 A2) as B1.
      pose proof (forEach_rel (fun a b => forall x, detached a x -> detached b x) (cleanup n) l w2
                    (fun _ _ H => H) (fun a b c H1 H2 x H => H2 x (H1 x H))
                    (cleanup_keeps_detached n)) as B2.
      pose proof (proj2 (forEach_post (cleanup n) l w2 (fun c w0 => cleanup_frame n c w0))) as B5.
      destruct (forEach (cleanup n) l w2) as [w3 []| w3 |]; simpl in B1, B2 |- *; auto;
        [|exfalso; eapply B5; reflexivity];
        destruct B1 as (B1 & B3 & B4); (split; [exact B1|]);
        (split; [intros x s H; exact (A3 x s (B3 x s H))|]);
        intros x [->|Hx]; auto; apply B2, A1; left; reflexivity. }
  pose proof (Fe l w1 G1) as H.
  pose proof (proj2 (forEach_post (cleanup n) l w1 (fun c w0 => cleanup_frame n c w0))) as R.
  destruct (forEach (cleanup n) l w1) as [w2 []| w2 |]; simpl in H |- *; auto;
    [|exfalso; eapply R; reflexivity].
  destruct H as (_ & S2 & D2). intros x Hx. apply Fin.
  - intros s Hs. change (sig (upd_effect w2 e _) s) with (sig w2 s) in Hs.
    exact (N1 s (S2 e s Hs)).
  - destruct Hx as [->|Hx]; [left; reflexivity|right].
    apply detached_upd; [intros y Hy; exact Hy|intros y Hy; exact Hy|apply D2, Hx].
Qed.

Lemma cleanup_owned n e w :
  holds (fun w' => owned (eff w' e) = option_map (fun _ => []) (owned (eff w e))) (cleanup n e w).
Proof.
  destruct n as [|n]; simpl; auto.
  destruct (fold_delete_frame e (dependencies (eff w e)) w) as (_ & F2 & _).
  set (w1 := fold_left _ _ w) in *.
  assert (O1 : owned (eff w1 e) = owned (eff w e)) by (unfold eff; rewrite F2; reflexivity).
  rewrite <- O1.
  destruct (owned (eff w1 e)) as [l|] eqn:Eo; simpl.
  - destruct (forEach_post (cleanup n) l w1 (fun c w0 => cleanup_frame n c w0)) as [P1 R].
    destruct (forEach (cleanup n) l w1) as [w2 []| w2 |]; simpl in P1 |- *; auto;
      [|exfalso; eapply R; reflexivity].
    destruct P1 as (_ & P1 & _). pose proof (fns_length _ _ P1) as L.
    destruct (Nat.ltb_spec e (length (effects w1))) as [He|He].
    + rewrite eff_upd_eq by (unfold upd_effect, with_effects; simpl; rewrite length_upd; lia).
      rewrite eff_upd_eq by lia. reflexivity.
    + exfalso. rewrite eff_out in Eo by exact He. discriminate.
  - rewrite eff_upd. destruct (_ && _)%bool; simpl; exact Eo.
Qed.

(** *** Checking the graph by evaluation *)

Lemma nodup_b_ok l : nodup_b l = true -> NoDup l.
Proof.
  induction l as [|a l IH]; simpl; intros H; [constructor|].
  apply andb_prop in H. destruct H as [H1 H2]. constructor; [|apply IH, H2].
  intros Ha. apply set_has_In in Ha. rewrite Ha in H1. discriminate.
Qed.

Lemma graph_ok_b_ok w : graph_ok_b w = true -> graph_ok w.
Proof.
  unfold graph_ok_b. intros H. apply andb_prop in H. destruct H as [H1 H2].
  rewrite forallb_forall in H1, H2.
  assert (Hs : forall s, (s < length (signals w))%nat ->
     nodup_b (observers (sig w s)) = true /\
     forall x, In x (observers (sig w s)) -> In s (dependencies (eff w x))).
  { intros s Hl. specialize (H1 s (proj2 (in_seq _ _ _) (conj (Nat.le_0_l _) Hl))).
    apply andb_prop in H1. destruct H1 as [A B]. split; [exact A|].
    rewrite forallb_forall in B. intros x Hx. apply set_has_In, B, Hx. }
  split; [|split].
  - intros s x Hx. destruct (Nat.lt_ge_cases s (length (signals w))) as [Hl|Hl].
    + apply (proj2 (Hs s Hl)), Hx.
    + rewrite sig_out in Hx by exact Hl. destruct Hx.
  - intros s. destruct (Nat.lt_ge_cases s (length (signals w))) as [Hl|Hl].
    + apply nodup_b_ok, (proj1 (Hs s Hl)).
    + rewrite sig_out by exact Hl. constructor.
  - intros x. destruct (Nat.lt_ge_cases x (length (effects w))) as [Hl|Hl].
    + apply nodup_b_ok, H2. apply in_seq. lia.
    + rewrite eff_out by exact Hl. constructor.
Qed.

Lemma top_ok_b_ok w : top_ok_b w = true -> top_ok w.
Proof.
  unfold top_ok_b, top_ok. intros H e He. rewrite He in H. apply Nat.ltb_lt, H.
Qed.

(** *** Round trips through a signal *)

Lemma write_keeps_value fl s v w :
  s < length (signals w) -> (Updates w <> None \/ observers (sig w s) = []) ->
  exists w1, write fl s v w = Done w1 tt /\ current (sig w1 s) = v.
Proof.
  intros Hs Hq. unfold write.
  set (w1 := upd_signal w s (set_current v)).
  assert (Hc : current (sig w1 s) = v) by (unfold w1; rewrite sig_upd_eq; auto).
  destruct (observers (sig w1 s)) as [|o obs] eqn:E; [exists w1; auto|].
  destruct Hq as [Hq|Hq].
  - destruct (Updates w) as [q|] eqn:Eq; [|congruence].
    unfold runUpdates. change (Updates w1) with (Updates w). rewrite Eq.
    destruct (schedule_open (o :: obs) w1 q Eq) as (w2 & r & H1 & H2 & _).
    rewrite H1. exists w2. split; [reflexivity|]. unfold sig. rewrite H2. exact Hc.
  - unfold w1 in E. rewrite obs_set_current, Hq in E. discriminate.
Qed.

Lemma alloc_owned b w p :
  getRunningEffect w = Some p -> p < length (effects w) ->
  let w1 := fst (allocEffect b w) in
  let id := length (effects w) in
  children w1 p = children w p ++ [id] /\ owner (eff w1 id) = Some p /\
  fn (eff w1 id) = b /\ dependencies (eff w1 id) = [] /\ state (eff w1 id) = false.
Proof.
  intros Hp Hl. unfold allocEffect. rewrite Hp. simpl.
  assert (Hl1 : p < length (effects (with_effects w (fun l => l ++
                  [mkEffect b [] (Some p) None false])))).
  { simpl. rewrite length_app. simpl. lia. }
  assert (N : eff (upd_effect (with_effects w (fun l => l ++ [mkEffect b [] (Some p) None false]))
                 p (fun x => set_owned (Some (match owned x with
                                             | Some l => l ++ [length (effects w)]
                                             | None => [length (effects w)] end)) x))
              (length (effects w)) = mkEffect b [] (Some p) None false).
  { rewrite eff_upd_neq by lia. rewrite eff_alloc, Nat.ltb_irrefl, Nat.eqb_refl. reflexivity. }
  rewrite N. split; [|repeat split].
  unfold children. rewrite eff_upd_eq by exact Hl1. rewrite eff_alloc.
  apply Nat.ltb_lt in Hl. rewrite Hl. simpl.
  destruct (owned (eff w p)); reflexivity.
Qed.

(** *** Who survives a [cleanup] *)

Lemma spared_refl x w : spared x w w.
Proof. split; auto. Qed.

Lemma spared_trans x w1 w2 w3 : spared x w1 w2 -> spared x w2 w3 -> spared x w1 w3.
Proof. intros [A1 B1] [A2 B2]. split; [congruence|auto]. Qed.

Lemma spared_upd x w e f : e <> x -> spared x w (upd_effect w e f).
Proof. intros H. split; [apply eff_upd_neq, H|intros s Hs; exact Hs]. Qed.

Lemma reaches_shrink w w' a b :
  (forall y, incl (children w' y) (children w y)) -> reaches w' a b -> reaches w a b.
Proof.
  intros Hc H. induction H as [e|e c x Hin _ IH]; [constructor|].
  apply (reaches_step w e c x); [apply Hc, Hin|exact IH].
Qed.

Lemma children_upd w e f y :
  (forall a, owned (f a) = owned a \/ owned (f a) = Some []) ->
  incl (children (upd_effect w e f) y) (children w y).
Proof.
  intros Hf. unfold children. rewrite eff_upd. destruct (_ && _)%bool; [|apply incl_refl].
  destruct (Hf (eff w y)) as [->| ->]; [apply incl_refl|intros z []].
Qed.

Lemma cleanup_children n e w :
  holds (fun w' => forall y, incl (children w' y) (children w y)) (cleanup n e w).
Proof.
  revert e w; induction n as [|n IH]; intros e w; simpl; auto.
  destruct (fold_delete_frame e (dependencies (eff w e)) w) as (_ & F2 & _).
  set (w1 := fold_left _ _ w) in *.
  assert (C1 : forall y, children w1 y = children w y)
    by (intros y; unfold children, eff; rewrite F2; reflexivity).
  assert (Tr : forall a b c : World, (forall y, incl (children b y) (children a y)) ->
                 (forall y, incl (children c y) (children b y)) ->
                 forall y, incl (children c y) (children a y))
    by (intros a b c H1 H2 y; eapply incl_tran; [apply H2|apply H1]).
  assert (Fin : forall w2, (forall y, incl (children w2 y) (children w y)) ->
            forall y, incl (children (upd_effect w2 e (fun x => map_deps (fun _ => []) (set_state false x))) y)
                        (children w y)).
  { intros w2 H2 y. eapply incl_tran; [apply children_upd; intros a; left; reflexivity|apply H2]. }
  destruct (owned (eff w1 e)) as [l|]; simpl.
  - pose proof (forEach_rel (fun a b => forall y, incl (children b y) (children a y)) (cleanup n) l w1
                  (fun _ y => incl_refl _) Tr IH) as H.
    destruct (forEach (cleanup n) l w1) as [w2 []| w2 |]; cbn [and_then holds] in H |- *; auto.
    + apply Fin. intros y. eapply incl_tran; [apply children_upd; intros a; right; reflexivity|].
      rewrite <- C1. apply H.
    + intros y. rewrite <- C1. apply H.
  - apply Fin. intros y. rewrite C1. apply incl_refl.
Qed.

(** [cleanup] of [e] leaves alone every effect outside the tree of [e]. *)
Lemma cleanup_spares n :
  forall e w x, ~ reaches w e x -> holds (spared x w) (cleanup n e w).
Proof.
  induction n as [|n IH]; intros e w x Hr; simpl; auto.
  assert (Hne : e <> x) by (intros ->; apply Hr; constructor).
  destruct (fold_delete_frame e (dependencies (eff w e)) w) as (_ & F2 & _).
  set (w1 := fold_left _ _ w) in *.
  assert (S1 : spared x w w1).
  { split; [unfold eff; rewrite F2; reflexivity|].
    intros s Hs. apply fold_delete_iff. split; [exact Hs|intros [H _]; auto]. }
  assert (C1 : forall y, children w1 y = children w y)
    by (intros y; unfold children, eff; rewrite F2; reflexivity).
  assert (Fin : forall w2, spared x w w2 ->
            spared x w (upd_effect w2 e (fun x => map_deps (fun _ => []) (set_state false x))))
    by (intros w2 H2; eapply spared_trans; [exact H2|apply spared_upd, Hne]).
  destruct (owned (eff w1 e)) as [l|] eqn:Eo; simpl; [|apply Fin, S1].
  assert (Fe : forall l w0, (forall c, In c l -> ~ reaches w0 c x) ->
            holds (spared x w0) (forEach (cleanup n) l w0)).
  { clear - IH. induction l as [|c l IHl]; intros w0 H0; simpl; [apply spared_refl|].
    pose proof (IH c w0 x (H0 c (or_introl eq_refl))) as A1.
    pose proof (cleanup_children n c w0) as A2.
    destruct (cleanup n c w0) as [w2 []| w2 |]; simpl in A1, A2 |- *; auto.
    assert (H2 : forall c', In c' l -> ~ reaches w2 c' x).
    { intros c' Hc' Hre. apply (H0 c' (or_intror Hc')). exact (reaches_shrink _ _ _ _ A2 Hre). }
    pose proof (IHl w2 H2) as B1.
    destruct (forEach (cleanup n) l w2) as [w3 []| w3 |]; simpl in B1 |- *; auto;
      eapply spared_trans; eauto. }
  assert (Hl : forall c, In c l -> ~ reaches w1 c x).
  { intros c Hc Hre. apply Hr. apply (reaches_step w e c x).
    - rewrite <- C1. unfold children. rewrite Eo. exact Hc.
    - apply (reaches_shrink w w1); [intros y; rewrite C1; apply incl_refl|exact Hre]. }
  pose proof (Fe l w1 Hl) as H.
  destruct (forEach (cleanup n) l w1) as [w2 []| w2 |]; cbn [and_then holds] in H |- *; auto.
  - apply Fin. eapply spared_trans; [exact S1|]. eapply spared_trans; [exact H|apply spared_upd, Hne].
  - eapply spared_trans; [exact S1|exact H].
Qed.

(** On a consistent graph, [cleanup] either spares an effect or cuts it off. *)
Lemma cleanup_cut_or_spare n :
  forall e w C, graph_ok w -> holds (fun w' => spared C w w' \/ detached w' C) (cleanup n e w).
Proof.
  induction n as [|n IH]; intros e w C G; [exact I|].
  destruct (Nat.eq_dec C e) as [->|Hne].
  { pose proof (cleanup_detaches (S n) e w G) as H.
    destruct (cleanup (S n) e w) as [w' []| w' |]; simpl in H |- *; auto;
      right; apply H; left; reflexivity. }
  simpl.
  destruct (fold_delete_frame e (dependencies (eff w e)) w) as (_ & F2 & _).
  destruct (fold_delete_graph e w G) as [G1 _].
  set (w1 := fold_left _ _ w) in *.
  assert (S1 : spared C w w1).
  { split; [unfold eff; rewrite F2; reflexivity|].
    intros s Hs. apply fold_delete_iff. split; [exact Hs|intros [H _]; auto]. }
  assert (Fin : forall w2, spared C w w2 \/ detached w2 C ->
            spared C w (upd_effect w2 e (fun x => map_deps (fun _ => []) (set_state false x))) \/
            detached (upd_effect w2 e (fun x => map_deps (fun _ => []) (set_state false x))) C).
  { intros w2 [H2|H2]; [left; eapply spared_trans; [exact H2|apply spared_upd; auto]|right].
    apply detached_upd; [intros; reflexivity|intros; reflexivity|exact H2]. }
  destruct (owned (eff w1 e)) as [l|]; simpl; [|apply Fin; left; exact S1].
  assert (Fe : forall l w0, graph_ok w0 ->
            holds (fun w' => graph_ok w' /\ (spared C w0 w' \/ detached w' C))
              (forEach (cleanup n) l w0)).
  { clear - IH. induction l as [|c l IHl]; intros w0 G0; simpl.
    - split; [exact G0|left; apply spared_refl].
    - pose proof (IH c w0 C G0) as A1. pose proof (cleanup_graph n c w0) as A2.
      destruct (cleanup n c w0) as [w2 []| w2 |]; simpl in A1, A2 |- *; auto.
      specialize (A2 G0). pose proof (IHl w2 A2) as B1.
      pose proof (forEach_rel (fun a b => forall x, detached a x -> detached b x) (cleanup n) l w2
                    (fun _ _ H => H) (fun a b c H1 H2 x H => H2 x (H1 x H))
                    (cleanup_keeps_detached n)) as B2.
      destruct (forEach (cleanup n) l w2) as [w3 []| w3 |]; simpl in B1, B2 |- *; auto;
        destruct B1 as (B1 & B3); (split; [exact B1|]);
        (destruct A1 as [A1|A1]; [destruct B3 as [B3|B3]; [left; eapply spared_trans; eauto|right; exact B3]
                                |right; apply B2, A1]). }
  pose proof (Fe l w1 G1) as H.
  destruct (forEach (cleanup n) l w1) as [w2 []| w2 |]; cbn [and_then holds] in H |- *; auto;
    destruct H as (_ & [H|H]).
  - apply Fin. left. eapply spared_trans; [exact S1|].
    eapply spared_trans; [exact H|apply spared_upd; auto].
  - apply Fin. right. apply detached_upd; [intros y Hy; exact Hy|intros y Hy; exact Hy|exact H].
  - left. eapply spared_trans; [exact S1|exact H].
  - right. exact H.
Qed.

(** Running [bind c f]: [c], then [f] on its result. *)
Lemma exec_bind n :
  forall c f w,
  match exec n c w with
  | Done w1 v => exists m, exec n (bind c f) w = exec m (f v) w1
  | Raised w1 => exec n (bind c f) w = Raised w1
  | OutOfFuel => exec n (bind c f) w = OutOfFuel
  end.
Proof.
  induction n as [|n IH]; intros c f w; [reflexivity|].
  destruct c as [v|s k|s v k|i k|b k|b k|b k|i k|]; cbn [exec bind].
  - exists (S n). reflexivity.
  - destruct (read s w) as [w1 v]. apply IH.
  - destruct (write (flushUpdates n) s v w) as [w1 []| w1 |]; cbn [and_then]; [apply IH|reflexivity|reflexivity].
  - destruct (createSignal i w) as [w1 s]. apply IH.
  - destruct (allocEffect b w) as [w1 id].
    destruct (runEffect n id w1) as [w2 []| w2 |]; cbn [and_then]; [apply IH|reflexivity|reflexivity].
  - destruct (createSignal None w) as [w1 sid]. destruct (allocEffect (memoBody b sid) w1) as [w2 id].
    destruct (runEffect n id w2) as [w3 []| w3 |]; cbn [and_then]; [apply IH|reflexivity|reflexivity].
  - destruct (runUpdates (flushUpdates n) (exec n b) w) as [w1 a| w1 |]; cbn [and_then];
      [apply IH|reflexivity|reflexivity].
  - apply IH.
  - reflexivity.
Qed.

(** *** A memo's recomputation always writes its backing signal *)

Lemma memoBody_not_ret b sid : memoBody b sid <> Ret None.
Proof. destruct b; discriminate. Qed.

(** One run of memo [M] from [w]: its [cleanup] ends in [w1]. If [E] was
    spared, [E] ends pending, queued by the run unless already pending; if
    [E] was cut off, it stays cut off. *)
Lemma memo_run_cases n M b sid E w q w' :
  Updates w = Some q -> fn (eff w M) = memoBody b sid -> E <> M -> E < length (effects w) ->
  In E (observers (sig w sid)) ->
  runEffect (S n) M w = Done w' tt ->
  exists w1, cleanup n M w = Done w1 tt /\
    (spared E w w1 ->
       state (eff w' E) = true /\
       exists r, enqueued w' = enqueued w ++ r /\ (state (eff w E) = true \/ In E r)) /\
    (detached w1 E ->
       state (eff w' E) = false /\ forall s, ~ In E (observers (sig w' s))).
Proof.
  intros Hq Hf Hne HE Hin H. cbn [runEffect] in H.
  destruct (cleanup_frame n M w) as [C1 C2].
  destruct (cleanup n M w) as [w1 []| w1 |] eqn:EC; cbn [and_then] in H;
    [|exfalso; eapply C2; reflexivity|discriminate].
  exists w1. split; [reflexivity|].
  destruct C1 as (S1 & F1 & _). unfold sched in S1. injection S1 as Sr Su Sc Sd Se.
  set (w2 := with_running w1 (M :: runningEffects w1)) in H.
  assert (Hq2 : Updates w2 = Some q) by (simpl; congruence).
  assert (Hf2 : fn (eff w2 M) = memoBody b sid).
  { change (eff w2 M) with (eff w1 M). rewrite (fn_eff_fns w w1 M F1). exact Hf. }
  assert (L2 : length (effects w2) = length (effects w)) by exact (fns_length w w1 F1).
  assert (HM : M < length (effects w2)).
  { destruct (Nat.lt_ge_cases M (length (effects w2))) as [Hl|Hl]; [exact Hl|].
    rewrite (fn_out w2 M Hl) in Hf2. exfalso; exact (memoBody_not_ret b sid (eq_sym Hf2)). }
  assert (Ht2 : top_ok w2) by (intros e He; injection He as <-; exact HM).
  unfold runUpdates in H. rewrite Hq2, Hf2 in H. unfold memoBody in H.
  pose proof (exec_bind n b (fun v => Write sid v (Ret None)) w2) as Xb.
  pose proof (proj1 (steady_exec (fun _ => True) n) (fun _ => True) (length (effects w2)) b w2 q
                Hq2 Ht2 (le_n _) (fun _ _ => I) (tame_any b)) as Sb.
  destruct (exec n b w2) as [w3 v| w3 |]; rewrite ?Xb in H; cbn [and_then] in H; try discriminate.
  destruct Xb as [m Xb]. rewrite Xb in H. cbn [holds] in Sb.
  destruct Sb as (A & B & C & D & _ & _ & _ & q3 & r1 & G1 & G2 & G3 & _ & G5 & _ & G7 & G8).
  rewrite Hq2 in G1. injection G1 as <-.
  assert (HE3 : E < length (effects w3)) by lia.
  destruct m as [|m]; [discriminate|]. cbn [exec] in H.
  destruct (write_open_E (flushUpdates m) sid v w3 (q ++ r1) E G2 HE3)
    as (w4 & r2 & D1 & D2 & D3 & D4 & D5 & D6 & D7 & D8).
  rewrite D1 in H. cbn [and_then] in H.
  destruct m as [|m]; [discriminate|]. cbn [exec and_then] in H.
  injection H as <-.
  assert (E2 : eff w2 E = eff w1 E) by reflexivity.
  split.
  - intros (Sp1 & Sp2).
    assert (Hs3 : set_has E (observers (sig w3 sid)) = true).
    { apply set_has_In, B. change (sig w2 sid) with (sig w1 sid). apply Sp2, Hin. }
    split.
    + change (eff (with_running w4 _) E) with (eff w4 E). rewrite D8, Hs3. apply orb_true_r.
    + exists (r1 ++ r2). split; [simpl; rewrite D5, G3, app_assoc; simpl; congruence|].
      destruct (state (eff w3 E)) eqn:S3.
      * destruct (G8 E S3) as [Hy|Hy]; [left; rewrite E2, Sp1 in Hy; exact Hy|].
        right; apply in_app_iff; auto.
      * right. apply in_app_iff. right. rewrite Hs3 in D7.
        apply (count_occ_In Nat.eq_dec). rewrite D7. auto.
  - intros (Dt1 & _ & Dt3).
    assert (No3 : forall s, ~ In E (observers (sig w3 s))).
    { intros s Hs. destruct (C E s Hs) as [Hy|[[Hy _]|Hy]].
      - exact (Dt1 s Hy).
      - injection Hy as Hy. auto.
      - lia. }
    assert (S3 : state (eff w3 E) = false).
    { destruct (state (eff w3 E)) eqn:S3; [|reflexivity].
      destruct (G8 E S3) as [Hy|Hy]; [rewrite E2, Dt3 in Hy; discriminate|].
      destruct (G5 E Hy) as (s & _ & Hs). exfalso; exact (No3 s Hs). }
    split.
    + change (eff (with_running w4 _) E) with (eff w4 E). rewrite D8, S3. simpl.
      destruct (set_has E (observers (sig w3 sid))) eqn:Hh; [|reflexivity].
      apply set_has_In in Hh. exfalso; exact (No3 sid Hh).
    + intros s Hs. change (sig (with_running w4 _) s) with (sig w4 s) in Hs.
      rewrite D2 in Hs. exact (No3 s Hs).
Qed.

(** *** A top-level write drains every observer not pending *)

Lemma write_top_drains n s v w w' :
  Updates w = None -> (forall o, In o (observers (sig w s)) -> o < length (effects w)) ->
  write (flushUpdates n) s v w = Done w' tt ->
  exists d, Updates w' = None /\ drained w' = drained w ++ d /\
    forall o, In o (observers (sig w s)) -> state (eff w o) = false -> In o d.
Proof.
  intros Hn Hv Hw. unfold write in Hw.
  set (w1 := upd_signal w s (set_current v)) in Hw.
  assert (Ho : forall x, observers (sig w1 x) = observers (sig w x)) by apply obs_set_current.
  destruct (observers (sig w1 s)) as [|o obs] eqn:Eo.
  - injection Hw as <-. exists []. rewrite app_nil_r.
    split; [exact Hn|]. split; [reflexivity|]. rewrite <- (Ho s), Eo. intros o [].
  - rewrite <- Eo in Hw. unfold runUpdates in Hw. change (Updates w1) with (Updates w) in Hw.
    rewrite Hn in Hw.
    set (w1' := with_updates w1 (Some [])) in Hw.
    destruct (schedule_open (observers (sig w1 s)) w1' [] eq_refl)
      as (w2 & r & H1 & _ & _ & _ & H5 & H6 & H7 & _).
    rewrite H1 in Hw. cbn [and_then] in Hw.
    destruct n as [|n]; [discriminate|]. cbn [flushUpdates] in Hw.
    destruct (flushFrom_drains n 0 w2 ([] ++ r) w' H5 (Nat.le_0_l _) Hw) as (r2 & G1 & _ & G3).
    exists (r ++ r2). split; [exact G1|]. split; [rewrite G3, H7; reflexivity|].
    intros x Hx Hs. apply in_app_iff. left.
    assert (Hx1 : In x (observers (sig w1' s))) by (change (sig w1' s) with (sig w1 s); rewrite Ho; exact Hx).
    assert (HE : x < length (effects w1')) by (apply Hv, Hx).
    destruct (schedule_E (observers (sig w1' s)) w1' [] x eq_refl HE)
      as (w3 & r3 & K1 & _ & _ & _ & _ & K6 & _ & K8 & _).
    change (sig w1' s) with (sig w1 s) in H1, K1, K8. rewrite H1 in K1. injection K1 as <-.
    rewrite H6 in K6. apply app_inv_head in K6. subst r3.
    change (eff w1' x) with (eff w x) in K8. rewrite Hs in K8.
    apply set_has_In in Hx1. change (sig w1' s) with (sig w1 s) in Hx1. rewrite Hx1 in K8.
    apply (count_occ_In Nat.eq_dec). rewrite K8. auto.
Qed.

(** *** While it is pending or cut off, nothing but its own run queues an effect *)

Lemma steady_marked w w' C :
  steady (fun _ => True) (fun _ => True) (length (effects w)) w w' ->
  C < length (effects w) -> getRunningEffect w <> Some C -> marked_or_cut w C ->
  marked_or_cut w' C /\ exists r, enqueued w' = enqueued w ++ r /\ ~ In C r.
Proof.
  intros (A & B & Cc & D & F & G & L & q & r & H & I & J & K & M & N & O & P) HC Hn Hm.
  destruct Hm as [Hs|Hcut].
  - split; [left; apply O; [exact HC|exact Hs]|].
    exists r. split; [exact J|]. intros Hr. rewrite (N C Hr HC) in Hs. discriminate.
  - assert (No : forall s, ~ In C (observers (sig w' s))).
    { intros s Hx. destruct (Cc C s Hx) as [Hy|[[Hy _]|Hy]];
        [exact (Hcut s Hy)|exact (Hn Hy)|lia]. }
    split; [right; exact No|].
    exists r. split; [exact J|]. intros Hr. destruct (M C Hr) as (s & _ & Hs). exact (No s Hs).
Qed.

Lemma exec_marked n c w q C :
  Updates w = Some q -> top_ok w -> C < length (effects w) -> getRunningEffect w <> Some C ->
  marked_or_cut w C ->
  holds (fun w' => marked_or_cut w' C /\ exists r, enqueued w' = enqueued w ++ r /\ ~ In C r)
    (exec n c w).
Proof.
  intros Hq Ht HC Hn Hm.
  pose proof (proj1 (steady_exec (fun _ => True) n) (fun _ => True) (length (effects w)) c w q
                Hq Ht (le_n _) (fun _ _ => I) (tame_any c)) as H.
  destruct (exec n c w) as [w' a| w' |]; cbn [holds] in H |- *; auto;
    exact (steady_marked w w' C H HC Hn Hm).
Qed.

Lemma runEffect_marked n X w q C :
  Updates w = Some q -> graph_ok w -> X <> C -> C < length (effects w) -> marked_or_cut w C ->
  holds (fun w' => marked_or_cut w' C /\ exists r, enqueued w' = enqueued w ++ r /\ ~ In C r)
    (runEffect n X w).
Proof.
  intros Hq G Hne HC Hm. destruct n as [|n]; [exact I|]. cbn [runEffect].
  pose proof (cleanup_cut_or_spare n X w C G) as Hc.
  pose proof (cleanup_shrink n X w) as Hs.
  destruct (cleanup_frame n X w) as [C1 C2].
  destruct (cleanup n X w) as [w1 []| w1 |] eqn:EC; cbn [and_then holds] in Hc, Hs, C1 |- *;
    [|exfalso; eapply C2; reflexivity|exact I].
  destruct C1 as (S1 & F1 & _). unfold sched in S1. injection S1 as Sr Su Sc Sd Se.
  assert (Hm1 : marked_or_cut w1 C).
  { destruct Hc as [[Sp1 _]|Dt].
    - destruct Hm as [Hs'|Hcut]; [left; rewrite Sp1; exact Hs'|].
      right. intros s Hx. exact (Hcut s (Hs C s Hx)).
    - right. exact (proj1 Dt). }
  set (w2 := with_running w1 (X :: runningEffects w1)).
  assert (Hq2 : Updates w2 = Some q) by (simpl; congruence).
  assert (L2 : length (effects w2) = length (effects w)) by exact (fns_length w w1 F1).
  unfold runUpdates. rewrite Hq2.
  destruct (Nat.lt_ge_cases X (length (effects w2))) as [HX|HX].
  - assert (Ht2 : top_ok w2) by (intros e He; injection He as <-; exact HX).
    assert (Hn2 : getRunningEffect w2 <> Some C) by (intros He; injection He as He; auto).
    pose proof (exec_marked n (fn (eff w2 X)) w2 q C Hq2 Ht2 ltac:(lia) Hn2 Hm1) as H.
    destruct (exec n (fn (eff w2 X)) w2) as [w3 a| w3 |]; cbn [and_then holds] in H |- *; auto;
      destruct H as (H1 & r & H2 & H3); (split; [exact H1|]);
      exists r; (split; [simpl; rewrite H2; simpl; congruence|exact H3]).
  - rewrite (fn_out w2 X HX). destruct n as [|n]; cbn [exec and_then holds]; [exact I|].
    split; [exact Hm1|]. exists []. rewrite app_nil_r. split; [simpl; congruence|intros []].
Qed.

(** An effect that owns nothing reaches only itself. *)
Lemma reaches_leaf w e x : children w e = [] -> reaches w e x -> e = x.
Proof. intros Hc Hr. inversion Hr as [|e' c x' Hin]; subst; auto. rewrite Hc in Hin. destruct Hin. Qed.

(** ** The claims *)

Module Claims.

(** *** C1 *)

(** C1 (code bug).  [src/index.ts] exports no [untrack]: its exports are
    [createSignal], [cleanup], [createEffect], [createMemo] and [batch], so
    the test file's [import { untrack }] is [undefined] and calling it
    throws.  Nor does the engine offer another way to read untracked: every
    reader call made while an effect is on top of the running stack
    registers the signal as a dependency of that effect, in both
    directions. *)
Theorem untrack_absent :
  ~ In "untrack"%string index_exports /\
  forall s w e, getRunningEffect w = Some e -> s < length (signals w) ->
    e < length (effects w) ->
    In e (observers (sig (fst (read s w)) s)) /\
    In s (dependencies (eff (fst (read s w)) e)).
Proof.
  split.
  - simpl. intros H. repeat destruct H as [H|H]; try discriminate H. exact H.
  - exact read_registers.
Qed.

Lemma untrack_absent_witness :
  In 0 (observers (sig (fst (read 0 running_world)) 0)) /\
  In 0 (dependencies (eff (fst (read 0 running_world)) 0)).
Proof.
  apply (proj2 untrack_absent).
  - vm_compute. reflexivity.
  - apply Nat.ltb_lt. vm_compute. reflexivity.
  - apply Nat.ltb_lt. vm_compute. reflexivity.
Defined.

(** *** C2 *)

(** C2 (code bug).  [runUpdates] has no [try/finally]: when an effect body
    throws during [createEffect], the queue [runEffect] opened is never
    reset to [undefined].  After the exception, [Updates] is still [[]];
    an independent top-level write then only enqueues its observer, which
    never runs (the counter stays at 1, the effect waits in the queue),
    whereas from a fresh engine the same script re-runs the effect and
    closes the queue. *)
Theorem queue_left_open_after_throw :
  exists w1, run_script 50 throwing_effect = Raised w1 /\ Updates w1 = Some [] /\
    count_after (exec 100 write_once w1) 0 = Some 1 /\
    Updates (world_of (exec 100 write_once w1)) = Some [1] /\
    count_after (exec 100 write_once init_world) 0 = Some 2 /\
    Updates (world_of (exec 100 write_once init_world)) = None.
Proof.
  exists thrown_world. vm_compute.
  repeat split; reflexivity.
Qed.

(** *** C3 *)

(** C3.  Under an open queue, [write] stores the new value whatever it is
    and marks every observer of the signal pending, appending to the queue
    those not pending yet.  A top-level [write] (no queue open) runs, in
    the flush it opens, every observer of the signal that was not pending.
    And the concrete script [signal(0)], an effect reading it,
    [setC(5); setC(5)] runs the effect body 3 times. *)
Theorem write_stores_and_schedules :
  (forall fl s v w q, Updates w = Some q -> s < length (signals w) ->
     NoDup (observers (sig w s)) ->
     (forall o, In o (observers (sig w s)) -> o < length (effects w)) ->
     exists w', write fl s v w = Done w' tt /\ current (sig w' s) = v /\
       Updates w' = Some (q ++ filter (fun o => negb (state (eff w o))) (observers (sig w s))) /\
       (forall o, In o (observers (sig w s)) -> state (eff w' o) = true)) /\
  (forall n s v w w', Updates w = None ->
     (forall o, In o (observers (sig w s)) -> o < length (effects w)) ->
     write (flushUpdates n) s v w = Done w' tt ->
     exists d, Updates w' = None /\ drained w' = drained w ++ d /\
       forall o, In o (observers (sig w s)) -> state (eff w o) = false -> In o d) /\
  count_after (run_script 100 same_value_writes) 0 = Some 3.
Proof.
  split; [|split].
  - intros fl s v w q Hq Hs Hnd Hv.
    destruct (write_open_spec fl s v w q Hq Hs Hnd Hv) as (w' & H1 & H2 & H3 & _ & H5 & _).
    exists w'. auto.
  - exact write_top_drains.
  - vm_compute. reflexivity.
Qed.

Lemma write_stores_and_schedules_witness :
  (exists w', write (flushUpdates 10) 0 (Some 5%Z) (with_updates same_value_world (Some [])) = Done w' tt /\
    current (sig w' 0) = Some 5%Z /\
    Updates w' = Some ([] ++ filter (fun o => negb (state (eff (with_updates same_value_world (Some [])) o)))
                                (observers (sig (with_updates same_value_world (Some [])) 0))) /\
    (forall o, In o (observers (sig (with_updates same_value_world (Some [])) 0)) -> state (eff w' o) = true)) /\
  (exists d, Updates (world_of (write (flushUpdates 100) 0 (Some 5%Z) same_value_world)) = None /\
     drained (world_of (write (flushUpdates 100) 0 (Some 5%Z) same_value_world)) =
       drained same_value_world ++ d /\
     forall o, In o (observers (sig same_value_world 0)) -> state (eff same_value_world o) = false ->
       In o d).
Proof.
  split.
  - apply (proj1 write_stores_and_schedules).
    + reflexivity.
    + apply Nat.ltb_lt. vm_compute. reflexivity.
    + vm_compute. repeat constructor. simpl. tauto.
    + intros o Ho. vm_compute in Ho. vm_compute. lia.
  - apply (proj1 (proj2 write_stores_and_schedules) 100 0 (Some 5%Z) same_value_world).
    + vm_compute. reflexivity.
    + intros o Ho. vm_compute in Ho. vm_compute. lia.
    + vm_compute. reflexivity.
Defined.

(** *** C4 *)

(** C4 (amended).  A write deduplicates against the pending marker: it
    appends to the queue exactly the observers whose marker is unset, each
    once, and sets the marker of every observer.  The marker is cleared by
    [cleanup], which [runEffect] calls before the body runs, not at the end
    of the cycle.  While an effect [C] is pending, or cut off from every
    signal, no code run under the open queue other than [C]'s own run
    appends it: neither user code whose running effect is not [C], nor the
    run of another effect (on a consistent graph); and [C] stays pending
    or cut off.  So [C] occupies at most one slot between two of its runs,
    but once it has run, a later write in the same cycle appends it
    again. *)
Theorem pending_marker_dedup :
  (forall fl s v w q, Updates w = Some q -> s < length (signals w) ->
     NoDup (observers (sig w s)) ->
     (forall o, In o (observers (sig w s)) -> o < length (effects w)) ->
     exists w', write fl s v w = Done w' tt /\
       Updates w' = Some (q ++ filter (fun o => negb (state (eff w o))) (observers (sig w s))) /\
       NoDup (filter (fun o => negb (state (eff w o))) (observers (sig w s))) /\
       (forall o, In o (observers (sig w s)) -> state (eff w' o) = true)) /\
  (forall n e w, e < length (effects w) ->
     holds (fun w' => state (eff w' e) = false) (cleanup n e w)) /\
  (forall n c w q C, Updates w = Some q -> top_ok w -> C < length (effects w) ->
     getRunningEffect w <> Some C -> marked_or_cut w C ->
     holds (fun w' => marked_or_cut w' C /\ exists r, enqueued w' = enqueued w ++ r /\ ~ In C r)
       (exec n c w)) /\
  (forall n X w q C, Updates w = Some q -> graph_ok w -> X <> C -> C < length (effects w) ->
     marked_or_cut w C ->
     holds (fun w' => marked_or_cut w' C /\ exists r, enqueued w' = enqueued w ++ r /\ ~ In C r)
       (runEffect n X w)).
Proof.
  split; [|split; [|split]].
  - intros fl s v w q Hq Hs Hnd Hv.
    destruct (write_open_spec fl s v w q Hq Hs Hnd Hv) as (w' & H1 & _ & H3 & _ & H5 & _).
    exists w'. split; [exact H1|]. split; [exact H3|]. split; [|exact H5].
    apply NoDup_filter. exact Hnd.
  - intros n e w He. pose proof (cleanup_clears n e w He) as H.
    destruct (cleanup n e w); simpl in *; tauto.
  - exact exec_marked.
  - exact runEffect_marked.
Qed.

Lemma pending_marker_dedup_witness :
  (exists w', write (flushUpdates 10) 0 (Some 2%Z) (with_updates two_paths_world (Some [])) = Done w' tt /\
     Updates w' = Some ([] ++ filter (fun o => negb (state (eff (with_updates two_paths_world (Some [])) o)))
                                 (observers (sig (with_updates two_paths_world (Some [])) 0))) /\
     NoDup (filter (fun o => negb (state (eff (with_updates two_paths_world (Some [])) o)))
              (observers (sig (with_updates two_paths_world (Some [])) 0))) /\
     (forall o, In o (observers (sig (with_updates two_paths_world (Some [])) 0)) ->
        state (eff w' o) = true)) /\
  holds (fun w' => state (eff w' 0) = false) (cleanup 10 0 two_paths_world) /\
  holds (fun w' => marked_or_cut w' 0 /\
           exists r, enqueued w' = enqueued two_paths_queued ++ r /\ ~ In 0 r)
    (exec 20 (Write 1 (Some 1%Z) (Ret None)) two_paths_queued) /\
  holds (fun w' => marked_or_cut w' 0 /\
           exists r, enqueued w' = enqueued two_paths_queued ++ r /\ ~ In 0 r)
    (runEffect 20 1 two_paths_queued).
Proof.
  split; [|split; [|split]].
  - apply (proj1 pending_marker_dedup).
    + reflexivity.
    + apply Nat.ltb_lt. vm_compute. reflexivity.
    + vm_compute. repeat constructor; simpl; intuition discriminate.
    + intros o Ho. vm_compute in Ho. vm_compute. lia.
  - apply (proj1 (proj2 pending_marker_dedup)). apply Nat.ltb_lt. vm_compute. reflexivity.
  - apply (proj1 (proj2 (proj2 pending_marker_dedup)) 20 _ two_paths_queued [0; 1]).
    + vm_compute. reflexivity.
    + apply top_ok_b_ok. vm_compute. reflexivity.
    + apply Nat.ltb_lt. vm_compute. reflexivity.
    + vm_compute. discriminate.
    + left. vm_compute. reflexivity.
  - apply (proj2 (proj2 (proj2 pending_marker_dedup)) 20 1 two_paths_queued [0; 1]).
    + vm_compute. reflexivity.
    + apply graph_ok_b_ok. vm_compute. reflexivity.
    + discriminate.
    + apply Nat.ltb_lt. vm_compute. reflexivity.
    + left. vm_compute. reflexivity.
Defined.

(** C4, counterexample.  Effect [C] (0) reads [S] and [T]; effect [D] (1)
    reads [S] and writes [T] while [S] is not 0.  One top-level write to
    [S] appends [C], [D], then [C] again to the same cycle's queue: [D]'s
    write comes after [C] ran and cleared its marker.  [C] is run twice. *)
Lemma pending_twice_in_one_cycle :
  Updates two_paths_world = None /\
  write (flushUpdates 100) 0 (Some 2%Z) two_paths_world =
    Done (world_of (write (flushUpdates 100) 0 (Some 2%Z) two_paths_world)) tt /\
  enqueued (world_of (write (flushUpdates 100) 0 (Some 2%Z) two_paths_world)) =
    enqueued two_paths_world ++ [0; 1; 0] /\
  drained (world_of (write (flushUpdates 100) 0 (Some 2%Z) two_paths_world)) =
    drained two_paths_world ++ [0; 1; 0] /\
  counters two_paths_world 0 = 1 /\
  counters (world_of (write (flushUpdates 100) 0 (Some 2%Z) two_paths_world)) 0 = 3.
Proof. vm_compute. repeat split. Qed.

(** *** C5 *)

(** C5 (amended).  A top-level [batch] writing [S1] then [S2] runs an
    effect [E] observing either of them, and not pending before, exactly
    once before [batch] returns, provided no other code writes a signal [E]
    reads: [E] observes and reads only signals of a list [R] of allocated
    signals, and no effect or memo body, in any branch, writes a signal of
    [R] (bodies may create signals, effects and memos, under the same
    condition).  A [batch] run while a queue is open (nested in a running
    flush) only appends to that queue: it runs no effect and drains
    nothing. *)
Theorem batch_runs_once_when_quiet :
  (forall E R n s1 v1 s2 v2 w w' a,
    Updates w = None -> E < length (effects w) -> state (eff w E) = false ->
    In E (observers (sig w s1)) \/ In E (observers (sig w s2)) ->
    tame_world E R w -> observes_within E R w -> allocated R w ->
    exec n (Batch (Write s1 v1 (Write s2 v2 (Ret None))) (Ret None)) w = Done w' a ->
    exists d, Updates w' = None /\ drained w' = drained w ++ d /\
      count_occ Nat.eq_dec d E = 1) /\
  (forall n s1 v1 s2 v2 w q, Updates w = Some q ->
    holds (grows w) (exec n (Batch (Write s1 v1 (Write s2 v2 (Ret None))) (Ret None)) w)).
Proof.
  split.
  - intros E R n s1 v1 s2 v2 w w' a Hn HE Hs Hin Ht Hi Ha Hx.
    exact (batch_top_count E R n s1 v1 s2 v2 w w' a Hn Hs Hin (conj Ht (conj Hi (conj Ha HE))) Hx).
  - intros n s1 v1 s2 v2 w q Hq. exact (proj1 (open_queue_grows n) _ w q Hq).
Qed.

Lemma batch_runs_once_when_quiet_witness :
  (exists d, Updates (world_of (exec 100 batch_both lone_world)) = None /\
    drained (world_of (exec 100 batch_both lone_world)) = drained lone_world ++ d /\
    count_occ Nat.eq_dec d 0 = 1) /\
  holds (grows (with_updates lone_world (Some [])))
    (exec 100 batch_both (with_updates lone_world (Some []))).
Proof.
  split.
  - apply (proj1 batch_runs_once_when_quiet 0 [0; 1] 100 0 (Some 1%Z) 1 (Some 2%Z) lone_world
             (world_of (exec 100 batch_both lone_world)) None).
    + vm_compute. reflexivity.
    + apply Nat.ltb_lt. vm_compute. reflexivity.
    + vm_compute. reflexivity.
    + left. apply set_has_In. vm_compute. reflexivity.
    + apply tame_world_intro. intros x Hx. vm_compute in Hx.
      destruct x as [|x]; [|lia]. vm_compute. solve_tame.
    + apply observes_within_b_ok. vm_compute. reflexivity.
    + intros s Hs. destruct Hs as [<-|[<-|[]]]; apply Nat.ltb_lt; vm_compute; reflexivity.
    + vm_compute. reflexivity.
  - apply (proj2 batch_runs_once_when_quiet 100 0 (Some 1%Z) 1 (Some 2%Z)
             (with_updates lone_world (Some [])) []).
    reflexivity.
Defined.

(** C5, counterexample.  Effect [E] (0) reads [S1] and [S2]; effect [F]
    (1) reads [S1] and writes [S2] while [S1] is not 0.  One [batch]
    writing [S1] and [S2] runs [E] twice. *)
Lemma batch_runs_twice :
  Updates writer_world = None /\
  counters writer_world 0 = 1 /\
  counters (world_of (exec 100 batch_both writer_world)) 0 = 3 /\
  drained (world_of (exec 100 batch_both writer_world)) = drained writer_world ++ [0; 1; 0].
Proof. vm_compute. repeat split. Qed.

(** *** C6 *)

(** C6 (amended).  Reader calls run no body: any number of them changes no
    counter, queues nothing and drains nothing, and a memo read three times
    after its creation has run its body once.  A top-level write to a
    signal a memo (or effect) [E] observes runs [E] exactly once before
    the write returns, provided [E] was not pending and no other code
    writes a signal [E] reads: [E] observes and reads only signals of a
    list [R] of allocated signals, and no effect or memo body, in any
    branch, writes a signal of [R]. *)
Theorem memo_reader_runs_nothing :
  (forall n s k v w w' a, exec n (read_n s k (Ret v)) w = Done w' a ->
     counters w' = counters w /\ drained w' = drained w /\
     enqueued w' = enqueued w /\ Updates w' = Updates w) /\
  count_after (run_script 200 memo_reads) 0 = Some 1 /\
  (forall E R n s v w w', Updates w = None -> E < length (effects w) ->
     state (eff w E) = false -> In E (observers (sig w s)) ->
     tame_world E R w -> observes_within E R w -> allocated R w ->
     write (flushUpdates n) s v w = Done w' tt ->
     exists d, Updates w' = None /\ drained w' = drained w ++ d /\
       count_occ Nat.eq_dec d E = 1).
Proof.
  split; [|split].
  - intros n s k v w w' a H. destruct (read_n_quiet n s k v w w' a H) as (_ & H1 & H2 & H3 & H4 & _).
    auto.
  - vm_compute. reflexivity.
  - intros E R n s v w w' Hn HE Hs Hin Ht Hi Ha Hw.
    destruct (write_top_count E R n s v w w' Hn (conj Ht (conj Hi (conj Ha HE))) Hw)
      as (d & H1 & H2 & H3).
    exists d. split; [exact H1|]. split; [exact H2|]. rewrite H3, Hs.
    apply set_has_In in Hin. rewrite Hin. reflexivity.
Qed.

Lemma memo_reader_runs_nothing_witness :
  (counters (world_of (exec 10 (read_n 1 3 (Ret None)) lone_memo_world)) = counters lone_memo_world /\
   drained (world_of (exec 10 (read_n 1 3 (Ret None)) lone_memo_world)) = drained lone_memo_world /\
   enqueued (world_of (exec 10 (read_n 1 3 (Ret None)) lone_memo_world)) = enqueued lone_memo_world /\
   Updates (world_of (exec 10 (read_n 1 3 (Ret None)) lone_memo_world)) = Updates lone_memo_world) /\
  (exists d, Updates (world_of (write (flushUpdates 100) 0 (Some 3%Z) lone_memo_world)) = None /\
     drained (world_of (write (flushUpdates 100) 0 (Some 3%Z) lone_memo_world)) =
       drained lone_memo_world ++ d /\
     count_occ Nat.eq_dec d 0 = 1).
Proof.
  split.
  - apply (proj1 memo_reader_runs_nothing 10 1 3 None lone_memo_world
             (world_of (exec 10 (read_n 1 3 (Ret None)) lone_memo_world)) None).
    vm_compute. reflexivity.
  - apply (proj2 (proj2 memo_reader_runs_nothing) 0 [0] 100 0 (Some 3%Z) lone_memo_world).
    + vm_compute. reflexivity.
    + apply Nat.ltb_lt. vm_compute. reflexivity.
    + vm_compute. reflexivity.
    + apply set_has_In. vm_compute. reflexivity.
    + apply tame_world_intro. intros x Hx. vm_compute in Hx.
      destruct x as [|x]; [|lia]. vm_compute. solve_tame.
    + apply observes_within_b_ok. vm_compute. reflexivity.
    + intros s Hs. destruct Hs as [<-|[]]. apply Nat.ltb_lt. vm_compute. reflexivity.
    + vm_compute. reflexivity.
Defined.

(** C6, counterexample.  A memo over [S1] (0) and [S2] (1); effect [F]
    reads [S1] and writes [S2] while [S1] is not 0.  One write to [S1]
    recomputes the memo twice in the same flush. *)
Lemma memo_recomputed_twice :
  Updates memo_writer_world = None /\
  counters memo_writer_world 0 = 1 /\
  counters (world_of (write (flushUpdates 100) 0 (Some 2%Z) memo_writer_world)) 0 = 3 /\
  drained (world_of (write (flushUpdates 100) 0 (Some 2%Z) memo_writer_world)) =
    drained memo_writer_world ++ [0; 1; 0].
Proof. vm_compute. repeat split. Qed.

(** *** C7 *)

(** C7 (amended).  A run of an effect whose body reads [s1] and then reads
    [s2] only when [b] holds of [s1]'s value (the rest [k] of the body
    reads anything but [s2], and may write and create) leaves it observing
    [s1], and observing [s2] exactly when the branch was taken: [cleanup]
    dropped the old edges and the run rebuilt them from the path taken.
    This needs the effect's observer edges to have their dependency edges
    back before the run.  A later top-level write to a signal then runs
    the effect once if it observes that signal and is not pending, and not
    at all otherwise, provided no other code writes a signal the effect
    reads: the effect observes and reads only signals of a list [R] of
    allocated signals, and no effect or memo body, in any branch, writes a
    signal of [R]. *)
Theorem gated_rebuild_and_count :
  (forall n E s1 s2 b k w q w', Updates w = Some q ->
     s1 < length (signals w) -> s2 < length (signals w) -> s1 <> s2 ->
     fn (eff w E) = gated s1 s2 b k -> tame (fun _ => True) (fun s => s <> s2) k ->
     edges_back E w -> runEffect n E w = Done w' tt ->
     In E (observers (sig w' s1)) /\
     (In E (observers (sig w' s2)) <-> b (current (sig w s1)) = true)) /\
  (forall E R n s v w w', Updates w = None -> E < length (effects w) ->
     tame_world E R w -> observes_within E R w -> allocated R w ->
     write (flushUpdates n) s v w = Done w' tt ->
     exists d, Updates w' = None /\ drained w' = drained w ++ d /\
       count_occ Nat.eq_dec d E =
         (if state (eff w E) then 0 else if set_has E (observers (sig w s)) then 1 else 0)).
Proof.
  split.
  - exact gated_rebuild.
  - intros E R n s v w w' Hn HE Ht Hi Ha Hw.
    exact (write_top_count E R n s v w w' Hn (conj Ht (conj Hi (conj Ha HE))) Hw).
Qed.

Lemma gated_rebuild_and_count_witness :
  (In 0 (observers (sig (world_of (runEffect 20 0 (with_updates gated_world (Some [])))) 0)) /\
   (In 0 (observers (sig (world_of (runEffect 20 0 (with_updates gated_world (Some [])))) 1)) <->
    above5 (current (sig (with_updates gated_world (Some [])) 0)) = true)) /\
  (exists d, Updates (world_of (write (flushUpdates 100) 1 (Some 9%Z) gated_world)) = None /\
     drained (world_of (write (flushUpdates 100) 1 (Some 9%Z) gated_world)) = drained gated_world ++ d /\
     count_occ Nat.eq_dec d 0 =
       (if state (eff gated_world 0) then 0
        else if set_has 0 (observers (sig gated_world 1)) then 1 else 0)).
Proof.
  assert (Hf : fn (eff gated_world 0) = gated 0 1 above5 (Tick 0 (Ret None))).
  { vm_compute. reflexivity. }
  split.
  - apply (proj1 gated_rebuild_and_count 20 0 0 1 above5 (Tick 0 (Ret None))
             (with_updates gated_world (Some [])) []).
    + reflexivity.
    + apply Nat.ltb_lt. vm_compute. reflexivity.
    + apply Nat.ltb_lt. vm_compute. reflexivity.
    + discriminate.
    + exact Hf.
    + solve_tame.
    + apply edges_back_b_ok. vm_compute. reflexivity.
    + vm_compute. reflexivity.
  - apply (proj2 gated_rebuild_and_count 0 [0; 1] 100 1 (Some 9%Z) gated_world).
    + vm_compute. reflexivity.
    + apply Nat.ltb_lt. vm_compute. reflexivity.
    + apply tame_world_intro. intros x Hx. vm_compute in Hx.
      destruct x as [|x]; [|lia]. rewrite Hf. unfold gated. solve_tame.
    + apply observes_within_b_ok. vm_compute. reflexivity.
    + intros s Hs. destruct Hs as [<-|[<-|[]]]; apply Nat.ltb_lt; vm_compute; reflexivity.
    + vm_compute. reflexivity.
Defined.

(** C7, counterexample.  The gated effect (0) reads signal 1 only while
    signal 0 is above 5; effect [F] (1) reads signal 1 and writes 0 to
    signal 0.  The branch is not taken (signal 0 holds 0, the gated effect
    does not observe signal 1), yet a write to signal 1 runs the gated
    effect once more, through [F]'s write. *)
Lemma gated_runs_without_branch :
  Updates gated_writer_world = None /\
  current (sig gated_writer_world 0) = Some 0%Z /\
  set_has 0 (observers (sig gated_writer_world 1)) = false /\
  counters gated_writer_world 0 = 2 /\
  counters (world_of (write (flushUpdates 100) 1 (Some 9%Z) gated_writer_world)) 0 = 3 /\
  current (sig (world_of (write (flushUpdates 100) 1 (Some 9%Z) gated_writer_world)) 0) = Some 0%Z.
Proof. vm_compute. repeat split. Qed.

(** *** C8 *)

(** C8.  A top-level write, and a top-level [batch], return only after the
    queue is drained and closed, and the sequence of effects drained is
    exactly the sequence pushed onto the queue, in push order, including
    the effects pushed while the queue was being drained. *)
Theorem drain_in_push_order :
  (forall n s v w w', Updates w = None -> write (flushUpdates n) s v w = Done w' tt ->
     exists d, Updates w' = None /\ enqueued w' = enqueued w ++ d /\
               drained w' = drained w ++ d) /\
  (forall n b w w', Updates w = None -> runUpdates (flushUpdates n) (exec n b) w = Done w' tt ->
     exists d, Updates w' = None /\ enqueued w' = enqueued w ++ d /\
               drained w' = drained w ++ d).
Proof.
  split.
  - exact write_top.
  - exact batch_top.
Qed.

Lemma drain_in_push_order_witness :
  (exists d, Updates (world_of (write (flushUpdates 100) 0 (Some 2%Z) two_paths_world)) = None /\
     enqueued (world_of (write (flushUpdates 100) 0 (Some 2%Z) two_paths_world)) =
       enqueued two_paths_world ++ d /\
     drained (world_of (write (flushUpdates 100) 0 (Some 2%Z) two_paths_world)) =
       drained two_paths_world ++ d) /\
  (exists d,
     Updates (world_of (runUpdates (flushUpdates 100)
       (exec 100 (Write 0 (Some 1%Z) (Write 1 (Some 2%Z) (Ret None)))) writer_world)) = None /\
     enqueued (world_of (runUpdates (flushUpdates 100)
       (exec 100 (Write 0 (Some 1%Z) (Write 1 (Some 2%Z) (Ret None)))) writer_world)) =
       enqueued writer_world ++ d /\
     drained (world_of (runUpdates (flushUpdates 100)
       (exec 100 (Write 0 (Some 1%Z) (Write 1 (Some 2%Z) (Ret None)))) writer_world)) =
       drained writer_world ++ d).
Proof.
  split.
  - apply (proj1 drain_in_push_order 100 0 (Some 2%Z) two_paths_world).
    + vm_compute. reflexivity.
    + vm_compute. reflexivity.
  - apply (proj2 drain_in_push_order 100 (Write 0 (Some 1%Z) (Write 1 (Some 2%Z) (Ret None)))
             writer_world).
    + vm_compute. reflexivity.
    + vm_compute. reflexivity.
Defined.

(** *** C9 *)

(** C9.  When an effect's run raises, [runEffect] pops the running stack in
    its [finally]: the exception leaves the stack as it was before the run,
    and so does every piece of user code that raises. *)
Theorem raise_restores_running :
  (forall n e w w', runEffect n e w = Raised w' -> runningEffects w' = runningEffects w) /\
  (forall n c w w', exec n c w = Raised w' -> runningEffects w' = runningEffects w).
Proof.
  split.
  - intros n e w w' H. pose proof (proj1 (proj2 (running_preserved n)) e w) as P.
    rewrite H in P. exact P.
  - intros n c w w' H. pose proof (proj1 (running_preserved n) c w) as P.
    rewrite H in P. exact P.
Qed.

Lemma raise_restores_running_witness :
  runningEffects (world_of (runEffect 10 0 (with_running thrown_world [0]))) =
    runningEffects (with_running thrown_world [0]) /\
  runningEffects thrown_world = runningEffects init_world.
Proof.
  split.
  - apply (proj1 raise_restores_running 10 0 (with_running thrown_world [0])).
    vm_compute. reflexivity.
  - apply (proj2 raise_restores_running 50 throwing_effect init_world).
    vm_compute. reflexivity.
Defined.

(** *** C10 *)

(** C10 (amended).  A run of a memo's effect [M] always writes the backing
    signal, even with an equal value, so every other effect [E] observing
    that signal ends up pending, pushed onto the queue during the run
    unless it was pending already, provided [E] is not in the tree of
    effects [M] owns (which [M]'s [cleanup] cuts off).  On a consistent
    graph, an effect [E] in that tree is instead left cut off: not pending
    and observing nothing.  And an effect reading a memo that always
    returns 0 runs again on each of two writes to the memo's input (3 runs
    in all). *)
Theorem memo_notifies_unless_cut :
  (forall n M b sid E w q w', Updates w = Some q -> fn (eff w M) = memoBody b sid ->
     E <> M -> E < length (effects w) -> In E (observers (sig w sid)) ->
     ~ reaches w M E ->
     runEffect n M w = Done w' tt ->
     state (eff w' E) = true /\
     exists r, enqueued w' = enqueued w ++ r /\ (state (eff w E) = true \/ In E r)) /\
  (forall n M b sid E w q w', Updates w = Some q -> fn (eff w M) = memoBody b sid ->
     E <> M -> E < length (effects w) -> In E (observers (sig w sid)) -> graph_ok w ->
     runEffect n M w = Done w' tt ->
     (state (eff w' E) = true /\
      exists r, enqueued w' = enqueued w ++ r /\ (state (eff w E) = true \/ In E r)) \/
     (state (eff w' E) = false /\ forall s, ~ In E (observers (sig w' s)))) /\
  count_after (exec 100 const_memo_writes const_memo_world) 0 = Some 3.
Proof.
  split; [|split].
  - intros n M b sid E w q w' Hq Hf Hne HE Hin Hr H.
    destruct n as [|n]; [discriminate H|].
    destruct (memo_run_cases n M b sid E w q w' Hq Hf Hne HE Hin H) as (w1 & EC & Hs & _).
    apply Hs. pose proof (cleanup_spares n M w E Hr) as S. rewrite EC in S. exact S.
  - intros n M b sid E w q w' Hq Hf Hne HE Hin G H.
    destruct n as [|n]; [discriminate H|].
    destruct (memo_run_cases n M b sid E w q w' Hq Hf Hne HE Hin H) as (w1 & EC & Hs & Hd).
    pose proof (cleanup_cut_or_spare n M w E G) as S. rewrite EC in S.
    destruct S as [S|S]; [left; exact (Hs S)|right; exact (Hd S)].
  - vm_compute. reflexivity.
Qed.

Lemma memo_notifies_unless_cut_witness :
  (state (eff (world_of (runEffect 20 0 (with_updates const_memo_world (Some [])))) 1) = true /\
   exists r, enqueued (world_of (runEffect 20 0 (with_updates const_memo_world (Some [])))) =
               enqueued (with_updates const_memo_world (Some [])) ++ r /\
             (state (eff (with_updates const_memo_world (Some [])) 1) = true \/ In 1 r)) /\
  ((state (eff (world_of (runEffect 20 0 (with_updates memo_child_world (Some [])))) 1) = true /\
    exists r, enqueued (world_of (runEffect 20 0 (with_updates memo_child_world (Some [])))) =
                enqueued (with_updates memo_child_world (Some [])) ++ r /\
              (state (eff (with_updates memo_child_world (Some [])) 1) = true \/ In 1 r)) \/
   (state (eff (world_of (runEffect 20 0 (with_updates memo_child_world (Some [])))) 1) = false /\
    forall s, ~ In 1 (observers (sig (world_of (runEffect 20 0 (with_updates memo_child_world (Some [])))) s)))).
Proof.
  split.
  - apply (proj1 memo_notifies_unless_cut 20 0 (Read 0 (fun _ => Ret (Some 0%Z))) 1 1
             (with_updates const_memo_world (Some [])) []).
    + reflexivity.
    + vm_compute. reflexivity.
    + discriminate.
    + apply Nat.ltb_lt. vm_compute. reflexivity.
    + apply set_has_In. vm_compute. reflexivity.
    + intros Hr. apply reaches_leaf in Hr; [discriminate|vm_compute; reflexivity].
    + vm_compute. reflexivity.
  - apply (proj1 (proj2 memo_notifies_unless_cut) 20 0
             (Read 0 (fun v => NewEffect (Read 1 (fun _ => Tick 0 (Ret None))) (Ret v))) 1 1
             (with_updates memo_child_world (Some [])) []).
    + reflexivity.
    + vm_compute. reflexivity.
    + discriminate.
    + apply Nat.ltb_lt. vm_compute. reflexivity.
    + apply set_has_In. vm_compute. reflexivity.
    + apply graph_ok_b_ok. vm_compute. reflexivity.
    + vm_compute. reflexivity.
Defined.

(** C10, counterexample.  A memo (effect 0, backing signal 1) over signal
    0 whose body creates an effect reading the memo's signal.  A write to
    signal 0 recomputes the memo, whose [cleanup] cuts off the effect its
    previous run created (effect 1, which tracks the memo's reader): the
    recomputation's write schedules only the effect created anew (2), and
    effect 1 is left neither pending nor observing anything. *)
Lemma memo_child_not_notified :
  Updates memo_child_world = None /\
  In 0 (observers (sig memo_child_world 0)) /\
  In 1 (observers (sig memo_child_world 1)) /\
  write (flushUpdates 100) 0 (Some 1%Z) memo_child_world =
    Done (world_of (write (flushUpdates 100) 0 (Some 1%Z) memo_child_world)) tt /\
  enqueued (world_of (write (flushUpdates 100) 0 (Some 1%Z) memo_child_world)) =
    enqueued memo_child_world ++ [0; 2] /\
  drained (world_of (write (flushUpdates 100) 0 (Some 1%Z) memo_child_world)) =
    drained memo_child_world ++ [0; 2] /\
  state (eff (world_of (write (flushUpdates 100) 0 (Some 1%Z) memo_child_world)) 1) = false /\
  observers (sig (world_of (write (flushUpdates 100) 0 (Some 1%Z) memo_child_world)) 1) = [2].
Proof. vm_compute. repeat split; auto. Qed.

End Claims.

(** ** Further properties, one per entry *)

Module Extras.

(** X2.  The observer and dependency sets stay mirror images of each other
    and free of duplicates under every operation, whether it returns or
    throws, and no effect is ever removed from the arena; in particular
    this holds after any script started from the empty world. *)
Theorem graph_stays_consistent :
  (forall n c w, graph_ok w -> top_ok w -> holds (graph_grows w) (exec n c w)) /\
  (forall n e w, graph_ok w -> holds (graph_grows w) (runEffect n e w)) /\
  (forall n c, holds graph_ok (run_script n c)).
Proof.
  split; [|split].
  - intros n. apply (graph_preserved n).
  - intros n. apply (graph_preserved n).
  - intros n c. unfold run_script.
    assert (G : graph_ok init_world).
    { split; [|split].
      - intros s x Hx. destruct s; destruct Hx.
      - intros s. destruct s; constructor.
      - intros x. destruct x; constructor. }
    assert (T : top_ok init_world) by (intros e He; discriminate).
    pose proof (proj1 (graph_preserved n) c init_world G T) as H.
    destruct (exec n c init_world); simpl in *; [exact (proj1 H)|exact (proj1 H)|exact I].
Qed.

Lemma graph_stays_consistent_witness :
  graph_ok running_world /\ top_ok running_world /\
  holds (graph_grows running_world) (exec 50 (Write 0 (Some 7%Z) (Read 0 Ret)) running_world).
Proof.
  assert (G : graph_ok running_world) by (apply graph_ok_b_ok; vm_compute; reflexivity).
  assert (T : top_ok running_world) by (apply top_ok_b_ok; vm_compute; reflexivity).
  split; [exact G|split; [exact T|]].
  exact (proj1 graph_stays_consistent 50 _ running_world G T).
Defined.

(** X3.  On a consistent graph, [cleanup(e)] cuts off [e] and every effect
    [e] owns: none of them is observed by a signal, lists a dependency or
    is pending afterwards; [e]'s owned list becomes empty if [e] had one. *)
Theorem cleanup_cuts_off_owned n e w :
  graph_ok w ->
  holds (fun w' => (forall x, In x (e :: children w e) -> detached w' x) /\
                   owned (eff w' e) = option_map (fun _ => []) (owned (eff w e)))
    (cleanup n e w).
Proof. intros G. apply holds_conj; [apply cleanup_detaches, G|apply cleanup_owned]. Qed.

Lemma cleanup_cuts_off_owned_witness :
  graph_ok nested_world /\
  holds (fun w' => (forall x, In x (0 :: children nested_world 0) -> detached w' x) /\
                   owned (eff w' 0) = option_map (fun _ => []) (owned (eff nested_world 0)))
    (cleanup 10 0 nested_world).
Proof.
  assert (G : graph_ok nested_world) by (apply graph_ok_b_ok; vm_compute; reflexivity).
  split; [exact G|]. exact (cleanup_cuts_off_owned 10 0 nested_world G).
Defined.

(** X4.  When user code or an effect's run returns normally, the stack of
    running effects is back to what it was before. *)
Theorem normal_return_keeps_stack :
  (forall n c w w' v, exec n c w = Done w' v -> runningEffects w' = runningEffects w) /\
  (forall n e w w', runEffect n e w = Done w' tt -> runningEffects w' = runningEffects w).
Proof.
  split.
  - intros n c w w' v H. pose proof (proj1 (running_preserved n) c w) as P.
    rewrite H in P. exact P.
  - intros n e w w' H. pose proof (proj1 (proj2 (running_preserved n)) e w) as P.
    rewrite H in P. exact P.
Qed.

Lemma normal_return_keeps_stack_witness :
  runEffect 50 0 running_world = Done (world_of (runEffect 50 0 running_world)) tt /\
  runningEffects (world_of (runEffect 50 0 running_world)) = runningEffects running_world.
Proof.
  assert (H : runEffect 50 0 running_world = Done (world_of (runEffect 50 0 running_world)) tt)
    by (vm_compute; reflexivity).
  split; [exact H|]. exact (proj2 normal_return_keeps_stack 50 0 running_world _ H).
Defined.

(** X5.  While the queue is open, user code and effect runs only append to
    the queue (logging what they push) and drain nothing, whatever their
    outcome: nested writes and batches leave the draining to the flush
    already in progress. *)
Theorem open_queue_only_appends :
  (forall n c w q, Updates w = Some q -> holds (grows w) (exec n c w)) /\
  (forall n e w q, Updates w = Some q -> holds (grows w) (runEffect n e w)).
Proof.
  split.
  - intros n. apply (open_queue_grows n).
  - intros n. apply (open_queue_grows n).
Qed.

Lemma open_queue_only_appends_witness :
  Updates (with_updates writer_world (Some [])) = Some [] /\
  holds (grows (with_updates writer_world (Some [])))
    (exec 50 (Batch (Write 0 (Some 1%Z) (Write 1 (Some 2%Z) (Ret None))) (Ret None))
       (with_updates writer_world (Some []))).
Proof.
  split; [reflexivity|].
  exact (proj1 open_queue_only_appends 50 _ (with_updates writer_world (Some [])) [] eq_refl).
Defined.

(** X6.  Writing a signal and reading it back returns the written value
    when the queue is open (inside a batch or an effect run) or when the
    signal has no observers. *)
Theorem write_then_read n s v w :
  s < length (signals w) -> (Updates w <> None \/ observers (sig w s) = []) ->
  exists w', exec (S (S (S n))) (Write s v (Read s Ret)) w = Done w' v.
Proof.
  intros Hs Hq.
  destruct (write_keeps_value (flushUpdates (S (S n))) s v w Hs Hq) as (w1 & Hw & Hc).
  cbn [exec]. rewrite Hw. cbn [and_then].
  pose proof (proj1 (read_frame s w1)) as R.
  destruct (read s w1) as [w2 x]. simpl in R. exists w2. rewrite R, Hc. reflexivity.
Qed.

Lemma write_then_read_witness :
  exists w', exec 5 (Write 0 (Some 9%Z) (Read 0 Ret)) (with_updates writer_world (Some [])) =
               Done w' (Some 9%Z).
Proof.
  assert (Hs : 0 < length (signals (with_updates writer_world (Some [])))) by (vm_compute; lia).
  assert (Hq : Updates (with_updates writer_world (Some [])) <> None) by discriminate.
  exact (write_then_read 2 0 (Some 9%Z) _ Hs (or_introl Hq)).
Defined.

(** X7.  Reading a freshly created signal returns its initial value. *)
Theorem new_signal_then_read n i w :
  exists w', exec (S (S (S n))) (NewSignal i (fun s => Read s Ret)) w = Done w' i.
Proof.
  cbn [exec]. unfold createSignal at 1.
  pose proof (proj1 (read_frame (length (signals w))
                       (with_signals w (fun l => l ++ [mkSignal i []])))) as R.
  destruct (read _ _) as [w2 x]. simpl in R. exists w2.
  rewrite R, sig_alloc, Nat.ltb_irrefl, Nat.eqb_refl. reflexivity.
Qed.

End Extras.
